(** * autobrowser behaviours: timeline and grid visitors

    A shallow embedding of [behaviors/behaviorjs/twitterTimeline.js], which
    holds two runners: the Twitter timeline runner ([runner($x, true)]) and,
    after it, the runner for a virtualized grid of pins ([runner($x, false)]),
    together with the properties of the specification settled against them.

    Part I is the embedding. [JS], [Url] and [Browser] model what the
    runners use of the language and of the browser; [Timeline] and [Grid] are
    the two runners, function by function; [Reference] and [Scenario] hold
    the specification's own words about links; [Demo] and [GridDemo] are two
    small pages for closed examples; [Tokens], [Registry], [Observed],
    [GridSteps] and [XPath] hold what the further properties are stated
    with. Part II holds the lemmas and theorems of the specification, Part
    III further properties of the code.

    A page is shared with its own scripts. A document state is a record of
    what the runner can read; what the page does in answer to the runner and
    while time passes is a function [react] over which every property is
    quantified. Waiting on a predicate may last forever: the functions that
    wait take the number of timer firings they may wait for. *)

From Stdlib Require Import String Ascii NArith ZArith List Bool Lia.
From stdpp Require Import base decidable option list gmap.

Local Open Scope N_scope.

(* ===================================================================== *)
(** * Part I: the embedding                                                *)
(* ===================================================================== *)

(** ** JavaScript strings

    A JavaScript string is a sequence of UTF-16 code units. *)

Abbreviation jsstring := (list N).

Module JS.

Definition code_unit (a : ascii) : N := N_of_ascii a.

(** A literal of the source text, as its code units. *)
Definition str (s : string) : jsstring :=
  map code_unit (list_ascii_of_string s).

(** ECMAScript [WhiteSpace] and [LineTerminator] code units, the ones
    [String.prototype.trim] removes: TAB, LF, VT, FF, CR, SP, NBSP, U+1680,
    U+2000..U+200A, U+2028, U+2029, U+202F, U+205F, U+3000, U+FEFF. *)
Definition is_js_whitespace (c : N) : bool :=
  (9 <=? c) && (c <=? 13) || (c =? 32) || (c =? 160) || (c =? 5760)
  || (8192 <=? c) && (c <=? 8202) || (c =? 8232) || (c =? 8233)
  || (c =? 8239) || (c =? 8287) || (c =? 12288) || (c =? 65279).

Fixpoint trimStart (s : jsstring) : jsstring :=
  match s with
  | c :: r => if is_js_whitespace c then trimStart r else s
  | [] => []
  end.

Fixpoint trimEnd (s : jsstring) : jsstring :=
  match s with
  | c :: r =>
      match trimEnd r with
      | [] => if is_js_whitespace c then [] else [c]
      | r' => c :: r'
      end
  | [] => []
  end.

(** [String.prototype.trim]. *)
Definition trim (s : jsstring) : jsstring := trimEnd (trimStart s).

(** [s.startsWith(p)]. *)
Fixpoint startsWith (s p : jsstring) {struct p} : bool :=
  match p, s with
  | [], _ => true
  | c :: p', d :: s' => (c =? d) && startsWith s' p'
  | _ :: _, [] => false
  end.

(** [s.endsWith(p)]. *)
Definition endsWith (s p : jsstring) : bool := startsWith (rev s) (rev p).

(** String equality, [===] on two strings. *)
Definition str_eqb (s t : jsstring) : bool := bool_decide (s = t).

(** A value converted to a string where the source passes a possibly
    [undefined] property to a string method: [undefined] becomes the text
    ["undefined"]. *)
Definition toString (o : option jsstring) : jsstring :=
  match o with Some s => s | None => str "undefined" end.

(** Truthiness of a string: the empty string is falsy. *)
Definition truthy_str (s : jsstring) : bool :=
  match s with [] => false | _ => true end.

(** The values whose [length] property the two link filters read: an array of
    strings has its length, a boolean primitive has none ([undefined]). *)
Inductive value :=
| VBool (b : bool)
| VArray (a : list jsstring).

Definition get_length (v : value) : option nat :=
  match v with
  | VArray a => Some (length a)
  | VBool _ => None
  end.

(** [v[i]] for the same values: an element, or [undefined]. *)
Definition get_index (v : value) (i : nat) : option jsstring :=
  match v with
  | VArray a => a !! i
  | VBool _ => None
  end.

(** The loop [while (i--) { if (body(i)) { found = true; break; } }], where
    [i] starts as [n]; the result is [found]. The indices visited are
    [n-1], ..., [0]. *)
Fixpoint count_down (body : nat -> bool) (n : nat) : bool :=
  match n with
  | O => false
  | S j => if body j then true else count_down body j
  end.

(** The same loop when [i] starts as the value of a [length] property. With
    [undefined], [i--] evaluates to [NaN], which is falsy: the body never
    runs. *)
Definition while_post_decrement (i : option nat) (body : nat -> bool) : bool :=
  match i with
  | Some n => count_down body n
  | None => false
  end.

(** A [Set] of strings: [has] and [add] compare by string equality, and the
    set keeps insertion order, which [Array.from] exposes. *)
Definition Set_has (s : list jsstring) (x : jsstring) : bool :=
  bool_decide (x ∈ s).

Definition Set_add (s : list jsstring) (x : jsstring) : list jsstring :=
  if Set_has s x then s else s ++ [x].

Definition Array_from (s : list jsstring) : list jsstring := s.

(** An object literal used as a table of flags: [table[key]] is the flag of
    an own key and [undefined], which is falsy, otherwise. (The keys looked
    up below end in a colon, so no inherited property is ever hit.) *)
Definition truthy_lookup (table : gmap jsstring bool) (key : jsstring) : bool :=
  match table !! key with
  | Some b => b
  | None => false
  end.

End JS.

(** ** The platform's URL object

    Both link filters assign the candidate to the [href] of one shared [URL]
    object and read its [protocol]. The [URL] class belongs to the browser,
    not to the repository. The states of the URL Standard's basic parser that
    decide the scheme are written out here; the states that follow the scheme
    (authority, host, port, path, query, fragment) are a parameter
    [rest_ok scheme remainder] of every definition that parses. *)

Module Url.

Definition is_c0_control_or_space (c : N) : bool := c <=? 32.

Definition is_tab_or_newline (c : N) : bool :=
  (c =? 9) || (c =? 10) || (c =? 13).

Definition is_ascii_upper (c : N) : bool := (65 <=? c) && (c <=? 90).
Definition is_ascii_lower (c : N) : bool := (97 <=? c) && (c <=? 122).
Definition is_ascii_alpha (c : N) : bool := is_ascii_upper c || is_ascii_lower c.
Definition is_ascii_digit (c : N) : bool := (48 <=? c) && (c <=? 57).

(** ASCII alphanumeric, [+], [-] or [.]. *)
Definition is_scheme_char (c : N) : bool :=
  is_ascii_alpha c || is_ascii_digit c || (c =? 43) || (c =? 45) || (c =? 46).

Definition ascii_lowercase (c : N) : N :=
  if is_ascii_upper c then c + 32 else c.

Fixpoint strip_leading (s : jsstring) : jsstring :=
  match s with
  | c :: r => if is_c0_control_or_space c then strip_leading r else s
  | [] => []
  end.

Fixpoint strip_trailing (s : jsstring) : jsstring :=
  match s with
  | c :: r =>
      match strip_trailing r with
      | [] => if is_c0_control_or_space c then [] else [c]
      | r' => c :: r'
      end
  | [] => []
  end.

Fixpoint remove_tab_newline (s : jsstring) : jsstring :=
  match s with
  | c :: r =>
      if is_tab_or_newline c then remove_tab_newline r
      else c :: remove_tab_newline r
  | [] => []
  end.

(** Scheme state: the buffer grows while scheme characters come; a colon ends
    the scheme; anything else, the end of input included, leads to the no
    scheme state, which fails since the parser is run without a base URL. *)
Fixpoint scheme_state (buffer input : jsstring) : option (jsstring * jsstring) :=
  match input with
  | c :: rest =>
      if is_scheme_char c then scheme_state (buffer ++ [ascii_lowercase c]) rest
      else if c =? 58 then Some (buffer, rest)
      else None
  | [] => None
  end.

(** Scheme start state. *)
Definition scheme_start_state (input : jsstring) : option (jsstring * jsstring) :=
  match input with
  | c :: rest =>
      if is_ascii_alpha c then scheme_state [ascii_lowercase c] rest else None
  | [] => None
  end.

(** The part of a [URL] object the filters read. *)
Record URL := { protocol : jsstring }.

(** [new URL('about:blank')]. *)
Definition about_blank : URL := {| protocol := JS.str "about:" |}.

(** The basic URL parser without a base: the scheme of the parsed URL, or
    failure. *)
Definition basic_parse (rest_ok : jsstring -> jsstring -> bool)
    (input : jsstring) : option jsstring :=
  match scheme_start_state
          (remove_tab_newline (strip_trailing (strip_leading input))) with
  | Some (scheme, rest) => if rest_ok scheme rest then Some scheme else None
  | None => None
  end.

(** [u.href = value]: on success the object holds the parsed URL; on failure
    a [TypeError] is thrown ([None]) and the object is unchanged. *)
Definition set_href (rest_ok : jsstring -> jsstring -> bool)
    (u : URL) (value : jsstring) : option URL :=
  match basic_parse rest_ok value with
  | Some scheme => Some {| protocol := scheme ++ JS.str ":" |}
  | None => None
  end.

(** One possible platform, used where a closed scenario needs one: after an
    [http] or [https] scheme it skips slashes and backslashes and accepts a
    non-empty host made of ASCII letters, digits, [-] and [.] that starts
    with a letter; after any other scheme it accepts. *)
Definition is_host_end (c : N) : bool :=
  (c =? 47) || (c =? 92) || (c =? 63) || (c =? 35).

Fixpoint skip_slashes (s : jsstring) : jsstring :=
  match s with
  | c :: r => if (c =? 47) || (c =? 92) then skip_slashes r else s
  | [] => []
  end.

Fixpoint take_host (s : jsstring) : jsstring :=
  match s with
  | c :: r => if is_host_end c then [] else c :: take_host r
  | [] => []
  end.

Definition plain_host (h : jsstring) : bool :=
  match h with
  | c :: _ =>
      is_ascii_alpha c
      && forallb (fun d => is_ascii_alpha d || is_ascii_digit d
                           || (d =? 45) || (d =? 46)) h
  | [] => false
  end.

Definition plain_rest_ok (scheme rest : jsstring) : bool :=
  if JS.str_eqb scheme (JS.str "http") || JS.str_eqb scheme (JS.str "https")
  then plain_host (take_host (skip_slashes rest))
  else true.

End Url.

(** ** The page as the behaviours see it *)

Module Browser.

(** Elements are references into the live document. *)
Definition Elem := nat.

(** An HTML [a[href]] or [area[href]] element, as far as the collectors read
    it: its [href] is a string. *)
Record Anchor := { href : jsstring }.

(** An element of the node list [querySelectorAll('a[href], area[href]')]
    gives. The selector also matches an SVG [a] element with an [href]
    attribute; the [href] of such an element is an [SVGAnimatedString], an
    object, which has no [trim]. *)
Inductive Linked :=
| HTMLAnchorOrArea (a : Anchor)
| SVGAnchor.

(** What a behaviour does to the page, and the passing of time: the page
    answers each with a new document state. *)
Inductive Action :=
| MouseOver (e : Elem)          (* dispatchEvent(new MouseEvent('mouseover')) *)
| Click (e : Elem)              (* elem.click() *)
| ScrollIntoView (e : Elem)     (* elem.scrollIntoView({behavior: 'smooth', ...}) *)
| Play (e : Elem)               (* video.play() *)
| Elapse (ms : nat).            (* a timer of [ms] milliseconds runs out *)

(** What an exception carries. *)
Inductive Exn :=
| TypeError
| Error (message : string).

(** *** The [class] attribute and [classList]

    The attribute is a string; [classList] reads it through the ordered set
    parser (split on ASCII whitespace, first occurrences kept) and writes it
    back as the tokens joined by single spaces. *)

Definition is_ascii_whitespace (c : N) : bool :=
  (c =? 9) || (c =? 10) || (c =? 12) || (c =? 13) || (c =? 32).

Fixpoint split_on_whitespace (token s : jsstring) : list jsstring :=
  match s with
  | c :: r =>
      if is_ascii_whitespace c
      then match token with
           | [] => split_on_whitespace [] r
           | _ => token :: split_on_whitespace [] r
           end
      else split_on_whitespace (token ++ [c]) r
  | [] => match token with [] => [] | _ => [token] end
  end.

Fixpoint keep_first (seen tokens : list jsstring) : list jsstring :=
  match tokens with
  | t :: r =>
      if bool_decide (t ∈ seen) then keep_first seen r
      else t :: keep_first (seen ++ [t]) r
  | [] => []
  end.

Definition ordered_set_parser (attr : jsstring) : list jsstring :=
  keep_first [] (split_on_whitespace [] attr).

Fixpoint serialize (tokens : list jsstring) : jsstring :=
  match tokens with
  | [] => []
  | [t] => t
  | t :: r => t ++ 32 :: serialize r
  end.

(** [classList.add(token)] on an element whose attribute is [attr]. *)
Definition classList_add (attr token : jsstring) : jsstring :=
  let tokens := ordered_set_parser attr in
  serialize (if bool_decide (token ∈ tokens) then tokens else tokens ++ [token]).

(** [classList.remove(token)]. *)
Definition classList_remove (attr token : jsstring) : jsstring :=
  serialize (List.filter (fun t => negb (JS.str_eqb t token))
               (ordered_set_parser attr)).

(** XPath [contains(s, p)]: [p] occurs in [s]. *)
Fixpoint contains (s p : jsstring) : bool :=
  JS.startsWith s p
  || match s with
     | _ :: r => contains r p
     | [] => false
     end.

End Browser.

(** ** The timeline runner: link collection *)

Module Timeline.
Import Browser.

(** [const goodSchemes = { 'http:': true, 'https:': true }]. *)
Definition goodSchemes : gmap jsstring bool :=
  {[ JS.str "http:" := true; JS.str "https:" := true ]}.

(** The runner's link state: [window.$wbOutlinkSet$] and the shared
    [outLinkURLParser]. *)
Record Links := { outlinks : list jsstring; outLinkURLParser : Url.URL }.

(** The set is created, or cleared, when the runner starts. *)
Definition initial_links : Links :=
  {| outlinks := []; outLinkURLParser := Url.about_blank |}.

(** [shouldIgnoreLink(test)]. The local [ignored] starts as [false] and the
    loop counter as [ignored.length]. *)
Definition shouldIgnoreLink (rest_ok : jsstring -> jsstring -> bool)
    (test : jsstring) (parser : Url.URL) : bool * Url.URL :=
  let ignored := JS.VBool false in
  let i := JS.get_length ignored in
  let ignored' :=
    JS.while_post_decrement i
      (fun i => JS.startsWith test (JS.toString (JS.get_index ignored i))) in
  if negb ignored' then
    match Url.set_href rest_ok parser test with
    | Some parser' =>
        (negb (true && JS.truthy_lookup goodSchemes (Url.protocol parser')),
         parser')
    | None => (negb false, parser)
    end
  else (ignored', parser).

(** One round of the loop body of [addOutLinks]. *)
Definition addOutLinks_body (rest_ok : jsstring -> jsstring -> bool)
    (a : Anchor) (st : Links) : Links :=
  let href := JS.trim (href a) in
  if JS.truthy_str href && negb (JS.Set_has (outlinks st) href) then
    let '(ignore, parser) := shouldIgnoreLink rest_ok href (outLinkURLParser st) in
    if negb ignore
    then {| outlinks := JS.Set_add (outlinks st) href; outLinkURLParser := parser |}
    else {| outlinks := outlinks st; outLinkURLParser := parser |}
  else st.

(** [addOutLinks(toAdd)]: [let i = toAdd.length; while (i--) ...] walks the
    candidates from the last to the first. *)
Definition addOutLinks (rest_ok : jsstring -> jsstring -> bool)
    (toAdd : list Anchor) (st : Links) : Links :=
  foldr (addOutLinks_body rest_ok) st toAdd.

(** [addOutLinks(toAdd)] on a node list as a query gives it. The walk is
    the same, from the last element to the first; [toAdd[i].href.trim()] is
    a [TypeError] at an element whose [href] is not a string, and the link
    state is then as the elements after it have left it. On a list of HTML
    anchors and areas this is [addOutLinks]. *)
Fixpoint addOutLinks_of_nodes (rest_ok : jsstring -> jsstring -> bool)
    (toAdd : list Linked) (st : Links) : Exn * Links + Links :=
  match toAdd with
  | [] => inr st
  | l :: toAdd =>
      match addOutLinks_of_nodes rest_ok toAdd st with
      | inl thrown => inl thrown
      | inr st =>
          match l with
          | HTMLAnchorOrArea a => inr (addOutLinks_body rest_ok a st)
          | SVGAnchor => inl (TypeError, st)
          end
      end
  end.

(** The getter of [window.$wbOutlinks$]. *)
Definition wbOutlinks (st : Links) : list jsstring := JS.Array_from (outlinks st).

(** What the link state is after the batches of candidates the runner passes
    to [addOutLinks], one after the other. *)
Definition registry_after (rest_ok : jsstring -> jsstring -> bool)
    (batches : list (list Anchor)) : Links :=
  foldl (fun st toAdd => addOutLinks rest_ok toAdd st) initial_links batches.

(** ** The timeline runner: the document *)

(** The CSS selectors the runner queries with. *)
Inductive Selector :=
| tweetFooterSelector        (* 'div.stream-item-footer' *)
| replyActionSelector        (* 'div.ProfileTweet-action--reply' *)
| noReplySpanSelector        (* 'span.ProfileTweet-actionCount--isZero' *)
| replyBtnSelector           (* 'button[data-modal="ProfileTweet-reply"]' *)
| closeFullTweetSelector     (* 'div.PermalinkProfile-dismiss > span' *)
| threadSelector             (* 'a.js-nav.show-thread-link' *)
| videoContainerSelector     (* 'div.AdaptiveMedia-videoContainer' *)
| videoSelector              (* 'video' *)
| showMoreThreadsSelector.   (* 'button.ThreadedConversation-showMoreThreadsButton' *)

(** The state of the live document, as far as the runner reads and writes it.
    [has_click e]: the element has a [click] method, as every [HTMLElement]
    has and an SVG element has not.
    [querySelector None sel] is [document.querySelector(sel)]. [stream_divs]
    are the nodes [//div[starts-with(@class,"tweet js-stream-tweet")]/div] in
    document order and [overlay_divs] those of them below
    [//div[@id="permalink-overlay"]]; the class test of the XPath is applied
    to them by [tweetXpath] below. Lengths are in CSS pixels, taken as
    integers. *)
Record Document := {
  className : Elem -> jsstring;
  has_click : Elem -> bool;
  parentElement : Elem -> option Elem;
  permalinkPath : Elem -> option jsstring;
  querySelector : option Elem -> Selector -> option Elem;
  querySelectorAll_outlinks : Elem -> list Linked;
  stream_divs : list Elem;
  overlay_divs : list Elem;
  permalink_overlay : option Elem;
  baseURI : jsstring;
  scrollY : Z;
  innerHeight : Z;
  body_scrollHeight : Z;
  body_offsetHeight : Z;
  documentElement_clientHeight : Z;
  documentElement_scrollHeight : Z;
  documentElement_offsetHeight : Z
}.

Definition set_className (d : Document) (e : Elem) (c : jsstring) : Document :=
  {| className := fun x => if Nat.eqb x e then c else className d x;
     has_click := has_click d;
     parentElement := parentElement d;
     permalinkPath := permalinkPath d;
     querySelector := querySelector d;
     querySelectorAll_outlinks := querySelectorAll_outlinks d;
     stream_divs := stream_divs d;
     overlay_divs := overlay_divs d;
     permalink_overlay := permalink_overlay d;
     baseURI := baseURI d;
     scrollY := scrollY d;
     innerHeight := innerHeight d;
     body_scrollHeight := body_scrollHeight d;
     body_offsetHeight := body_offsetHeight d;
     documentElement_clientHeight := documentElement_clientHeight d;
     documentElement_scrollHeight := documentElement_scrollHeight d;
     documentElement_offsetHeight := documentElement_offsetHeight d |}.

(** [elem.classList.add(token)] and [elem.classList.remove(token)]. *)
Definition classList_add (e : Elem) (token : jsstring) (d : Document) : Document :=
  set_className d e (Browser.classList_add (className d e) token).

Definition classList_remove (e : Elem) (token : jsstring) (d : Document) : Document :=
  set_className d e (Browser.classList_remove (className d e) token).

(** The marker of [markElemAsVisited], spelled as in the source. *)
Definition wrvistited : jsstring := JS.str "wrvistited".

(** [markElemAsVisited(elem)] with the default marker. *)
Definition markElemAsVisited (elem : option Elem) (d : Document) : Document :=
  match elem with
  | Some e => classList_add e wrvistited d
  | None => d
  end.

(** The predicate [[@class="content" and not(contains(@class, "wrvistited"))]]. *)
Definition unvisited_content (d : Document) (e : Elem) : bool :=
  JS.str_eqb (className d e) (JS.str "content")
  && negb (contains (className d e) wrvistited).

(** [xpathQuerySelector(tweetXpath)]. *)
Definition tweetXpath (d : Document) : list Elem :=
  List.filter (unvisited_content d) (stream_divs d).

(** [xpathSnapShot(overlayTweetXpath, this.fullTweetOverlay)]: the path is
    absolute, so the context node does not matter. *)
Definition overlayTweetXpath (d : Document) : list Elem :=
  List.filter (unvisited_content d) (overlay_divs d).

(** [canScrollMore()]. *)
Definition canScrollMore (d : Document) : bool :=
  (scrollY d + innerHeight d <?
   Z.max (body_scrollHeight d)
     (Z.max (body_offsetHeight d)
        (Z.max (documentElement_clientHeight d)
           (Z.max (documentElement_scrollHeight d)
              (documentElement_offsetHeight d)))))%Z.

(** The page shows the opened tweet: the location ends with [permalinkPath]
    and the element [permalink-overlay] is there. *)
Definition opened (permalinkPath : option jsstring) (d : Document) : bool :=
  JS.endsWith (baseURI d) (JS.toString permalinkPath)
  && negb (match permalink_overlay d with None => true | Some _ => false end).

(** The runner is started as [runner($x, true)]. *)
Definition debug : bool := true.

(** ** The timeline runner: the session

    What one run owns: the document it shares with the page, its link state,
    and the record of what it did to the page. *)
Record Session := {
  doc : Document;
  links : Links;
  trace : list Action
}.

Definition with_doc (s : Session) (d : Document) : Session :=
  {| doc := d; links := links s; trace := trace s |}.

Definition with_links (s : Session) (l : Links) : Session :=
  {| doc := doc s; links := l; trace := trace s |}.

Definition update_doc (f : Document -> Document) (s : Session) : Session :=
  with_doc s (f (doc s)).

(** The object a [Tweet] constructor builds. [dataset] is the live dataset
    of [container]; it is read through the document. *)
Record Tweet := {
  tweet : Elem;
  container : Elem;
  footer : Elem;
  tRplyAct : Elem;
  rplyButton : Elem;
  fullTweetOverlay : option Elem;
  _hasReplys : bool;
  _apartThread : bool;
  _baseURI : jsstring
}.

Definition set_fullTweetOverlay (this : Tweet) (o : option Elem) : Tweet :=
  {| tweet := tweet this; container := container this; footer := footer this;
     tRplyAct := tRplyAct this; rplyButton := rplyButton this;
     fullTweetOverlay := o; _hasReplys := _hasReplys this;
     _apartThread := _apartThread this; _baseURI := _baseURI this |}.

Definition is_null {A} (o : option A) : bool :=
  match o with None => true | Some _ => false end.

(** [new Tweet(aTweet, baseURI)]. The document is returned as the
    constructor leaves it; reading a property of [null] is a [TypeError]. *)
Definition new_Tweet (aTweet : Elem) (baseURI : jsstring) (d : Document)
  : Document * (Exn + Tweet) :=
  let d := markElemAsVisited (Some aTweet) d in
  match parentElement d aTweet with
  | None => (d, inl TypeError)
  | Some container =>
  match querySelector d (Some aTweet) tweetFooterSelector with
  | None => (d, inl TypeError)
  | Some footer =>
  match querySelector d (Some footer) replyActionSelector with
  | None => (d, inl TypeError)
  | Some tRplyAct =>
  match querySelector d (Some tRplyAct) replyBtnSelector with
  | None => (d, inl TypeError)
  | Some rplyButton =>
      (d, inr {| tweet := aTweet;
                 container := container;
                 footer := footer;
                 tRplyAct := tRplyAct;
                 rplyButton := rplyButton;
                 fullTweetOverlay := None;
                 _hasReplys :=
                   is_null (querySelector d (Some rplyButton) noReplySpanSelector);
                 _apartThread :=
                   negb (is_null (querySelector d (Some aTweet) threadSelector));
                 _baseURI := baseURI |})
  end end end end.

Definition hasReplys (this : Tweet) : bool := _hasReplys this.
Definition apartOfThread (this : Tweet) : bool := _apartThread this.
Definition hasRepliedOrInThread (this : Tweet) : bool :=
  hasReplys this || apartOfThread this.

(** What a resumed generator comes back with. [Pending]: the promise of
    [next()] is not settled within the ticks allowed. *)
Inductive Suspended :=
| AtStart
| AtVideoYield (aTweet : Tweet) (tweets : list Elem)
| AtRegularYield (aTweet : Tweet) (tweets : list Elem)
| AtReplyYield (aTweet : Tweet) (snapShot : list Elem) (tweets : list Elem)
| Completed.

Inductive Outcome :=
| Yield (value : bool) (g : Suspended) (s : Session)
| Return (s : Session)
| Throw (e : Exn) (s : Session)
| Pending.

(** What [$WRIteratorHandler$] resolves with. *)
Record StepResult := { done : bool; wait : bool }.

Inductive Settled :=
| Resolved (r : StepResult) (g : Suspended) (s : Session)
| Rejected (e : Exn) (g : Suspended) (s : Session)
| Unsettled.

(** What awaiting a promise comes to: its value; the exception it is
    rejected with, and the session at that moment; or nothing, within the
    timer firings allowed. *)
Inductive Awaited (A : Type) : Type :=
| Fulfilled (a : A)
| Thrown (e : Exn) (s : Session)
| NotYet.

Arguments Fulfilled {A} a.
Arguments Thrown {A} e s.
Arguments NotYet {A}.

(** The continuation [k'] settles as [k] does wherever [k] settles. *)
Definition extends (k k' : Session -> Outcome) : Prop :=
  forall s, k s <> Pending -> k' s = k s.

Section Engine.

(** The page, and the platform's URL parser after the scheme. The page
    answers each action of the runner and each timer with a new document
    state; its answer may depend on all that was done to it before, which is
    its first argument. *)
Variable react : list Action -> Action -> Document -> Document.
Variable rest_ok : jsstring -> jsstring -> bool.

Definition perform (a : Action) (s : Session) : Session :=
  {| doc := react (trace s) a (doc s); links := links s;
     trace := trace s ++ [a] |}.

(** [await delay(delayTime)]. *)
Definition delay (delayTime : nat) (s : Session) : Session :=
  perform (Elapse delayTime) s.

Definition scrollIntoView (elem : option Elem) (s : Session) : Session :=
  match elem with
  | None => s
  | Some e => perform (ScrollIntoView e) s
  end.

(** [await scrollIntoViewWithDelay(elem, delayTime)]. *)
Definition scrollIntoViewWithDelay (elem : option Elem) (delayTime : nat)
    (s : Session) : Session :=
  delay delayTime (scrollIntoView elem s).

(** [click(elem)]. The mouse-over is dispatched first; [elem.click()] is a
    [TypeError] on an element without a [click] method, and nothing is
    returned then. *)
Definition click (elem : option Elem) (s : Session)
  : Exn * Session + bool * Session :=
  match elem with
  | Some e =>
      let s := perform (MouseOver e) s in
      if has_click (doc s) e
      then inr (true, perform (Click e) s)
      else inl (TypeError, s)
  | None => inr (false, s)
  end.

(** [selectElemFromAndClick(selectFrom, selector)]. *)
Definition selectElemFromAndClick (selectFrom : option Elem) (selector : Selector)
    (s : Session) : Exn * Session + bool * Session :=
  match selectFrom with
  | None => inl (TypeError, s)
  | Some e => click (querySelector (doc s) (Some e) selector) s
  end.

(** [await waitForPredicate(predicate)]: the interval fires every 1000 ms;
    the promise resolves at the first firing at which the predicate is
    truthy. A predicate that throws leaves the interval running. [C] is what
    the predicate closes over and may assign to. [None]: not resolved within
    [fuel] firings. *)
Fixpoint waitForPredicate {C : Type}
    (predicate : C * Session -> (Exn + bool) * (C * Session))
    (fuel : nat) (x : C * Session) : option (C * Session) :=
  match fuel with
  | O => None
  | S fuel' =>
      let '(r, x') := predicate (fst x, delay 1000 (snd x)) in
      match r with
      | inr true => Some x'
      | _ => waitForPredicate predicate fuel' x'
      end
  end.

(** *** Polling, in the specification's words

    The specification says of [clickAndWaitFor] that it suspends until
    [predicate()] becomes true, polling on a fixed interval of 1000 ms. The
    definitions below say what that is, for comparison with
    [waitForPredicate]: the predicate is evaluated once at each firing of
    the timer, on what the firing before left. *)

(** What the predicate closes over, and the session, after [n] firings. *)
Fixpoint polled {C : Type}
    (predicate : C * Session -> (Exn + bool) * (C * Session))
    (n : nat) (x : C * Session) : C * Session :=
  match n with
  | O => x
  | S n =>
      snd (predicate (fst (polled predicate n x),
                      delay 1000 (snd (polled predicate n x))))
  end.

(** What the predicate answers at firing [n + 1], or throws. *)
Definition answer {C : Type}
    (predicate : C * Session -> (Exn + bool) * (C * Session))
    (n : nat) (x : C * Session) : Exn + bool :=
  fst (predicate (fst (polled predicate n x),
                  delay 1000 (snd (polled predicate n x)))).

(** The session after [n] firings of the one-second timer at which the
    runner did nothing to it. *)
Fixpoint elapsed (n : nat) (s : Session) : Session :=
  match n with
  | O => s
  | S n => delay 1000 (elapsed n s)
  end.

(** [await clickAndWaitFor(elem, predicate)]. It is an [async] function:
    what [click] throws rejects its promise. *)
Definition clickAndWaitFor {C : Type} (elem : option Elem)
    (predicate : C * Session -> (Exn + bool) * (C * Session))
    (fuel : nat) (x : C * Session) : Awaited (bool * (C * Session)) :=
  match click elem (snd x) with
  | inl (e, s) => Thrown e s
  | inr (clicked, s) =>
      if clicked then
        match waitForPredicate predicate fuel (fst x, s) with
        | Some x' => Fulfilled (clicked, x')
        | None => NotYet
        end
      else Fulfilled (clicked, (fst x, s))
  end.

(** [collectOutlinksFrom(queryFrom)]. *)
Definition collectOutlinksFrom (queryFrom : option Elem) (s : Session)
  : Exn * Session + Session :=
  match queryFrom with
  | None => inl (TypeError, s)
  | Some e =>
      match addOutLinks_of_nodes rest_ok (querySelectorAll_outlinks (doc s) e)
              (links s) with
      | inl (exn, l) => inl (exn, with_links s l)
      | inr l => inr (with_links s l)
      end
  end.

(** [hasVideo()]. *)
Definition hasVideo (this : Tweet) (s : Session) : bool * Session :=
  match querySelector (doc s) (Some (tweet this)) videoContainerSelector with
  | Some videoContainer =>
      match querySelector (doc s) (Some videoContainer) videoSelector with
      | Some video => (true, perform (Play video) s)
      | None => (true, s)
      end
  | None => (false, s)
  end.

(** The predicate [openFullTweet] waits for. *)
Definition openFullTweet_predicate (permalinkPath : option jsstring)
    (x : Tweet * Session) : (Exn + bool) * (Tweet * Session) :=
  let '(this, s) := x in
  let done := JS.endsWith (baseURI (doc s)) (JS.toString permalinkPath) in
  if done then
    let this := set_fullTweetOverlay this (permalink_overlay (doc s)) in
    if debug then
      match fullTweetOverlay this with
      | Some o =>
          (inr done,
           (this, update_doc (classList_add o (JS.str "wr-debug-visited-overlay")) s))
      | None => (inl TypeError, (this, s))
      end
    else (inr done, (this, s))
  else (inr done, (this, s)).

(** [await this.openFullTweet()]. *)
Definition openFullTweet (this : Tweet) (fuel : nat) (s : Session)
  : Awaited (bool * (Tweet * Session)) :=
  let permalinkPath := permalinkPath (doc s) (container this) in
  clickAndWaitFor (Some (container this)) (openFullTweet_predicate permalinkPath)
    fuel (this, s).

(** The predicate [closeFullTweetOverlay] waits for. *)
Definition closeFullTweetOverlay_predicate (overlay : Elem)
    (x : Tweet * Session) : (Exn + bool) * (Tweet * Session) :=
  let '(this, s) := x in
  let done := JS.str_eqb (baseURI (doc s)) (_baseURI this) in
  if done && debug
  then (inr done, (this, update_doc (classList_remove overlay (JS.str "wr-debug-click")) s))
  else (inr done, (this, s)).

(** [await this.closeFullTweetOverlay()]. *)
Definition closeFullTweetOverlay (this : Tweet) (fuel : nat) (s : Session)
  : Awaited (bool * (Tweet * Session)) :=
  match querySelector (doc s) None closeFullTweetSelector with
  | None => Fulfilled (false, (this, s))
  | Some overlay =>
      let s := if debug
               then update_doc (classList_add overlay (JS.str "wr-debug-click")) s
               else s in
      clickAndWaitFor (Some overlay) (closeFullTweetOverlay_predicate overlay)
        fuel (this, s)
  end.

(** *** The generators

    A suspended generator holds its local variables; resuming it runs the
    code up to the next [yield], [return] or [throw]. [k] is what the caller
    does once the delegated generator has returned. *)

(** One round of the inner loop of [visitThreadReplyTweets], up to its
    [yield false]. *)
Definition yield_reply (this : Tweet) (aTweet : Elem) (snapShot tweets : list Elem)
    (s : Session) : Outcome :=
  let s := update_doc (markElemAsVisited (Some aTweet)) s in
  let s := if debug
           then update_doc
                  (classList_add aTweet (JS.str "wr-debug-visited-thread-reply")) s
           else s in
  let s := scrollIntoViewWithDelay (Some aTweet) 1000 s in
  Yield false (AtReplyYield this snapShot tweets) s.

(** The end of the [do ... while] body of [visitThreadReplyTweets]: the
    snapshot is taken again, after a click on the show-more button and a
    wait when it is empty. *)
Definition snapshot_again (this : Tweet) (s : Session)
  : Exn * Session + list Elem * Session :=
  match overlayTweetXpath (doc s) with
  | [] =>
      match selectElemFromAndClick (fullTweetOverlay this)
              showMoreThreadsSelector s with
      | inl thrown => inl thrown
      | inr (clicked, s) =>
          let s := if clicked then delay 3000 s else s in
          inr (overlayTweetXpath (doc s), s)
      end
  | snapShot => inr (snapShot, s)
  end.

(** [visitThreadReplyTweets], resumed with [snapShot] holding the items of
    the current snapshot that are still to come. *)
Definition visitThreadReplyTweets_resume (k : Session -> Outcome) (this : Tweet)
    (snapShot tweets : list Elem) (s : Session) : Outcome :=
  match snapShot with
  | aTweet :: snapShot => yield_reply this aTweet snapShot tweets s
  | [] =>
      match snapshot_again this s with
      | inl (e, s) => Throw e s
      | inr (aTweet :: snapShot, s) => yield_reply this aTweet snapShot tweets s
      | inr ([], s) => k s
      end
  end.

(** [visitThreadReplyTweets], from its first statement. *)
Definition visitThreadReplyTweets (k : Session -> Outcome) (this : Tweet)
    (tweets : list Elem) (s : Session) : Outcome :=
  match collectOutlinksFrom (fullTweetOverlay this) s with
  | inl (e, s) => Throw e s
  | inr s =>
      match overlayTweetXpath (doc s) with
      | [] => k s
      | aTweet :: snapShot => yield_reply this aTweet snapShot tweets s
      end
  end.

(** [await this.closeFullTweetOverlay()], the last statement of both
    [viewRepliesOrThread] and [viewRegularTweet]. *)
Definition close_then (k : Session -> Outcome) (this : Tweet) (fuel : nat)
    (s : Session) : Outcome :=
  match closeFullTweetOverlay this fuel s with
  | Fulfilled (_, (_, s)) => k s
  | Thrown e s => Throw e s
  | NotYet => Pending
  end.

(** [viewRepliesOrThread]. *)
Definition viewRepliesOrThread (k : Session -> Outcome) (this : Tweet)
    (tweets : list Elem) (fuel : nat) (s : Session) : Outcome :=
  match openFullTweet this fuel s with
  | Fulfilled (_, (this, s)) =>
      visitThreadReplyTweets (close_then k this fuel) this tweets s
  | Thrown e s => Throw e s
  | NotYet => Pending
  end.

(** [viewRegularTweet], up to its [yield false]. *)
Definition viewRegularTweet (this : Tweet) (tweets : list Elem) (fuel : nat)
    (s : Session) : Outcome :=
  match openFullTweet this fuel s with
  | Fulfilled (_, (this, s)) => Yield false (AtRegularYield this tweets) s
  | Thrown e s => Throw e s
  | NotYet => Pending
  end.

(** The [if (aTweet.hasRepliedOrInThread())] of [timelineIterator]. *)
Definition view (k : Session -> Outcome) (aTweet : Tweet) (tweets : list Elem)
    (fuel : nat) (s : Session) : Outcome :=
  if hasRepliedOrInThread aTweet
  then viewRepliesOrThread k aTweet tweets fuel s
  else viewRegularTweet aTweet tweets fuel s.

(** The end of the outer loop body: the tweets are enumerated again, after a
    wait when there are none. *)
Definition enumerate_again (s : Session) : list Elem * Session :=
  match tweetXpath (doc s) with
  | [] => let s := delay 3000 s in (tweetXpath (doc s), s)
  | tweets => (tweets, s)
  end.

(** [tweets.length > 0 && canScrollMore()]. *)
Definition loop_condition (tweets : list Elem) (s : Session) : bool :=
  (0 <? length tweets)%nat && canScrollMore (doc s).

(** [timelineIterator] from the test of its inner [while] loop, with [tweets]
    still to visit. Each unit and each round of the outer loop takes one unit
    of fuel. *)
Fixpoint timelineIterator (baseURI : jsstring) (fuel : nat) (tweets : list Elem)
    (s : Session) : Outcome :=
  match fuel with
  | O => Pending
  | S fuel =>
      match tweets with
      | t :: tweets =>
          match new_Tweet t baseURI (doc s) with
          | (d, inl e) => Throw e (with_doc s d)
          | (d, inr aTweet) =>
              let s := with_doc s d in
              let s := if debug
                       then update_doc
                              (classList_add (tweet aTweet) (JS.str "wr-debug-visited")) s
                       else s in
              let s := scrollIntoViewWithDelay (Some (tweet aTweet)) 500 s in
              match collectOutlinksFrom (Some (tweet aTweet)) s with
              | inl (e, s) => Throw e s
              | inr s =>
                  let '(video, s) := hasVideo aTweet s in
                  if video then Yield true (AtVideoYield aTweet tweets) s
                  else view (timelineIterator baseURI fuel tweets) aTweet tweets fuel s
              end
          end
      | [] =>
          let '(tweets, s) := enumerate_again s in
          if loop_condition tweets s then timelineIterator baseURI fuel tweets s
          else Return s
      end
  end.

(** [$WRTweetIterator$.next()] on the generator created by
    [timelineIterator(maybePolyfillXPG(xpg), document.baseURI)]. *)
Definition next (baseURI : jsstring) (fuel : nat) (g : Suspended) (s : Session)
  : Outcome :=
  match g with
  | AtStart => timelineIterator baseURI fuel (tweetXpath (doc s)) s
  | AtVideoYield aTweet tweets =>
      view (timelineIterator baseURI fuel tweets) aTweet tweets fuel s
  | AtRegularYield aTweet tweets =>
      close_then (timelineIterator baseURI fuel tweets) aTweet fuel s
  | AtReplyYield aTweet snapShot tweets =>
      visitThreadReplyTweets_resume
        (close_then (timelineIterator baseURI fuel tweets) aTweet fuel) aTweet snapShot tweets s
  | Completed => Return s
  end.

(** [window.$WRIteratorHandler$()]:
    [{ done: next.done, wait: !!next.value }]. *)
Definition WRIteratorHandler (baseURI : jsstring) (fuel : nat) (g : Suspended)
    (s : Session) : Settled :=
  match next baseURI fuel g s with
  | Yield value g s => Resolved {| done := false; wait := value |} g s
  | Return s => Resolved {| done := true; wait := false |} Completed s
  | Throw e s => Rejected e Completed s
  | Pending => Unsettled
  end.

(** What a call of [next()] on a generator that has not completed can come
    back with, when it is made in the session [called]: a value is [true]
    only at the [yield true] that follows a [hasVideo()] that answered
    [true], for the unit that this very call constructed last, out of a
    session [built] the call had come to, and after it had scrolled to the
    unit and collected its links; and the generator returns only from the
    test of its outer loop. *)
Inductive expected (baseURI : jsstring) (called : Session) : Outcome -> Prop :=
| expected_pending : expected baseURI called Pending
| expected_throw e s : expected baseURI called (Throw e s)
| expected_video t aTweet tweets built d s0 s :
    trace called `prefix_of` trace built ->
    new_Tweet t baseURI (doc built) = (d, inr aTweet) ->
    collectOutlinksFrom (Some (tweet aTweet))
      (scrollIntoViewWithDelay (Some (tweet aTweet)) 500
         (update_doc (classList_add (tweet aTweet) (JS.str "wr-debug-visited"))
            (with_doc built d)))
    = inr s0 ->
    hasVideo aTweet s0 = (true, s) ->
    expected baseURI called (Yield true (AtVideoYield aTweet tweets) s)
| expected_regular aTweet tweets s :
    expected baseURI called (Yield false (AtRegularYield aTweet tweets) s)
| expected_reply aTweet snapShot tweets s :
    expected baseURI called (Yield false (AtReplyYield aTweet snapShot tweets) s)
| expected_return s :
    tweetXpath (doc s) = [] \/ canScrollMore (doc s) = false ->
    expected baseURI called (Return s).

End Engine.

End Timeline.

(** ** The grid runner: link collection *)

Module Grid.
Import Browser.

Record OutLinkCollector := {
  outlinks : list jsstring;
  ignored : list jsstring;
  good : gmap jsstring bool;
  urlParer : Url.URL
}.

(** [new OutLinkCollector()]. *)
Definition new_OutLinkCollector : OutLinkCollector :=
  {| outlinks := [];
     ignored := map JS.str
       ["about:"; "data:"; "mailto:"; "javascript:"; "js:"; "{"; "*"; "ftp:";
        "tel:"]%string;
     good := {[ JS.str "http:" := true; JS.str "https:" := true ]};
     urlParer := Url.about_blank |}.

Definition with_parser (this : OutLinkCollector) (u : Url.URL) : OutLinkCollector :=
  {| outlinks := outlinks this; ignored := ignored this; good := good this;
     urlParer := u |}.

Definition with_outlinks (this : OutLinkCollector) (l : list jsstring)
  : OutLinkCollector :=
  {| outlinks := l; ignored := ignored this; good := good this;
     urlParer := urlParer this |}.

(** [shouldIgnore(test)]. *)
Definition shouldIgnore (rest_ok : jsstring -> jsstring -> bool)
    (this : OutLinkCollector) (test : jsstring) : bool * OutLinkCollector :=
  let table := JS.VArray (ignored this) in
  let i := JS.get_length table in
  let ignored' :=
    JS.while_post_decrement i
      (fun i => JS.startsWith test (JS.toString (JS.get_index table i))) in
  if negb ignored' then
    match Url.set_href rest_ok (urlParer this) test with
    | Some parser' =>
        (negb (true && JS.truthy_lookup (good this) (Url.protocol parser')),
         with_parser this parser')
    | None => (negb false, this)
    end
  else (ignored', this).

(** The test both [addOutLinks] and [addOutlink] apply to a trimmed
    candidate, and the insertion that follows it. *)
Definition add_if_wanted (rest_ok : jsstring -> jsstring -> bool)
    (href : jsstring) (this : OutLinkCollector) : OutLinkCollector :=
  if JS.truthy_str href && negb (JS.Set_has (outlinks this) href) then
    let '(ignore, this') := shouldIgnore rest_ok this href in
    if negb ignore
    then with_outlinks this' (JS.Set_add (outlinks this') href)
    else this'
  else this.

(** [addOutLinks(outlinks)], from the last candidate to the first. *)
Definition addOutLinks (rest_ok : jsstring -> jsstring -> bool)
    (toAdd : list Anchor) (this : OutLinkCollector) : OutLinkCollector :=
  foldr (fun a => add_if_wanted rest_ok (JS.trim (href a))) this toAdd.

(** [addOutLinks(outlinks)] on a node list as a query gives it: the same
    walk; [outlinks[i].href.trim()] is a [TypeError] at an element whose
    [href] is not a string, and the collector is then as the elements after
    it have left it. On a list of HTML anchors and areas this is
    [addOutLinks]. *)
Fixpoint addOutLinks_of_nodes (rest_ok : jsstring -> jsstring -> bool)
    (toAdd : list Linked) (this : OutLinkCollector)
  : Exn * OutLinkCollector + OutLinkCollector :=
  match toAdd with
  | [] => inr this
  | l :: toAdd =>
      match addOutLinks_of_nodes rest_ok toAdd this with
      | inl thrown => inl thrown
      | inr this =>
          match l with
          | HTMLAnchorOrArea a => inr (add_if_wanted rest_ok (JS.trim (href a)) this)
          | SVGAnchor => inl (TypeError, this)
          end
      end
  end.

(** The argument of [addOutlink]: an element or a string. *)
Inductive ElemOrString :=
| AnElem (a : Anchor)
| AString (s : jsstring).

(** [addOutlink(elemOrString)]. [(elemOrString.href || elemOrString).trim()]
    takes the [href] of an element when it is non-empty and the string itself
    for a string (a string has no [href]); for an element whose [href] is
    empty it calls [trim] on the element, which has none: a [TypeError]. *)
Definition addOutlink (rest_ok : jsstring -> jsstring -> bool)
    (elemOrString : ElemOrString) (this : OutLinkCollector)
  : Exn + OutLinkCollector :=
  match elemOrString with
  | AnElem a =>
      if JS.truthy_str (href a)
      then inr (add_if_wanted rest_ok (JS.trim (href a)) this)
      else inl TypeError
  | AString s => inr (add_if_wanted rest_ok (JS.trim s) this)
  end.

(** [outLinkArray()], also [toJSON()] and [valueOf()]. *)
Definition outLinkArray (this : OutLinkCollector) : list jsstring :=
  JS.Array_from (outlinks this).

(** One use of the collector: a batch through [addOutLinks] (as [collectFrom]
    and [collectFromDoc] do), or one candidate through [addOutlink]. *)
Inductive Feed :=
| Collect (toAdd : list Anchor)
| Add (elemOrString : ElemOrString).

(** The link strings a use offers. *)
Definition candidates (f : Feed) : list jsstring :=
  match f with
  | Collect toAdd => map href toAdd
  | Add (AnElem a) => [href a]
  | Add (AString s) => [s]
  end.

(** The collector after one use; a call that throws leaves it as it was. *)
Definition feed (rest_ok : jsstring -> jsstring -> bool) (f : Feed)
    (this : OutLinkCollector) : OutLinkCollector :=
  match f with
  | Collect toAdd => addOutLinks rest_ok toAdd this
  | Add elemOrString =>
      match addOutlink rest_ok elemOrString this with
      | inr this' => this'
      | inl _ => this
      end
  end.

(** The collector after a sequence of uses, starting from a new one. *)
Definition registry_after (rest_ok : jsstring -> jsstring -> bool)
    (feeds : list Feed) : OutLinkCollector :=
  foldl (fun this f => feed rest_ok f this) new_OutLinkCollector feeds.

(** ** The grid runner: the document *)

(** A React key: a string, or [null]. *)
Abbreviation Key := (option jsstring).

(** The rendering library's record of a node, as far as the runner reads it. *)
Record Fiber := { key : Key; stateNode : Elem }.

Inductive Selector :=
| gridImage        (* 'div[data-grid-item]' *)
| gridContainer.   (* 'div.gridCentered > div > div > div' *)

(** [own_props d e] are the own enumerable properties of the node, in the
    order of [Object.keys], each with its value (taken to be a record of the
    rendering library, which is what the ones that are read hold). *)
Record Document := {
  own_props : Elem -> list (jsstring * Fiber);
  childNodes : Elem -> list Elem;
  parentElement : Elem -> option Elem;
  querySelector : Selector -> option Elem;
  querySelectorAll_outlinks : Elem -> list Linked
}.

Record Session := {
  doc : Document;
  OLC : OutLinkCollector;
  trace : list Action
}.

(** [reactProps.onDomNode]. *)
Definition onDomNode : jsstring := JS.str "__reactInternalInstance".

(** [reactInstanceFromDOMElem(elem)]. [Object.keys(null)] is a [TypeError]. *)
Definition reactInstanceFromDOMElem (d : Document) (elem : option Elem)
  : Exn + Fiber :=
  match elem with
  | None => inl TypeError
  | Some e =>
      match List.find (fun kv => JS.startsWith (fst kv) onDomNode) (own_props d e) with
      | Some (_, instance) => inr instance
      | None => inl (Error "Could not find react internal key")
      end
  end.

(** An entry of the array [reactInstancesFromElements] builds. *)
Record Rendered := { node : Elem; reactInstance : Fiber }.

(** [keySelector(key)] of [iteratePins], with the set [seenPins] it closes
    over. *)
Definition keySelector (seenPins : gset Key) (k : Key) : bool * gset Key :=
  let select := negb (bool_decide (k ∈ seenPins)) in
  (select, if select then {[ k ]} ∪ seenPins else seenPins).

(** [reactInstancesFromElements(elems, keySelector)]. *)
Fixpoint reactInstancesFromElements (d : Document) (elems : list Elem)
    (seenPins : gset Key) : Exn + list Rendered * gset Key :=
  match elems with
  | [] => inr ([], seenPins)
  | e :: elems =>
      match reactInstanceFromDOMElem d (Some e) with
      | inl exn => inl exn
      | inr instance =>
          let '(select, seenPins) := keySelector seenPins (key instance) in
          match reactInstancesFromElements d elems seenPins with
          | inl exn => inl exn
          | inr (renderedNodes, seenPins) =>
              inr (if select
                   then {| node := e; reactInstance := instance |} :: renderedNodes
                   else renderedNodes,
                   seenPins)
          end
      end
  end.

(** [getGridContainer()]. *)
Definition getGridContainer (d : Document) : Exn + option Elem :=
  match querySelector d gridImage with
  | None => inl TypeError
  | Some firstChild =>
      let container := parentElement d firstChild in
      if bool_decide (container = querySelector d gridContainer)
      then inr container
      else inl (Error "wrong container")
  end.

(** [getRenderedPins()] of [iteratePins]. *)
Definition getRenderedPins (d : Document) (pinContainerR : Fiber)
    (seenPins : gset Key) : Exn + list Rendered * gset Key :=
  reactInstancesFromElements d (childNodes d (stateNode pinContainerR)) seenPins.

(** The two [do ... while] loops of [iteratePins]. *)
Inductive Drain := FirstDrain | SecondDrain.

Inductive Suspended :=
| AtStart
| AtPinYield (phase : Drain) (pinContainerR : Fiber) (seenPins : gset Key)
    (renderedPins : list Rendered)
| Completed.

(** [Yield pin]: the generator yields [pin.node]. *)
Inductive Outcome :=
| Yield (pin : Rendered) (g : Suspended) (s : Session)
| Return (s : Session)
| Throw (e : Exn) (s : Session).

Inductive Settled :=
| Resolved (done : bool) (g : Suspended) (s : Session)
| Rejected (e : Exn) (g : Suspended) (s : Session).

Section Engine.

(** The page, as for the timeline runner, and the platform's URL parser
    after the scheme. *)
Variable react : list Action -> Action -> Document -> Document.
Variable rest_ok : jsstring -> jsstring -> bool.

Definition perform (a : Action) (s : Session) : Session :=
  {| doc := react (trace s) a (doc s); OLC := OLC s;
     trace := trace s ++ [a] |}.

Definition delay (delayTime : nat) (s : Session) : Session :=
  perform (Elapse delayTime) s.

Definition scrollIntoView (elem : option Elem) (s : Session) : Session :=
  match elem with
  | None => s
  | Some e => perform (ScrollIntoView e) s
  end.

Definition scrollIntoViewWithDelay (elem : option Elem) (delayTime : nat)
    (s : Session) : Session :=
  delay delayTime (scrollIntoView elem s).

Definition with_OLC (s : Session) (this : OutLinkCollector) : Session :=
  {| doc := doc s; OLC := this; trace := trace s |}.

(** [OLC.collectFrom(queryFrom)]. *)
Definition collectFrom (queryFrom : Elem) (s : Session) : Exn * Session + Session :=
  match addOutLinks_of_nodes rest_ok (querySelectorAll_outlinks (doc s) queryFrom)
          (OLC s) with
  | inl (exn, this) => inl (exn, with_OLC s this)
  | inr this => inr (with_OLC s this)
  end.

(** One round of the loop of [consumePins], up to its [yield pin.node]. *)
Definition yield_pin (phase : Drain) (pinContainerR : Fiber) (seenPins : gset Key)
    (pin : Rendered) (renderedPins : list Rendered) (s : Session) : Outcome :=
  match collectFrom (node pin) s with
  | inl (e, s) => Throw e s
  | inr s =>
      let s := scrollIntoViewWithDelay (Some (node pin)) 1000 s in
      Yield pin (AtPinYield phase pinContainerR seenPins renderedPins) s
  end.

(** The second loop once a pass of it is consumed:
    [currentPostRows = getRenderedPins()] and the loop test. *)
Definition second_drain_again (pinContainerR : Fiber) (seenPins : gset Key)
    (s : Session) : Outcome :=
  match getRenderedPins (doc s) pinContainerR seenPins with
  | inl e => Throw e s
  | inr (pin :: renderedPins, seenPins) =>
      yield_pin SecondDrain pinContainerR seenPins pin renderedPins s
  | inr ([], _) => Return s
  end.

(** The first loop once a pass of it is consumed. When the new pass is empty
    the loop is left, the pins are read once more, and the second loop
    starts with them. *)
Definition first_drain_again (pinContainerR : Fiber) (seenPins : gset Key)
    (s : Session) : Outcome :=
  match getRenderedPins (doc s) pinContainerR seenPins with
  | inl e => Throw e s
  | inr (pin :: renderedPins, seenPins) =>
      yield_pin FirstDrain pinContainerR seenPins pin renderedPins s
  | inr ([], seenPins) =>
      match getRenderedPins (doc s) pinContainerR seenPins with
      | inl e => Throw e s
      | inr (pin :: renderedPins, seenPins) =>
          yield_pin SecondDrain pinContainerR seenPins pin renderedPins s
      | inr ([], seenPins) => second_drain_again pinContainerR seenPins s
      end
  end.

(** [yield* consumePins(renderedPins)]; [k] is what [iteratePins] does once
    the pins are consumed. *)
Definition consumePins (k : Session -> Outcome) (phase : Drain)
    (pinContainerR : Fiber) (seenPins : gset Key) (renderedPins : list Rendered)
    (s : Session) : Outcome :=
  match renderedPins with
  | pin :: renderedPins =>
      yield_pin phase pinContainerR seenPins pin renderedPins s
  | [] => k s
  end.

(** [iteratePins] from its first statement. *)
Definition iteratePins (s : Session) : Outcome :=
  match getGridContainer (doc s) with
  | inl e => Throw e s
  | inr container =>
      match reactInstanceFromDOMElem (doc s) container with
      | inl e => Throw e s
      | inr pinContainerR =>
          match getRenderedPins (doc s) pinContainerR ∅ with
          | inl e => Throw e s
          | inr (currentPostRows, seenPins) =>
              consumePins (first_drain_again pinContainerR seenPins) FirstDrain
                pinContainerR seenPins currentPostRows s
          end
      end
  end.

(** [$WRIterator$.next()]. *)
Definition next (g : Suspended) (s : Session) : Outcome :=
  match g with
  | AtStart => iteratePins s
  | AtPinYield phase pinContainerR seenPins renderedPins =>
      consumePins
        (match phase with
         | FirstDrain => first_drain_again pinContainerR seenPins
         | SecondDrain => second_drain_again pinContainerR seenPins
         end)
        phase pinContainerR seenPins renderedPins s
  | Completed => Return s
  end.

(** [window.$WRIteratorHandler$()]: it resolves with [next.done]. *)
Definition WRIteratorHandler (g : Suspended) (s : Session) : Settled :=
  match next g s with
  | Yield _ g s => Resolved false g s
  | Return s => Resolved true Completed s
  | Throw e s => Rejected e Completed s
  end.

(** The pins yielded by the first [n] calls of the handler. *)
Fixpoint yielded (n : nat) (g : Suspended) (s : Session) : list Rendered :=
  match n with
  | O => []
  | S n =>
      match next g s with
      | Yield pin g s => pin :: yielded n g s
      | Return _ | Throw _ _ => []
      end
  end.

End Engine.

(** The node carries no rendering record: none of its own property names
    starts with [reactProps.onDomNode]. *)
Definition lacks_instance (d : Document) (e : Elem) : Prop :=
  forall kv, kv ∈ own_props d e -> JS.startsWith (fst kv) onDomNode = false.

(** The keys of a list of rendered pins. *)
Definition keys (pins : list Rendered) : list Key :=
  map (fun pin => key (reactInstance pin)) pins.

(** What holds between the keys of the pins yielded so far and a suspended
    generator: those keys and the keys of the pins still to be consumed are
    pairwise distinct and all in [seenPins]. *)
Definition consistent (yielded_keys : list Key) (g : Suspended) : Prop :=
  match g with
  | AtStart => yielded_keys = []
  | AtPinYield _ _ seenPins renderedPins =>
      NoDup (yielded_keys ++ keys renderedPins)
      /\ forall k, k ∈ yielded_keys ++ keys renderedPins -> k ∈ seenPins
  | Completed => True
  end.

End Grid.

(** ** The words of the specification

    The predicates the specification's sentences about links use, written
    from those sentences, to be compared with what the code computes. *)

Module Reference.

(** The fixed ignore-prefix list of the specification. *)
Definition ignore_prefixes : list jsstring :=
  map JS.str
    ["about:"; "data:"; "mailto:"; "javascript:"; "js:"; "{"; "*"; "ftp:";
     "tel:"]%string.

(** The string starts with an entry of the ignore-prefix list. *)
Definition has_ignore_prefix (s : jsstring) : bool :=
  existsb (JS.startsWith s) ignore_prefixes.

(** The string parses as an absolute URL whose scheme is [http] or [https]. *)
Definition parses_as_http_or_https (rest_ok : jsstring -> jsstring -> bool)
    (s : jsstring) : bool :=
  match Url.basic_parse rest_ok s with
  | Some scheme =>
      JS.str_eqb scheme (JS.str "http") || JS.str_eqb scheme (JS.str "https")
  | None => false
  end.

(** Ignore exactly when the string does not parse as an absolute URL with
    protocol [http:] or [https:]. *)
Definition ignore_unless_http (rest_ok : jsstring -> jsstring -> bool)
    (s : jsstring) : bool :=
  negb (parses_as_http_or_https rest_ok s).

(** The registry takes the string [s] for the candidate [c]: [s] is [c]
    trimmed, is not empty, starts with no ignore prefix and parses as an
    absolute [http] or [https] URL. *)
Definition accepted (rest_ok : jsstring -> jsstring -> bool)
    (c s : jsstring) : Prop :=
  s = JS.trim c /\ s <> [] /\ has_ignore_prefix s = false
  /\ parses_as_http_or_https rest_ok s = true.

(** What the specification says [collect] and [add] do with one candidate:
    it is dropped when its trimmed text is empty, is already in the registry,
    starts with an ignore prefix or does not parse as an absolute [http] or
    [https] URL, and inserted otherwise. *)
Definition collect_one (rest_ok : jsstring -> jsstring -> bool)
    (c : jsstring) (registry : list jsstring) : list jsstring :=
  let s := JS.trim c in
  if JS.truthy_str s && negb (bool_decide (s ∈ registry))
     && negb (has_ignore_prefix s) && parses_as_http_or_https rest_ok s
  then registry ++ [s]
  else registry.

End Reference.

(** A collector whose tables are the ones its constructor sets; no method
    assigns to them. *)
Definition tables_intact (this : Grid.OutLinkCollector) : Prop :=
  Grid.ignored this = Reference.ignore_prefixes
  /\ Grid.good this = Timeline.goodSchemes.

(** ** Scenario 1 of the specification *)

Module Scenario.
Import Browser.

Definition a : jsstring := JS.str "https://x.com/a".
Definition b : jsstring := JS.str "https://x.com/b".

Definition candidates : list jsstring :=
  map JS.str
    ["https://x.com/a"; "https://x.com/a"; "javascript:evil()";
     "  https://x.com/b  "]%string.

(** The candidates as link elements, for [addOutLinks]. *)
Definition anchors : list Anchor := map (fun h => {| href := h |}) candidates.

(** The candidates as strings, for one [addOutlink] call each. *)
Definition one_by_one : list Grid.Feed :=
  map (fun c => Grid.Add (Grid.AString c)) candidates.

End Scenario.

(** ** A small timeline page

    One tweet in the stream; a click on its container opens the permalink
    overlay (the location becomes the permalink) and a click on the dismiss
    control closes it. Used where a closed example is needed. *)

Module Demo.
Import Browser Timeline.

Definition container_div : Elem := 0%nat.
Definition content_div : Elem := 1%nat.
Definition footer_div : Elem := 2%nat.
Definition reply_action : Elem := 3%nat.
Definition reply_button : Elem := 4%nat.
Definition zero_span : Elem := 5%nat.
Definition dismiss_span : Elem := 6%nat.
Definition overlay_div : Elem := 7%nat.
Definition video_container : Elem := 8%nat.
Definition video_elem : Elem := 9%nat.
Definition thread_link : Elem := 10%nat.
Definition late_content_div : Elem := 11%nat.

Definition home : jsstring := JS.str "https://twitter.com/u".
Definition permalink : jsstring := JS.str "https://twitter.com/u/status/1".

(** What of the tweet is there: the zero-replies marker, the show-thread
    link, the video container, and a video in it. *)
Record Shape := {
  has_zero_span : bool;
  has_thread_link : bool;
  has_video_container : bool;
  has_video : bool
}.

Definition select (sh : Shape) (scope : option Elem) (sel : Selector) : option Elem :=
  match scope, sel with
  | None, closeFullTweetSelector => Some dismiss_span
  | Some 1%nat, tweetFooterSelector => Some footer_div
  | Some 2%nat, replyActionSelector => Some reply_action
  | Some 3%nat, replyBtnSelector => Some reply_button
  | Some 4%nat, noReplySpanSelector =>
      if has_zero_span sh then Some zero_span else None
  | Some 1%nat, threadSelector =>
      if has_thread_link sh then Some thread_link else None
  | Some 1%nat, videoContainerSelector =>
      if has_video_container sh then Some video_container else None
  | Some 8%nat, videoSelector =>
      if has_video sh then Some video_elem else None
  | _, _ => None
  end.

(** The page before the run, [height] pixels high in an 800 pixel window. *)
Definition page (sh : Shape) (height : Z) : Document :=
  {| className := fun e =>
       if Nat.eqb e content_div || Nat.eqb e late_content_div
       then JS.str "content"
       else if Nat.eqb e container_div then JS.str "tweet js-stream-tweet"
       else [];
     has_click := fun e => true;
     parentElement := fun e =>
       if Nat.eqb e content_div then Some container_div else None;
     permalinkPath := fun e =>
       if Nat.eqb e container_div then Some (JS.str "/u/status/1") else None;
     querySelector := select sh;
     querySelectorAll_outlinks := fun e =>
       if Nat.eqb e content_div
       then [ HTMLAnchorOrArea {| href := JS.str "https://x.com/a" |} ]
       else [];
     stream_divs := [content_div];
     overlay_divs := [];
     permalink_overlay := Some overlay_div;
     baseURI := home;
     scrollY := 0;
     innerHeight := 800;
     body_scrollHeight := height;
     body_offsetHeight := height;
     documentElement_clientHeight := 800;
     documentElement_scrollHeight := height;
     documentElement_offsetHeight := height |}.

Definition set_baseURI (d : Document) (u : jsstring) : Document :=
  {| className := className d;
     has_click := has_click d;
     parentElement := parentElement d;
     permalinkPath := permalinkPath d;
     querySelector := querySelector d;
     querySelectorAll_outlinks := querySelectorAll_outlinks d;
     stream_divs := stream_divs d;
     overlay_divs := overlay_divs d;
     permalink_overlay := permalink_overlay d;
     baseURI := u;
     scrollY := scrollY d;
     innerHeight := innerHeight d;
     body_scrollHeight := body_scrollHeight d;
     body_offsetHeight := body_offsetHeight d;
     documentElement_clientHeight := documentElement_clientHeight d;
     documentElement_scrollHeight := documentElement_scrollHeight d;
     documentElement_offsetHeight := documentElement_offsetHeight d |}.

(** The same document, whose stream holds the item [e] only, a child of
    [p]; the item has no footer. *)
Definition set_parent (d : Document) (e p : Elem) : Document :=
  {| className := className d;
     has_click := has_click d;
     parentElement := fun x => if Nat.eqb x e then Some p else parentElement d x;
     permalinkPath := permalinkPath d;
     querySelector := querySelector d;
     querySelectorAll_outlinks := querySelectorAll_outlinks d;
     stream_divs := [e];
     overlay_divs := overlay_divs d;
     permalink_overlay := permalink_overlay d;
     baseURI := baseURI d;
     scrollY := scrollY d;
     innerHeight := innerHeight d;
     body_scrollHeight := body_scrollHeight d;
     body_offsetHeight := body_offsetHeight d;
     documentElement_clientHeight := documentElement_clientHeight d;
     documentElement_scrollHeight := documentElement_scrollHeight d;
     documentElement_offsetHeight := documentElement_offsetHeight d |}.


Definition set_stream_divs (d : Document) (l : list Elem) : Document :=
  {| className := className d;
     has_click := has_click d;
     parentElement := parentElement d;
     permalinkPath := permalinkPath d;
     querySelector := querySelector d;
     querySelectorAll_outlinks := querySelectorAll_outlinks d;
     stream_divs := l;
     overlay_divs := overlay_divs d;
     permalink_overlay := permalink_overlay d;
     baseURI := baseURI d;
     scrollY := scrollY d;
     innerHeight := innerHeight d;
     body_scrollHeight := body_scrollHeight d;
     body_offsetHeight := body_offsetHeight d;
     documentElement_clientHeight := documentElement_clientHeight d;
     documentElement_scrollHeight := documentElement_scrollHeight d;
     documentElement_offsetHeight := documentElement_offsetHeight d |}.

(** The page's scripts: the overlay opens and closes; nothing else moves. *)
Definition react (before : list Action) (a : Action) (d : Document) : Document :=
  match a with
  | Click e =>
      if Nat.eqb e container_div then set_baseURI d permalink
      else if Nat.eqb e dismiss_span then set_baseURI d home
      else d
  | _ => d
  end.

(** The same page, which also appends one more tweet to the stream when the
    first one is scrolled into view. *)
Definition react_appending (before : list Action) (a : Action) (d : Document)
  : Document :=
  match a with
  | ScrollIntoView e =>
      if Nat.eqb e content_div
      then set_stream_divs d [content_div; late_content_div]
      else d
  | _ => react before a d
  end.

Definition start (sh : Shape) (height : Z) : Session :=
  {| doc := page sh height; links := initial_links; trace := [] |}.

(** A tweet without replies (the zero marker is there), thread or video. *)
Definition plain : Shape :=
  {| has_zero_span := true; has_thread_link := false;
     has_video_container := false; has_video := false |}.

(** A tweet with neither the zero marker nor a thread link. *)
Definition replied : Shape :=
  {| has_zero_span := false; has_thread_link := false;
     has_video_container := false; has_video := false |}.

(** A tweet without replies whose video container holds no video. *)
Definition empty_video_container : Shape :=
  {| has_zero_span := true; has_thread_link := false;
     has_video_container := true; has_video := false |}.

(** The object the constructor builds for the tweet of the page. *)
Definition tweet_object (has_replies : bool) : Tweet :=
  {| tweet := content_div; container := container_div;
     footer := footer_div; tRplyAct := reply_action;
     rplyButton := reply_button; fullTweetOverlay := None;
     _hasReplys := has_replies; _apartThread := false; _baseURI := home |}.

End Demo.

(** ** A small grid page

    A container with three rendered pins, two of which share a key; the
    second document has lost the rendering record of one node, and the
    third resolves the container to another node than the first grid item's
    parent. *)

Module GridDemo.
Import Browser Grid.

Definition container_div : Elem := 0%nat.
Definition other_div : Elem := 9%nat.

Definition fiber_of (e : Elem) : Fiber :=
  {| key := if Nat.eqb e container_div then None
            else if Nat.eqb e 3 then Some (JS.str "pin-1")
            else Some (JS.str "pin-" ++ [48 + N.of_nat e]);
     stateNode := e |}.

Definition page : Document :=
  {| own_props := fun e =>
       [(JS.str "__reactEventHandlers$k1", fiber_of e);
        (JS.str "__reactInternalInstance$k1", fiber_of e)];
     childNodes := fun e =>
       if Nat.eqb e container_div then [1; 2; 3]%nat else [];
     parentElement := fun e =>
       if Nat.eqb e container_div then None else Some container_div;
     querySelector := fun sel =>
       match sel with
       | gridImage => Some 1%nat
       | gridContainer => Some container_div
       end;
     querySelectorAll_outlinks := fun e => [] |}.

(** The node [2] has no rendering record. *)
Definition page_missing_handle : Document :=
  {| own_props := fun e => if Nat.eqb e 2 then [] else own_props page e;
     childNodes := childNodes page;
     parentElement := parentElement page;
     querySelector := querySelector page;
     querySelectorAll_outlinks := querySelectorAll_outlinks page |}.

(** The container query gives another node. *)
Definition page_wrong_container : Document :=
  {| own_props := own_props page;
     childNodes := childNodes page;
     parentElement := parentElement page;
     querySelector := fun sel =>
       match sel with
       | gridImage => Some 1%nat
       | gridContainer => Some other_div
       end;
     querySelectorAll_outlinks := querySelectorAll_outlinks page |}.

(** The same grid, in which the first pin holds four links: one the
    collector may have already, one to ignore, and one twice, once with
    spaces around it. *)
Definition page_with_links : Document :=
  {| own_props := own_props page;
     childNodes := childNodes page;
     parentElement := parentElement page;
     querySelector := querySelector page;
     querySelectorAll_outlinks := fun e =>
       if Nat.eqb e 1
       then map (fun h => HTMLAnchorOrArea {| href := JS.str h |})
              [" https://x.com/b "; "mailto:x@y"; "https://x.com/b";
               "https://x.com/a"]%string
       else [] |}.

(** The same grid, in which the first pin holds an SVG link between two
    HTML links. *)
Definition page_with_svg_link : Document :=
  {| own_props := own_props page;
     childNodes := childNodes page;
     parentElement := parentElement page;
     querySelector := querySelector page;
     querySelectorAll_outlinks := fun e =>
       if Nat.eqb e 1
       then [HTMLAnchorOrArea {| href := JS.str "https://x.com/c" |}; SVGAnchor;
             HTMLAnchorOrArea {| href := JS.str "https://x.com/b" |}]
       else [] |}.

(** The page does nothing of its own. *)
Definition react (before : list Action) (a : Action) (d : Document) : Document := d.

Definition start (d : Document) : Session :=
  {| doc := d; OLC := new_OutLinkCollector; trace := [] |}.

(** A session whose collector holds the links [l] already. *)
Definition start_holding (d : Document) (l : list jsstring) : Session :=
  {| doc := d; OLC := with_outlinks new_OutLinkCollector l; trace := [] |}.

End GridDemo.

(** ** Well-formed class tokens and kept registries *)

Module Tokens.
Import Browser.

(** A token [classList] accepts: not empty and without ASCII whitespace. *)
Definition no_whitespace (t : jsstring) : bool :=
  forallb (fun c => negb (is_ascii_whitespace c)) t.

Definition valid_token (t : jsstring) : bool :=
  JS.truthy_str t && no_whitespace t.

(** The element carries the marker of [markElemAsVisited] among the tokens
    of its class attribute. *)
Definition marked (d : Timeline.Document) (e : Elem) : Prop :=
  Timeline.wrvistited ∈ ordered_set_parser (Timeline.className d e).

End Tokens.

Module Registry.

(** What every registry of a run satisfies: no string twice, and each
    string not empty, its own trimmed form, without ignore prefix, and
    parsing as an absolute [http] or [https] URL. *)
Definition well_kept (rest_ok : jsstring -> jsstring -> bool)
    (registry : list jsstring) : Prop :=
  NoDup registry
  /\ forall s, s ∈ registry ->
       s <> [] /\ JS.trim s = s /\ Reference.has_ignore_prefix s = false
       /\ Reference.parses_as_http_or_https rest_ok s = true.

End Registry.

(** ** What a step leaves behind *)

Module Observed.

(** The property [P] holds of the session a call of the timeline's [next()]
    leaves, when it settles. *)
Definition after_timeline (P : Timeline.Session -> Prop) (o : Timeline.Outcome)
  : Prop :=
  match o with
  | Timeline.Yield _ _ s | Timeline.Return s | Timeline.Throw _ s => P s
  | Timeline.Pending => True
  end.

(** The same for the grid's [next()]. *)
Definition after_grid (P : Grid.Session -> Prop) (o : Grid.Outcome) : Prop :=
  match o with
  | Grid.Yield _ _ s | Grid.Return s | Grid.Throw _ s => P s
  end.

(** A generator suspended among the replies of an open tweet holds the
    overlay of that tweet. Every generator a run comes to is of this kind. *)
Definition overlay_held (g : Timeline.Suspended) : Prop :=
  match g with
  | Timeline.AtReplyYield aTweet _ _ => Timeline.fullTweetOverlay aTweet <> None
  | _ => True
  end.

(** The only rejection is the [TypeError] of a [Tweet] constructor that
    found no container, footer, reply action or reply button; the session is
    left as that constructor left it. *)
Definition rejects_at_construction (baseURI : jsstring) (o : Timeline.Outcome)
  : Prop :=
  match o with
  | Timeline.Throw e s' =>
      e = Browser.TypeError
      /\ exists t d,
           Timeline.new_Tweet t baseURI d = (Timeline.doc s', inl Browser.TypeError)
  | Timeline.Yield _ g' _ => overlay_held g'
  | _ => True
  end.

(** Every element of the page has a [click] method and every link found
    below an element is an HTML anchor or area. *)
Definition html_page (d : Timeline.Document) : Prop :=
  (forall e, Timeline.has_click d e = true)
  /\ (forall e, exists l,
        Timeline.querySelectorAll_outlinks d e = map Browser.HTMLAnchorOrArea l).

(** The property [P] holds of the session an awaited promise leaves, when
    it is fulfilled or rejected. *)
Definition after_awaited {C : Type} (P : Timeline.Session -> Prop)
    (a : Timeline.Awaited (bool * (C * Timeline.Session))) : Prop :=
  match a with
  | Timeline.Fulfilled (_, (_, s)) | Timeline.Thrown _ s => P s
  | Timeline.NotYet => True
  end.

(** The same for a call that returns or throws. *)
Definition after_call {A : Type} (P : Timeline.Session -> Prop)
    (r : Browser.Exn * Timeline.Session + A * Timeline.Session) : Prop :=
  match r with
  | inl (_, s) | inr (_, s) => P s
  end.

(** [k] keeps the property [P] from the session it is entered with. *)
Definition keeps (P : Timeline.Session -> Prop)
    (k : Timeline.Session -> Timeline.Outcome) : Prop :=
  forall s, P s -> after_timeline P (k s).

(** The collector's tables are intact and its registry satisfies [Q]. *)
Definition grid_kept (Q : list jsstring -> Prop) (s : Grid.Session) : Prop :=
  tables_intact (Grid.OLC s) /\ Q (Grid.outlinks (Grid.OLC s)).

End Observed.

(** ** The grid session, call after call *)

Module GridSteps.
Import Grid.

(** The generator and the session after [n] calls of the handler. *)
Fixpoint after (react : list Browser.Action -> Browser.Action -> Document -> Document)
    (rest_ok : jsstring -> jsstring -> bool) (n : nat)
    (g : Suspended) (s : Session) : Suspended * Session :=
  match n with
  | O => (g, s)
  | S n =>
      match WRIteratorHandler react rest_ok g s with
      | Resolved _ g' s' | Rejected _ g' s' => after react rest_ok n g' s'
      end
  end.

(** What the first [n] calls of the handler come to, one after the other:
    [done] for a call that resolves, the exception for one that rejects. *)
Fixpoint answers (react : list Browser.Action -> Browser.Action -> Document -> Document)
    (rest_ok : jsstring -> jsstring -> bool) (n : nat)
    (g : Suspended) (s : Session) : list (Browser.Exn + bool) :=
  match n with
  | O => []
  | S n =>
      match WRIteratorHandler react rest_ok g s with
      | Resolved done g' s' => inr done :: answers react rest_ok n g' s'
      | Rejected e g' s' => inl e :: answers react rest_ok n g' s'
      end
  end.

(** Every link below the node is an HTML anchor or area. *)
Definition html_links (d : Document) (e : Browser.Elem) : Prop :=
  exists l, querySelectorAll_outlinks d e = map Browser.HTMLAnchorOrArea l.

(** Every child of the container carries a record whose key is seen. *)
Definition covered (d : Document) (R : Fiber) (seenPins : gset Key) : Prop :=
  forall e, e ∈ childNodes d (stateNode R) ->
    exists instance,
      reactInstanceFromDOMElem d (Some e) = inr instance
      /\ key instance ∈ seenPins.

End GridSteps.


(** ** The XPath query function

    Both runners are called with the console's [$x] and pass it through
    [maybePolyfillXPG]. [evaluate] is
    [document.evaluate(xpathQuery, startElem, null,
    XPathResult.ORDERED_NODE_SNAPSHOT_TYPE, null)]. *)

Module XPath.
Import Browser.

(** A context node: the document or an element. *)
Inductive Node :=
| TheDocument
| AnElement (e : Elem).

(** An [XPathResult] of a snapshot type; [snapshotItem] answers [null]
    outside the snapshot. *)
Record XPathResult := {
  snapshotLength : nat;
  snapshotItem : nat -> option Elem
}.

(** The snapshot of the nodes [l]. *)
Definition snapshot_of (l : list Elem) : XPathResult :=
  {| snapshotLength := length l; snapshotItem := fun i => l !! i |}.

(** [if (startElem == null) startElem = document]. *)
Definition or_document (startElem : option Node) : Node :=
  match startElem with
  | Some n => n
  | None => TheDocument
  end.

(** [xpathSnapShot(xpathQuery, startElem)]. *)
Definition xpathSnapShot (evaluate : jsstring -> Node -> XPathResult)
    (xpathQuery : jsstring) (startElem : option Node) : XPathResult :=
  evaluate xpathQuery (or_document startElem).

(** [while (i < len) { elements.push(snapShot.snapshotItem(i)); i += 1; }],
    with [rounds] the rounds still to run, [len - i]. *)
Fixpoint push_items (snapShot : XPathResult) (rounds i : nat)
    (elements : list (option Elem)) : list (option Elem) :=
  match rounds with
  | O => elements
  | S rounds =>
      push_items snapShot rounds (i + 1) (elements ++ [snapshotItem snapShot i])
  end.

(** The function [maybePolyfillXPG] returns in place of the console's. *)
Definition polyfill (evaluate : jsstring -> Node -> XPathResult)
    (xpathQuery : jsstring) (startElem : option Node) : list (option Elem) :=
  let startElem := or_document startElem in
  let snapShot := evaluate xpathQuery startElem in
  let elements := [] in
  let i := 0%nat in
  let len := snapshotLength snapShot in
  push_items snapShot (len - i) i elements.

(** What a runner is given as [xpg]: a function, with its source text, or
    anything else. *)
Inductive Given :=
| AFunction (text : jsstring)
    (call : jsstring -> option Node -> list (option Elem))
| NotAFunction.

Definition command_line_api : jsstring := JS.str "[Command Line API]".

(** [maybePolyfillXPG(cliXPG)]; [s.indexOf(p) === -1] says that [p] does not
    occur in [s]. *)
Definition maybePolyfillXPG (evaluate : jsstring -> Node -> XPathResult)
    (cliXPG : Given) : jsstring -> option Node -> list (option Elem) :=
  match cliXPG with
  | AFunction text call =>
      if negb (contains text command_line_api)
      then polyfill evaluate
      else call
  | NotAFunction => polyfill evaluate
  end.

End XPath.
(* ===================================================================== *)
(** * Part II: properties                                                  *)
(* ===================================================================== *)

(** ** Strings and tables *)

Lemma startsWith_app (p t : jsstring) : JS.startsWith (p ++ t) p = true.
Proof.
  induction p as [|c p IH]; simpl; [reflexivity|].
  rewrite N.eqb_refl. exact IH.
Qed.

Lemma startsWith_inv (p s : jsstring) :
  JS.startsWith s p = true -> exists t, s = p ++ t.
Proof.
  revert s. induction p as [|c p IH]; intros s H; simpl in H.
  - exists s. reflexivity.
  - destruct s as [|d s]; [discriminate|].
    apply andb_prop in H as [Hc Hs]. apply N.eqb_eq in Hc. subst d.
    destruct (IH _ Hs) as [t ->]. exists t. reflexivity.
Qed.

(** The loop over a table of prefixes finds what [existsb] finds. *)
Lemma count_down_ext (f g : nat -> bool) (n : nat) :
  (forall i, (i < n)%nat -> f i = g i) ->
  JS.count_down f n = JS.count_down g n.
Proof.
  induction n as [|n IH]; intros H; simpl; [reflexivity|].
  rewrite (H n) by lia. rewrite IH; [reflexivity|].
  intros i Hi. apply H. lia.
Qed.

Lemma count_down_existsb (P : jsstring -> bool) (table : list jsstring) :
  JS.count_down (fun i => P (JS.toString (table !! i))) (length table)
  = existsb P table.
Proof.
  induction table as [|x table IH] using rev_ind; [reflexivity|].
  rewrite length_app, Nat.add_1_r. simpl.
  rewrite existsb_app. simpl. rewrite orb_false_r.
  rewrite lookup_app_r by lia. rewrite Nat.sub_diag. simpl.
  rewrite (count_down_ext _ (fun i => P (JS.toString (table !! i)))).
  - rewrite IH. destruct (P x), (existsb P table); reflexivity.
  - intros i Hi. rewrite lookup_app_l by lia. reflexivity.
Qed.

(** The table of good schemes holds exactly [http:] and [https:]. *)
Lemma truthy_lookup_good (p : jsstring) :
  JS.truthy_lookup Timeline.goodSchemes p
  = JS.str_eqb p (JS.str "http:") || JS.str_eqb p (JS.str "https:").
Proof.
  unfold JS.truthy_lookup, Timeline.goodSchemes, JS.str_eqb.
  rewrite lookup_insert. case_decide as H1.
  - subst p. rewrite bool_decide_eq_true_2 by reflexivity. reflexivity.
  - rewrite (bool_decide_eq_false_2 (p = _)) by congruence. simpl.
    rewrite lookup_singleton. case_decide as H2.
    + subst p. rewrite bool_decide_eq_true_2 by reflexivity. reflexivity.
    + rewrite bool_decide_eq_false_2 by congruence. reflexivity.
Qed.

Lemma protocol_is_good (scheme : jsstring) :
  JS.truthy_lookup Timeline.goodSchemes (scheme ++ JS.str ":")
  = JS.str_eqb scheme (JS.str "http") || JS.str_eqb scheme (JS.str "https").
Proof.
  rewrite truthy_lookup_good. unfold JS.str_eqb.
  f_equal; apply bool_decide_ext; split; intros H.
  - change (JS.str "http:") with (JS.str "http" ++ JS.str ":") in H.
    apply app_inv_tail in H. exact H.
  - subst. reflexivity.
  - change (JS.str "https:") with (JS.str "https" ++ JS.str ":") in H.
    apply app_inv_tail in H. exact H.
  - subst. reflexivity.
Qed.

(** ** The URL parser and the ignore prefixes *)

Lemma strip_leading_keep (c : N) (r : jsstring) :
  Url.is_c0_control_or_space c = false ->
  Url.strip_leading (c :: r) = c :: r.
Proof. intros H. simpl. rewrite H. reflexivity. Qed.

Lemma strip_trailing_keep (c : N) (r : jsstring) :
  Url.is_c0_control_or_space c = false ->
  Url.strip_trailing (c :: r) = c :: Url.strip_trailing r.
Proof.
  intros H. simpl. rewrite H. destruct (Url.strip_trailing r); reflexivity.
Qed.

Ltac reduce_literals :=
  repeat match goal with
  | |- context [JS.str ?l] =>
      let v := eval vm_compute in (JS.str l) in change (JS.str l) with v
  end.

(** A string that starts with an entry of the ignore list never parses as
    an [http] or [https] URL: seven entries are schemes of their own, and
    the other two are no scheme at all. *)
Lemma ignore_prefix_not_http (rest_ok : jsstring -> jsstring -> bool) (s : jsstring) :
  Reference.has_ignore_prefix s = true ->
  Reference.parses_as_http_or_https rest_ok s = false.
Proof.
  unfold Reference.has_ignore_prefix, Reference.ignore_prefixes.
  cbn [map existsb]. intros H.
  repeat (apply orb_prop in H as [H|H]); try discriminate H;
    destruct (startsWith_inv _ _ H) as [t ->]; clear H;
    unfold Reference.parses_as_http_or_https, Url.basic_parse;
    reduce_literals; cbn [app];
    rewrite strip_leading_keep by reflexivity;
    rewrite !strip_trailing_keep by reflexivity;
    cbn;
    try reflexivity;
    match goal with |- context [rest_ok ?a ?b] => destruct (rest_ok a b) end;
    reflexivity.
Qed.

(** ** The two link filters *)

Lemma shouldIgnoreLink_verdict (rest_ok : jsstring -> jsstring -> bool)
    (test : jsstring) (parser : Url.URL) :
  fst (Timeline.shouldIgnoreLink rest_ok test parser)
  = Reference.ignore_unless_http rest_ok test.
Proof.
  unfold Timeline.shouldIgnoreLink, Reference.ignore_unless_http,
    Reference.parses_as_http_or_https, Url.set_href.
  cbn [JS.get_length JS.while_post_decrement negb].
  destruct (Url.basic_parse rest_ok test) as [scheme|]; cbn [fst Url.protocol];
    [|reflexivity].
  rewrite protocol_is_good. reflexivity.
Qed.

Lemma shouldIgnore_tables (rest_ok : jsstring -> jsstring -> bool)
    (this : Grid.OutLinkCollector) (test : jsstring) :
  tables_intact this ->
  tables_intact (snd (Grid.shouldIgnore rest_ok this test))
  /\ Grid.outlinks (snd (Grid.shouldIgnore rest_ok this test)) = Grid.outlinks this.
Proof.
  intros Ht. unfold Grid.shouldIgnore.
  destruct (negb _); [|auto].
  destruct (Url.set_href _ _ _); auto.
Qed.

Lemma shouldIgnore_verdict (rest_ok : jsstring -> jsstring -> bool)
    (this : Grid.OutLinkCollector) (test : jsstring) :
  tables_intact this ->
  fst (Grid.shouldIgnore rest_ok this test)
  = Reference.has_ignore_prefix test || Reference.ignore_unless_http rest_ok test.
Proof.
  intros [Hi Hg]. unfold Grid.shouldIgnore.
  cbn [JS.get_length JS.while_post_decrement JS.get_index].
  rewrite (count_down_existsb (JS.startsWith test)), Hi.
  fold (Reference.has_ignore_prefix test).
  destruct (Reference.has_ignore_prefix test); [reflexivity|].
  cbn [negb orb]. unfold Reference.ignore_unless_http,
    Reference.parses_as_http_or_https, Url.set_href.
  destruct (Url.basic_parse rest_ok test) as [scheme|]; cbn [fst Url.protocol];
    [|reflexivity].
  cbn [Grid.with_parser Grid.good]. rewrite Hg, protocol_is_good. reflexivity.
Qed.

Lemma shouldIgnore_verdict_http (rest_ok : jsstring -> jsstring -> bool)
    (this : Grid.OutLinkCollector) (test : jsstring) :
  tables_intact this ->
  fst (Grid.shouldIgnore rest_ok this test)
  = Reference.ignore_unless_http rest_ok test.
Proof.
  intros Ht. rewrite shouldIgnore_verdict by exact Ht.
  destruct (Reference.has_ignore_prefix test) eqn:Hp; [|reflexivity].
  unfold Reference.ignore_unless_http.
  rewrite ignore_prefix_not_http by exact Hp. reflexivity.
Qed.

Lemma tables_intact_new (registry : list jsstring) (parser : Url.URL) :
  tables_intact
    (Grid.with_parser (Grid.with_outlinks Grid.new_OutLinkCollector registry) parser).
Proof. split; reflexivity. Qed.

(** C10. For every input string the timeline runner's [shouldIgnoreLink]
    and the grid runner's [OutLinkCollector.shouldIgnore] (on a collector
    with any registry and any parser state) give the same verdict, and both
    verdicts are the reference predicate: ignore exactly when the string does
    not parse as an absolute URL with protocol [http:] or [https:]. Only the
    grid's filter consults the ignore-prefix list: the timeline's loop over
    it runs no round, whatever its body. *)
Theorem link_filters_agree (rest_ok : jsstring -> jsstring -> bool)
    (test : jsstring) (parser parser' : Url.URL) (registry : list jsstring) :
  let this :=
    Grid.with_parser (Grid.with_outlinks Grid.new_OutLinkCollector registry) parser' in
  fst (Timeline.shouldIgnoreLink rest_ok test parser)
  = fst (Grid.shouldIgnore rest_ok this test)
  /\ fst (Timeline.shouldIgnoreLink rest_ok test parser)
     = Reference.ignore_unless_http rest_ok test
  /\ fst (Grid.shouldIgnore rest_ok this test)
     = Reference.ignore_unless_http rest_ok test
  /\ (forall body,
        JS.while_post_decrement (JS.get_length (JS.VBool false)) body = false)
  /\ JS.while_post_decrement (JS.get_length (JS.VArray (Grid.ignored this)))
       (fun i => JS.startsWith test
                   (JS.toString (JS.get_index (JS.VArray (Grid.ignored this)) i)))
     = Reference.has_ignore_prefix test.
Proof.
  intros this.
  pose proof (tables_intact_new registry parser') as Ht. fold this in Ht.
  rewrite shouldIgnoreLink_verdict, (shouldIgnore_verdict_http _ _ _ Ht).
  repeat split.
  cbn [JS.get_length JS.while_post_decrement JS.get_index].
  rewrite (count_down_existsb (JS.startsWith test)). reflexivity.
Qed.
(** ** The registry *)

Lemma truthy_str_true (s : jsstring) : JS.truthy_str s = true <-> s <> [].
Proof. destruct s; simpl; split; congruence. Qed.

Lemma collect_one_elem (rest_ok : jsstring -> jsstring -> bool)
    (c y : jsstring) (registry : list jsstring) :
  y ∈ Reference.collect_one rest_ok c registry
  <-> y ∈ registry \/ Reference.accepted rest_ok c y.
Proof.
  unfold Reference.collect_one, Reference.accepted.
  destruct (JS.truthy_str (JS.trim c)) eqn:Ht; cbn [andb].
  - apply truthy_str_true in Ht.
    case_bool_decide as Hin; cbn [negb andb].
    + split; [auto|]. intros [H|(-> & _)]; assumption.
    + destruct (Reference.has_ignore_prefix (JS.trim c)) eqn:Hp; cbn [negb andb].
      * split; [auto|]. intros [H|(-> & _ & H & _)]; [assumption|congruence].
      * destruct (Reference.parses_as_http_or_https rest_ok (JS.trim c)) eqn:Hh.
        -- rewrite elem_of_app, list_elem_of_singleton.
           split; (intros [H|H]; [left; exact H|right]).
           ++ subst y. auto.
           ++ apply H.
        -- split; [auto|]. intros [H|(-> & _ & _ & H)]; [assumption|congruence].
  - split; [auto|]. intros [H|(-> & H & _)]; [assumption|].
    destruct (JS.trim c); [congruence|discriminate].
Qed.

Lemma collect_one_NoDup (rest_ok : jsstring -> jsstring -> bool)
    (c : jsstring) (registry : list jsstring) :
  NoDup registry -> NoDup (Reference.collect_one rest_ok c registry).
Proof.
  intros Hl. unfold Reference.collect_one.
  destruct (JS.truthy_str _); cbn [andb]; [|exact Hl].
  case_bool_decide as Hin; cbn [negb andb]; [exact Hl|].
  destruct (_ && _); [|exact Hl].
  apply NoDup_app. split; [exact Hl|]. split; [|apply NoDup_singleton].
  intros y Hy Hy'. apply list_elem_of_singleton in Hy'. subst y. contradiction.
Qed.

Lemma Set_add_fresh (l : list jsstring) (x : jsstring) :
  JS.Set_has l x = false -> JS.Set_add l x = l ++ [x].
Proof. unfold JS.Set_add. intros ->. reflexivity. Qed.

(** The grid collector does with one trimmed candidate what the
    specification says. *)
Lemma add_if_wanted_spec (rest_ok : jsstring -> jsstring -> bool)
    (c : jsstring) (this : Grid.OutLinkCollector) :
  tables_intact this ->
  tables_intact (Grid.add_if_wanted rest_ok (JS.trim c) this)
  /\ Grid.outlinks (Grid.add_if_wanted rest_ok (JS.trim c) this)
     = Reference.collect_one rest_ok c (Grid.outlinks this).
Proof.
  intros Ht. unfold Grid.add_if_wanted, Reference.collect_one, JS.Set_has.
  destruct (JS.truthy_str (JS.trim c)); cbn [andb]; [|auto].
  case_bool_decide as Hin; cbn [negb andb]; [auto|].
  pose proof (shouldIgnore_verdict rest_ok this (JS.trim c) Ht) as Hv.
  destruct (shouldIgnore_tables rest_ok this (JS.trim c) Ht) as [Ht' Ho].
  destruct (Grid.shouldIgnore rest_ok this (JS.trim c)) as [ignore this'].
  cbn [fst snd] in *. subst ignore. unfold Reference.ignore_unless_http.
  rewrite negb_orb, negb_involutive.
  destruct (negb _ && _).
  - split; [exact Ht'|]. cbn [Grid.with_outlinks Grid.outlinks]. rewrite Ho.
    apply Set_add_fresh. unfold JS.Set_has. apply bool_decide_eq_false_2. exact Hin.
  - auto.
Qed.

(** So does the timeline runner, whose filter never looks at the prefixes. *)
Lemma addOutLinks_body_spec (rest_ok : jsstring -> jsstring -> bool)
    (a : Browser.Anchor) (st : Timeline.Links) :
  Timeline.outlinks (Timeline.addOutLinks_body rest_ok a st)
  = Reference.collect_one rest_ok (Browser.href a) (Timeline.outlinks st).
Proof.
  unfold Timeline.addOutLinks_body, Reference.collect_one, JS.Set_has.
  destruct (JS.truthy_str _); cbn [andb]; [|reflexivity].
  case_bool_decide as Hin; cbn [negb andb]; [reflexivity|].
  pose proof (shouldIgnoreLink_verdict rest_ok (JS.trim (Browser.href a))
                (Timeline.outLinkURLParser st)) as Hv.
  destruct (Timeline.shouldIgnoreLink _ _ _) as [ignore parser].
  cbn [fst] in Hv. subst ignore. unfold Reference.ignore_unless_http.
  rewrite negb_involutive.
  destruct (Reference.has_ignore_prefix _) eqn:Hp; cbn [negb andb].
  - rewrite (ignore_prefix_not_http _ _ Hp). reflexivity.
  - destruct (Reference.parses_as_http_or_https _ _); cbn [Timeline.outlinks];
      [|reflexivity].
    apply Set_add_fresh. unfold JS.Set_has. apply bool_decide_eq_false_2. exact Hin.
Qed.

Lemma collect_all_elem (rest_ok : jsstring -> jsstring -> bool)
    (cs : list jsstring) (y : jsstring) (registry : list jsstring) :
  y ∈ foldr (Reference.collect_one rest_ok) registry cs
  <-> y ∈ registry \/ exists c, c ∈ cs /\ Reference.accepted rest_ok c y.
Proof.
  induction cs as [|c cs IH]; cbn [foldr].
  - split; [auto|]. intros [H|(c & Hc & _)]; [exact H|]. inversion Hc.
  - rewrite collect_one_elem, IH. split.
    + intros [[H|(c' & Hc' & Ha)]|Ha]; [left; exact H|right..].
      * exists c'. split; [right; exact Hc'|exact Ha].
      * exists c. split; [left|exact Ha].
    + intros [H|(c' & Hc' & Ha)]; [left; left; exact H|].
      apply elem_of_cons in Hc' as [->|Hc']; [right; exact Ha|].
      left. right. exists c'. auto.
Qed.

Lemma collect_all_NoDup (rest_ok : jsstring -> jsstring -> bool)
    (cs : list jsstring) (registry : list jsstring) :
  NoDup registry -> NoDup (foldr (Reference.collect_one rest_ok) registry cs).
Proof.
  intros Hl. induction cs as [|c cs IH]; cbn [foldr]; [exact Hl|].
  apply collect_one_NoDup, IH.
Qed.

Lemma grid_addOutLinks_spec (rest_ok : jsstring -> jsstring -> bool)
    (toAdd : list Browser.Anchor) (this : Grid.OutLinkCollector) :
  tables_intact this ->
  tables_intact (Grid.addOutLinks rest_ok toAdd this)
  /\ Grid.outlinks (Grid.addOutLinks rest_ok toAdd this)
     = foldr (Reference.collect_one rest_ok) (Grid.outlinks this)
         (map Browser.href toAdd).
Proof.
  intros Ht. unfold Grid.addOutLinks.
  induction toAdd as [|a toAdd [IHt IHo]]; cbn [foldr map]; [auto|].
  destruct (add_if_wanted_spec rest_ok (Browser.href a) _ IHt) as [Ht' Ho'].
  split; [exact Ht'|]. rewrite Ho', IHo. reflexivity.
Qed.

Lemma timeline_addOutLinks_spec (rest_ok : jsstring -> jsstring -> bool)
    (toAdd : list Browser.Anchor) (st : Timeline.Links) :
  Timeline.outlinks (Timeline.addOutLinks rest_ok toAdd st)
  = foldr (Reference.collect_one rest_ok) (Timeline.outlinks st)
      (map Browser.href toAdd).
Proof.
  unfold Timeline.addOutLinks.
  induction toAdd as [|a toAdd IH]; cbn [foldr map]; [reflexivity|].
  rewrite addOutLinks_body_spec, IH. reflexivity.
Qed.

Lemma grid_feed_spec (rest_ok : jsstring -> jsstring -> bool)
    (f : Grid.Feed) (this : Grid.OutLinkCollector) :
  tables_intact this ->
  tables_intact (Grid.feed rest_ok f this)
  /\ Grid.outlinks (Grid.feed rest_ok f this)
     = foldr (Reference.collect_one rest_ok) (Grid.outlinks this) (Grid.candidates f).
Proof.
  intros Ht. destruct f as [toAdd|[a|s]]; cbn [Grid.feed Grid.candidates].
  - apply grid_addOutLinks_spec, Ht.
  - unfold Grid.addOutlink. destruct (Browser.href a) as [|x h] eqn:Hh.
    + cbn. auto.
    + cbn [JS.truthy_str foldr]. apply add_if_wanted_spec, Ht.
  - cbn [Grid.addOutlink foldr]. apply add_if_wanted_spec, Ht.
Qed.

Lemma grid_feeds_spec (rest_ok : jsstring -> jsstring -> bool)
    (feeds : list Grid.Feed) (this : Grid.OutLinkCollector) :
  tables_intact this ->
  (forall y,
     y ∈ Grid.outlinks (foldl (fun this f => Grid.feed rest_ok f this) this feeds)
     <-> y ∈ Grid.outlinks this
         \/ exists f c, f ∈ feeds /\ c ∈ Grid.candidates f
                        /\ Reference.accepted rest_ok c y)
  /\ (NoDup (Grid.outlinks this) ->
      NoDup (Grid.outlinks (foldl (fun this f => Grid.feed rest_ok f this) this feeds))).
Proof.
  revert this. induction feeds as [|f feeds IH]; intros this Ht; cbn [foldl].
  - split; [|auto]. intros y. split; [auto|].
    intros [H|(f & c & Hf & _)]; [exact H|]. inversion Hf.
  - destruct (grid_feed_spec rest_ok f this Ht) as [Ht' Ho].
    destruct (IH _ Ht') as [IHe IHn]. split.
    + intros y. rewrite IHe, Ho, collect_all_elem. split.
      * intros [[H|(c & Hc & Ha)]|(f' & c & Hf & Hc & Ha)]; [left; exact H|right..].
        -- exists f, c. split; [left|auto].
        -- exists f', c. split; [right; exact Hf|auto].
      * intros [H|(f' & c & Hf & Hc & Ha)]; [left; left; exact H|].
        apply elem_of_cons in Hf as [->|Hf].
        -- left. right. exists c. auto.
        -- right. exists f', c. auto.
    + intros Hn. apply IHn. rewrite Ho. apply collect_all_NoDup, Hn.
Qed.

Lemma timeline_batches_spec (rest_ok : jsstring -> jsstring -> bool)
    (batches : list (list Browser.Anchor)) (st : Timeline.Links) :
  (forall y,
     y ∈ Timeline.outlinks
           (foldl (fun st toAdd => Timeline.addOutLinks rest_ok toAdd st) st batches)
     <-> y ∈ Timeline.outlinks st
         \/ exists toAdd a, toAdd ∈ batches /\ a ∈ toAdd
                            /\ Reference.accepted rest_ok (Browser.href a) y)
  /\ (NoDup (Timeline.outlinks st) ->
      NoDup (Timeline.outlinks
               (foldl (fun st toAdd => Timeline.addOutLinks rest_ok toAdd st) st batches))).
Proof.
  revert st. induction batches as [|b batches IH]; intros st; cbn [foldl].
  - split; [|auto]. intros y. split; [auto|].
    intros [H|(b & a & Hb & _)]; [exact H|]. inversion Hb.
  - destruct (IH (Timeline.addOutLinks rest_ok b st)) as [IHe IHn]. split.
    + intros y. rewrite IHe, timeline_addOutLinks_spec, collect_all_elem. split.
      * intros [[H|(c & Hc & Ha)]|(b' & a & Hb & Hc & Ha)]; [left; exact H|right..].
        -- apply list_elem_of_fmap in Hc as (a & -> & Hc).
           exists b, a. split; [left|auto].
        -- exists b', a. split; [right; exact Hb|auto].
      * intros [H|(b' & a & Hb & Hc & Ha)]; [left; left; exact H|].
        apply elem_of_cons in Hb as [->|Hb].
        -- left. right. exists (Browser.href a). split; [|exact Ha].
           apply list_elem_of_fmap. exists a. auto.
        -- right. exists b', a. auto.
    + intros Hn. apply IHn. rewrite timeline_addOutLinks_spec.
      apply collect_all_NoDup, Hn.
Qed.

(** C1. Whatever sequence of candidates is fed to the outlink collector,
    through [addOutLinks] batches or [addOutlink] calls for the grid runner
    and through [addOutLinks] batches for the timeline runner, the registry
    that results contains a string exactly when that string is the trimmed
    text of a candidate that was fed, is not empty, starts with no entry of
    the ignore-prefix list and parses as an absolute URL whose scheme is
    [http] or [https]; a string already present is not inserted again, so
    the registry holds no string twice. *)
Theorem registry_holds_exactly_the_accepted
    (rest_ok : jsstring -> jsstring -> bool) :
  (forall (feeds : list Grid.Feed) (s : jsstring),
     s ∈ Grid.outlinks (Grid.registry_after rest_ok feeds)
     <-> exists f c, f ∈ feeds /\ c ∈ Grid.candidates f
                     /\ Reference.accepted rest_ok c s)
  /\ (forall feeds : list Grid.Feed,
        NoDup (Grid.outlinks (Grid.registry_after rest_ok feeds)))
  /\ (forall (batches : list (list Browser.Anchor)) (s : jsstring),
        s ∈ Timeline.outlinks (Timeline.registry_after rest_ok batches)
        <-> exists toAdd a, toAdd ∈ batches /\ a ∈ toAdd
                            /\ Reference.accepted rest_ok (Browser.href a) s)
  /\ (forall batches : list (list Browser.Anchor),
        NoDup (Timeline.outlinks (Timeline.registry_after rest_ok batches)))
  /\ (forall (c : jsstring) (registry : list jsstring) (parser : Url.URL),
        Grid.outlinks
          (Grid.add_if_wanted rest_ok (JS.trim c)
             (Grid.with_parser
                (Grid.with_outlinks Grid.new_OutLinkCollector registry) parser))
        = Reference.collect_one rest_ok c registry)
  /\ (forall (a : Browser.Anchor) (st : Timeline.Links),
        Timeline.outlinks (Timeline.addOutLinks_body rest_ok a st)
        = Reference.collect_one rest_ok (Browser.href a) (Timeline.outlinks st)).
Proof.
  assert (Hnew : tables_intact Grid.new_OutLinkCollector) by (split; reflexivity).
  repeat split.
  - intros H. apply (proj1 (grid_feeds_spec rest_ok feeds _ Hnew)) in H.
    destruct H as [H|H]; [inversion H|exact H].
  - intros H. apply (proj1 (grid_feeds_spec rest_ok feeds _ Hnew)). right. exact H.
  - intros feeds. apply (proj2 (grid_feeds_spec rest_ok feeds _ Hnew)). apply NoDup_nil_2.
  - intros H. apply (proj1 (timeline_batches_spec rest_ok batches _)) in H.
    destruct H as [H|H]; [inversion H|exact H].
  - intros H. apply (proj1 (timeline_batches_spec rest_ok batches _)). right. exact H.
  - intros batches. apply (proj2 (timeline_batches_spec rest_ok batches _)). apply NoDup_nil_2.
  - intros c registry parser.
    apply (add_if_wanted_spec rest_ok c _ (tables_intact_new registry parser)).
  - intros a st. apply addOutLinks_body_spec.
Qed.

(** ** Scenario 1 *)

Ltac eval_closed t :=
  let v := eval vm_compute in t in change t with v.

Lemma parses_scenario_a (rest_ok : jsstring -> jsstring -> bool) :
  Reference.parses_as_http_or_https rest_ok Scenario.a
  = rest_ok (JS.str "https") (JS.str "//x.com/a").
Proof.
  unfold Reference.parses_as_http_or_https, Url.basic_parse.
  match goal with |- context [Url.scheme_start_state ?x] =>
    eval_closed (Url.scheme_start_state x) end.
  cbv iota beta. destruct (rest_ok _ _); reflexivity.
Qed.

Lemma parses_scenario_b (rest_ok : jsstring -> jsstring -> bool) :
  Reference.parses_as_http_or_https rest_ok Scenario.b
  = rest_ok (JS.str "https") (JS.str "//x.com/b").
Proof.
  unfold Reference.parses_as_http_or_https, Url.basic_parse.
  match goal with |- context [Url.scheme_start_state ?x] =>
    eval_closed (Url.scheme_start_state x) end.
  cbv iota beta. destruct (rest_ok _ _); reflexivity.
Qed.

Lemma collect_one_accept (rest_ok : jsstring -> jsstring -> bool)
    (c s : jsstring) (registry : list jsstring) :
  JS.trim c = s -> JS.truthy_str s = true -> bool_decide (s ∈ registry) = false ->
  Reference.has_ignore_prefix s = false ->
  Reference.parses_as_http_or_https rest_ok s = true ->
  Reference.collect_one rest_ok c registry = registry ++ [s].
Proof.
  intros Hs Ht Hn Hp Hh. unfold Reference.collect_one.
  rewrite Hs, Ht, Hn, Hp, Hh. reflexivity.
Qed.

Lemma collect_one_present (rest_ok : jsstring -> jsstring -> bool)
    (c : jsstring) (registry : list jsstring) :
  bool_decide (JS.trim c ∈ registry) = true ->
  Reference.collect_one rest_ok c registry = registry.
Proof.
  intros Hn. unfold Reference.collect_one. rewrite Hn.
  rewrite andb_false_r. reflexivity.
Qed.

Lemma collect_one_prefixed (rest_ok : jsstring -> jsstring -> bool)
    (c : jsstring) (registry : list jsstring) :
  Reference.has_ignore_prefix (JS.trim c) = true ->
  Reference.collect_one rest_ok c registry = registry.
Proof.
  intros Hp. unfold Reference.collect_one. rewrite Hp.
  cbn [negb]. rewrite andb_false_r. reflexivity.
Qed.

Lemma grid_feeds_outlinks (rest_ok : jsstring -> jsstring -> bool)
    (feeds : list Grid.Feed) (this : Grid.OutLinkCollector) :
  tables_intact this ->
  Grid.outlinks (foldl (fun this f => Grid.feed rest_ok f this) this feeds)
  = foldl (fun l f => foldr (Reference.collect_one rest_ok) l (Grid.candidates f))
      (Grid.outlinks this) feeds.
Proof.
  revert this. induction feeds as [|f feeds IH]; intros this Ht; cbn [foldl];
    [reflexivity|].
  destruct (grid_feed_spec rest_ok f this Ht) as [Ht' Ho].
  rewrite (IH _ Ht'), Ho. reflexivity.
Qed.

(** C3, as amended. On a platform that parses the two [https] URLs of the
    scenario, feeding the four candidates as one batch to [addOutLinks] of
    an empty collector (the grid's or the timeline's) gives the snapshot
    [["https://x.com/b", "https://x.com/a"]]: exactly the two strings, the
    later candidate first, because the batch is walked from its last element
    to its first. Feeding them one at a time through [addOutlink] gives
    [["https://x.com/a", "https://x.com/b"]]. *)
Theorem scenario_snapshots (rest_ok : jsstring -> jsstring -> bool) :
  rest_ok (JS.str "https") (JS.str "//x.com/a") = true ->
  rest_ok (JS.str "https") (JS.str "//x.com/b") = true ->
  Grid.outLinkArray
    (Grid.addOutLinks rest_ok Scenario.anchors Grid.new_OutLinkCollector)
  = [Scenario.b; Scenario.a]
  /\ Timeline.wbOutlinks
       (Timeline.addOutLinks rest_ok Scenario.anchors Timeline.initial_links)
     = [Scenario.b; Scenario.a]
  /\ Grid.outLinkArray (Grid.registry_after rest_ok Scenario.one_by_one)
     = [Scenario.a; Scenario.b].
Proof.
  intros Ha Hb.
  assert (Hnew : tables_intact Grid.new_OutLinkCollector) by (split; reflexivity).
  assert (Hpa := parses_scenario_a rest_ok). rewrite Ha in Hpa.
  assert (Hpb := parses_scenario_b rest_ok). rewrite Hb in Hpb.
  assert (Hbatch :
    foldr (Reference.collect_one rest_ok) [] Scenario.candidates
    = [Scenario.b; Scenario.a]).
  { unfold Scenario.candidates. cbn [map foldr].
    rewrite (collect_one_accept rest_ok _ Scenario.b []);
      [|reflexivity..|exact Hpb].
    cbn [app].
    rewrite (collect_one_prefixed rest_ok (JS.str "javascript:evil()"))
      by reflexivity.
    rewrite (collect_one_accept rest_ok _ Scenario.a [Scenario.b]);
      [|reflexivity..|exact Hpa].
    rewrite collect_one_present by reflexivity. reflexivity. }
  assert (Hmap : map Browser.href Scenario.anchors = Scenario.candidates)
    by reflexivity.
  split; [|split].
  - unfold Grid.outLinkArray, JS.Array_from.
    rewrite (proj2 (grid_addOutLinks_spec rest_ok _ _ Hnew)), Hmap. exact Hbatch.
  - unfold Timeline.wbOutlinks, JS.Array_from.
    rewrite timeline_addOutLinks_spec, Hmap. exact Hbatch.
  - unfold Grid.outLinkArray, JS.Array_from, Grid.registry_after.
    rewrite (grid_feeds_outlinks rest_ok _ _ Hnew).
    unfold Scenario.one_by_one, Scenario.candidates.
    cbn [map foldl foldr Grid.candidates Grid.outlinks Grid.new_OutLinkCollector].
    rewrite (collect_one_accept rest_ok _ Scenario.a []);
      [|reflexivity..|exact Hpa].
    cbn [app].
    rewrite (collect_one_present rest_ok (JS.str "https://x.com/a") [Scenario.a])
      by reflexivity.
    rewrite (collect_one_prefixed rest_ok (JS.str "javascript:evil()"))
      by reflexivity.
    rewrite (collect_one_accept rest_ok _ Scenario.b [Scenario.a]);
      [|reflexivity..|exact Hpb].
    reflexivity.
Qed.

(** The scenario on the platform [Url.plain_rest_ok]. *)
Lemma scenario_snapshots_witness :
  Url.plain_rest_ok (JS.str "https") (JS.str "//x.com/a") = true
  /\ Url.plain_rest_ok (JS.str "https") (JS.str "//x.com/b") = true
  /\ Grid.outLinkArray
       (Grid.addOutLinks Url.plain_rest_ok Scenario.anchors Grid.new_OutLinkCollector)
     = [Scenario.b; Scenario.a]
  /\ Timeline.wbOutlinks
       (Timeline.addOutLinks Url.plain_rest_ok Scenario.anchors
          Timeline.initial_links)
     = [Scenario.b; Scenario.a]
  /\ Grid.outLinkArray (Grid.registry_after Url.plain_rest_ok Scenario.one_by_one)
     = [Scenario.a; Scenario.b].
Proof.
  split; [vm_compute; reflexivity|]. split; [vm_compute; reflexivity|].
  apply (scenario_snapshots Url.plain_rest_ok); vm_compute; reflexivity.
Defined.

(** C3 as stated fails: the batch of the scenario, collected by an empty
    collector, gives a snapshot in the other order. *)
Lemma scenario_batch_is_reversed :
  Grid.outLinkArray
    (Grid.addOutLinks Url.plain_rest_ok Scenario.anchors Grid.new_OutLinkCollector)
  <> [Scenario.a; Scenario.b]
  /\ Timeline.wbOutlinks
       (Timeline.addOutLinks Url.plain_rest_ok Scenario.anchors
          Timeline.initial_links)
     <> [Scenario.a; Scenario.b].
Proof. split; vm_compute; discriminate. Qed.

(** ** Interaction primitives *)

Section Interaction.
Import Browser Timeline.
Variable react : list Action -> Action -> Document -> Document.

(** More firings allowed never change a wait that has resolved. *)
Lemma waitForPredicate_more_fuel {C : Type}
    (predicate : C * Session -> (Exn + bool) * (C * Session))
    (fuel fuel' : nat) (x y : C * Session) :
  waitForPredicate react predicate fuel x = Some y -> (fuel <= fuel')%nat ->
  waitForPredicate react predicate fuel' x = Some y.
Proof.
  revert fuel' x. induction fuel as [|fuel IH]; intros fuel' x H Hle;
    [discriminate|].
  destruct fuel' as [|fuel']; [lia|]. cbn [waitForPredicate] in *.
  destruct (predicate _) as [[e|[|]] x']; try exact H; apply IH; (exact H || lia).
Qed.

(** One more firing at the end is one more firing at the start. *)
Lemma polled_shift {C : Type}
    (predicate : C * Session -> (Exn + bool) * (C * Session))
    (n : nat) (x : C * Session) :
  polled react predicate (S n) x
  = polled react predicate n (polled react predicate 1 x).
Proof.
  induction n as [|n IH]; [reflexivity|].
  change (polled react predicate (S (S n)) x)
    with (snd (predicate (fst (polled react predicate (S n) x),
                          delay react 1000 (snd (polled react predicate (S n) x))))).
  rewrite IH. reflexivity.
Qed.

Lemma answer_shift {C : Type}
    (predicate : C * Session -> (Exn + bool) * (C * Session))
    (n : nat) (x : C * Session) :
  answer react predicate (S n) x
  = answer react predicate n (polled react predicate 1 x).
Proof. unfold answer. rewrite polled_shift. reflexivity. Qed.

(** [waitForPredicate] polls: it resolves at the first firing of the timer
    at which the predicate answers [true], with what that evaluation left,
    and at no other. *)
Lemma waitForPredicate_polls {C : Type}
    (predicate : C * Session -> (Exn + bool) * (C * Session))
    (fuel : nat) (x y : C * Session) :
  waitForPredicate react predicate fuel x = Some y
  <-> exists n,
        (n < fuel)%nat
        /\ (forall i, (i < n)%nat -> answer react predicate i x <> inr true)
        /\ answer react predicate n x = inr true
        /\ y = polled react predicate (S n) x.
Proof.
  revert x. induction fuel as [|fuel IH]; intros x.
  - split; [discriminate|]. intros (n & Hn & _). lia.
  - cbn [waitForPredicate].
    assert (H0 : answer react predicate 0 x
                 = fst (predicate (fst x, delay react 1000 (snd x))))
      by reflexivity.
    assert (H1 : polled react predicate 1 x
                 = snd (predicate (fst x, delay react 1000 (snd x))))
      by reflexivity.
    destruct (predicate (fst x, delay react 1000 (snd x))) as [r x'].
    cbn [fst snd] in H0, H1.
    assert (Hlater : r <> inr true ->
              waitForPredicate react predicate fuel x' = Some y
              <-> exists n,
                    (n < S fuel)%nat
                    /\ (forall i, (i < n)%nat ->
                          answer react predicate i x <> inr true)
                    /\ answer react predicate n x = inr true
                    /\ y = polled react predicate (S n) x).
    { intros Hr. rewrite IH. split.
      - intros (n & Hn & Hbefore & Hat & ->). exists (S n).
        split; [lia|]. split; [|split].
        + intros [|i] Hi; [congruence|].
          rewrite answer_shift, H1. apply Hbefore. lia.
        + rewrite answer_shift, H1. exact Hat.
        + rewrite (polled_shift _ (S n)), H1. reflexivity.
      - intros (n & Hn & Hbefore & Hat & ->). destruct n as [|n]; [congruence|].
        exists n. split; [lia|]. split; [|split].
        + intros i Hi. specialize (Hbefore (S i)).
          rewrite answer_shift, H1 in Hbefore. apply Hbefore. lia.
        + rewrite answer_shift, H1 in Hat. exact Hat.
        + rewrite (polled_shift _ (S n)), H1. reflexivity. }
    destruct r as [e|[|]]; [apply Hlater; discriminate| |apply Hlater; discriminate].
    split.
    + intros H. injection H as <-. exists 0%nat.
      split; [lia|]. split; [intros i Hi; lia|]. split; [exact H0|].
      symmetry. exact H1.
    + intros (n & Hn & Hbefore & Hat & ->). destruct n as [|n].
      * rewrite H1. reflexivity.
      * exfalso. apply (Hbefore 0%nat); [lia|exact H0].
Qed.


End Interaction.

(** ** The overlay, firing by firing *)

Section OverlayPolling.
Import Browser Timeline.
Variable react : list Action -> Action -> Document -> Document.

(** While the page does not show the opened tweet, an evaluation of the
    predicate of [openFullTweet] does not answer [true] and leaves the
    session as it is; it may set the tweet's overlay to [null]. *)
Lemma openFullTweet_predicate_closed permalinkPath (t : Tweet) (s : Session) :
  opened permalinkPath (doc s) = false ->
  fst (openFullTweet_predicate permalinkPath (t, s)) <> inr true
  /\ snd (snd (openFullTweet_predicate permalinkPath (t, s))) = s
  /\ forall o,
       set_fullTweetOverlay (fst (snd (openFullTweet_predicate permalinkPath (t, s)))) o
       = set_fullTweetOverlay t o.
Proof.
  unfold opened, openFullTweet_predicate. intros H.
  destruct (JS.endsWith _ _); cbn [andb] in H.
  - destruct (permalink_overlay (doc s)); [discriminate H|].
    cbn. repeat split. discriminate.
  - cbn. repeat split. discriminate.
Qed.

Lemma openFullTweet_predicate_opened permalinkPath (t : Tweet) (s : Session) :
  opened permalinkPath (doc s) = true ->
  exists o,
    permalink_overlay (doc s) = Some o
    /\ openFullTweet_predicate permalinkPath (t, s)
       = (inr true,
          (set_fullTweetOverlay t (Some o),
           update_doc (classList_add o (JS.str "wr-debug-visited-overlay")) s)).
Proof.
  unfold opened, openFullTweet_predicate. intros H.
  destruct (JS.endsWith _ _); [|discriminate H].
  destruct (permalink_overlay (doc s)) as [o|] eqn:Ho; [|discriminate H].
  exists o. split; [reflexivity|]. reflexivity.
Qed.

Lemma openFullTweet_polled permalinkPath (this : Tweet) (s : Session) (n : nat) :
  (forall i, (i < n)%nat ->
     opened permalinkPath (doc (elapsed react (S i) s)) = false) ->
  (exists t,
     polled react (openFullTweet_predicate permalinkPath) n (this, s)
     = (t, elapsed react n s)
     /\ forall o, set_fullTweetOverlay t o = set_fullTweetOverlay this o)
  /\ forall i, (i < n)%nat ->
       answer react (openFullTweet_predicate permalinkPath) i (this, s) <> inr true.
Proof.
  induction n as [|n IH]; intros H.
  - split; [|intros i Hi; lia]. exists this. split; reflexivity.
  - destruct IH as [(t & Hp & Ht) Ha]; [intros i Hi; apply H; lia|].
    destruct (openFullTweet_predicate_closed permalinkPath t
                (elapsed react (S n) s) (H n ltac:(lia))) as (Hans & Hs & Hov).
    split.
    + eexists. split.
      * cbn [polled]. rewrite Hp. cbn [fst snd].
        change (delay react 1000 (elapsed react n s)) with (elapsed react (S n) s).
        apply injective_projections; [reflexivity|exact Hs].
      * intros o. cbn [fst]. rewrite Hov. apply Ht.
    + intros i Hi. assert (Hc : (i < n)%nat \/ i = n) by lia.
      destruct Hc as [Hc| ->]; [apply Ha, Hc|].
      unfold answer. rewrite Hp. exact Hans.
Qed.

(** [openFullTweet], by what the page shows at the firings of the timer
    that follow the click on the container. *)
Lemma openFullTweet_by_firings (this : Tweet) (fuel : nat) (s : Session) :
  let hovered := perform react (MouseOver (container this)) s in
  let clicked := perform react (Click (container this)) hovered in
  let permalinkPath := permalinkPath (doc s) (container this) in
  (has_click (doc hovered) (container this) = false ->
   openFullTweet react this fuel s = Thrown TypeError hovered)
  /\ (has_click (doc hovered) (container this) = true ->
      (forall n,
         (n < fuel)%nat ->
         (forall i, (i < n)%nat ->
            opened permalinkPath (doc (elapsed react (S i) clicked)) = false) ->
         opened permalinkPath (doc (elapsed react (S n) clicked)) = true ->
         exists o,
           permalink_overlay (doc (elapsed react (S n) clicked)) = Some o
           /\ openFullTweet react this fuel s
              = Fulfilled
                  (true,
                   (set_fullTweetOverlay this (Some o),
                    update_doc (classList_add o (JS.str "wr-debug-visited-overlay"))
                      (elapsed react (S n) clicked))))
      /\ ((forall i, (i < fuel)%nat ->
             opened permalinkPath (doc (elapsed react (S i) clicked)) = false) ->
          openFullTweet react this fuel s = NotYet)).
Proof.
  intros hovered clicked p.
  assert (Hclick : click react (Some (container this)) s
                   = if has_click (doc hovered) (container this)
                     then inr (true, clicked)
                     else inl (TypeError, hovered)) by reflexivity.
  unfold openFullTweet, clickAndWaitFor. cbn [fst snd]. rewrite Hclick.
  fold p. split; intros Hc; rewrite Hc; [reflexivity|]. split.
  - intros n Hn Hbefore Hat.
    destruct (openFullTweet_polled p this clicked n Hbefore) as [(t & Hp & Ht) Ha].
    destruct (openFullTweet_predicate_opened p t _ Hat) as (o & Ho & Hpred).
    exists o. split; [exact Ho|].
    assert (Hw : waitForPredicate react (openFullTweet_predicate p) fuel (this, clicked)
                 = Some (set_fullTweetOverlay this (Some o),
                         update_doc (classList_add o (JS.str "wr-debug-visited-overlay"))
                           (elapsed react (S n) clicked))).
    { apply waitForPredicate_polls. exists n. split; [exact Hn|].
      split; [exact Ha|]. split.
      - unfold answer. rewrite Hp. cbn [fst snd].
        change (delay react 1000 (elapsed react n clicked))
          with (elapsed react (S n) clicked).
        rewrite Hpred. reflexivity.
      - cbn [polled]. rewrite Hp. cbn [fst snd].
        change (delay react 1000 (elapsed react n clicked))
          with (elapsed react (S n) clicked).
        rewrite Hpred. cbn [snd]. rewrite Ht. reflexivity. }
    rewrite Hw. reflexivity.
  - intros Hnever.
    destruct (waitForPredicate react (openFullTweet_predicate p) fuel (this, clicked))
      as [y|] eqn:Hw; [|reflexivity].
    apply waitForPredicate_polls in Hw as (n & Hn & _ & Hat & _).
    destruct (openFullTweet_polled p this clicked (S n)) as [_ Ha];
      [intros i Hi; apply Hnever; lia|].
    exfalso. apply (Ha n); [lia|exact Hat].
Qed.

(** While the location is not the one the tweet was constructed with, an
    evaluation of the predicate of [closeFullTweetOverlay] changes
    nothing. *)
Lemma closeFullTweetOverlay_polled overlay (this : Tweet) (s : Session) (n : nat) :
  (forall i, (i < n)%nat ->
     baseURI (doc (elapsed react (S i) s)) <> _baseURI this) ->
  polled react (closeFullTweetOverlay_predicate overlay) n (this, s)
  = (this, elapsed react n s)
  /\ forall i, (i < n)%nat ->
       answer react (closeFullTweetOverlay_predicate overlay) i (this, s)
       <> inr true.
Proof.
  induction n as [|n IH]; intros H.
  - split; [reflexivity|intros i Hi; lia].
  - destruct IH as [Hp Ha]; [intros i Hi; apply H; lia|].
    assert (Hpred : closeFullTweetOverlay_predicate overlay
                      (this, elapsed react (S n) s)
                    = (inr false, (this, elapsed react (S n) s))).
    { unfold closeFullTweetOverlay_predicate, JS.str_eqb.
      rewrite bool_decide_eq_false_2 by (apply H; lia). reflexivity. }
    split.
    + cbn [polled]. rewrite Hp. cbn [fst snd].
      change (delay react 1000 (elapsed react n s)) with (elapsed react (S n) s).
      rewrite Hpred. reflexivity.
    + intros i Hi. assert (Hc : (i < n)%nat \/ i = n) by lia.
      destruct Hc as [Hc| ->]; [apply Ha, Hc|].
      unfold answer. rewrite Hp. cbn [fst snd].
      change (delay react 1000 (elapsed react n s)) with (elapsed react (S n) s).
      rewrite Hpred. discriminate.
Qed.

(** [closeFullTweetOverlay], by what the page shows at the firings of the
    timer that follow the click on the dismiss control. *)
Lemma closeFullTweetOverlay_by_firings (this : Tweet) (fuel : nat) (s : Session) :
  match querySelector (doc s) None closeFullTweetSelector with
  | None => closeFullTweetOverlay react this fuel s = Fulfilled (false, (this, s))
  | Some overlay =>
      let marked := update_doc (classList_add overlay (JS.str "wr-debug-click")) s in
      let hovered := perform react (MouseOver overlay) marked in
      let clicked := perform react (Click overlay) hovered in
      (has_click (doc hovered) overlay = false ->
       closeFullTweetOverlay react this fuel s = Thrown TypeError hovered)
      /\ (has_click (doc hovered) overlay = true ->
          (forall m,
             (m < fuel)%nat ->
             (forall i, (i < m)%nat ->
                baseURI (doc (elapsed react (S i) clicked)) <> _baseURI this) ->
             baseURI (doc (elapsed react (S m) clicked)) = _baseURI this ->
             closeFullTweetOverlay react this fuel s
             = Fulfilled
                 (true,
                  (this,
                   update_doc (classList_remove overlay (JS.str "wr-debug-click"))
                     (elapsed react (S m) clicked))))
          /\ ((forall i, (i < fuel)%nat ->
                 baseURI (doc (elapsed react (S i) clicked)) <> _baseURI this) ->
              closeFullTweetOverlay react this fuel s = NotYet))
  end.
Proof.
  unfold closeFullTweetOverlay.
  destruct (querySelector (doc s) None closeFullTweetSelector) as [overlay|];
    [|reflexivity].
  cbv zeta. cbn [debug].
  set (marked := update_doc (classList_add overlay (JS.str "wr-debug-click")) s).
  set (hovered := perform react (MouseOver overlay) marked).
  set (clicked := perform react (Click overlay) hovered).
  assert (Hclick : click react (Some overlay) marked
                   = if has_click (doc hovered) overlay
                     then inr (true, clicked)
                     else inl (TypeError, hovered)) by reflexivity.
  unfold clickAndWaitFor. cbn [fst snd]. rewrite Hclick.
  split; intros Hc; rewrite Hc; [reflexivity|]. split.
  - intros m Hm Hbefore Hat.
    destruct (closeFullTweetOverlay_polled overlay this clicked m Hbefore)
      as [Hp Ha].
    assert (Hpred : closeFullTweetOverlay_predicate overlay
                      (this, elapsed react (S m) clicked)
                    = (inr true,
                       (this,
                        update_doc (classList_remove overlay (JS.str "wr-debug-click"))
                          (elapsed react (S m) clicked)))).
    { unfold closeFullTweetOverlay_predicate, JS.str_eqb.
      rewrite bool_decide_eq_true_2 by exact Hat. reflexivity. }
    assert (Hw : waitForPredicate react (closeFullTweetOverlay_predicate overlay)
                   fuel (this, clicked)
                 = Some (this,
                         update_doc (classList_remove overlay (JS.str "wr-debug-click"))
                           (elapsed react (S m) clicked))).
    { apply waitForPredicate_polls. exists m. split; [exact Hm|].
      split; [exact Ha|]. split.
      - unfold answer. rewrite Hp. cbn [fst snd].
        change (delay react 1000 (elapsed react m clicked))
          with (elapsed react (S m) clicked).
        rewrite Hpred. reflexivity.
      - cbn [polled]. rewrite Hp. cbn [fst snd].
        change (delay react 1000 (elapsed react m clicked))
          with (elapsed react (S m) clicked).
        rewrite Hpred. reflexivity. }
    rewrite Hw. reflexivity.
  - intros Hnever.
    destruct (waitForPredicate react (closeFullTweetOverlay_predicate overlay)
                fuel (this, clicked)) as [y|] eqn:Hw; [|reflexivity].
    apply waitForPredicate_polls in Hw as (n & Hn & _ & Hat & _).
    destruct (closeFullTweetOverlay_polled overlay this clicked (S n)) as [_ Ha];
      [intros i Hi; apply Hnever; lia|].
    exfalso. apply (Ha n); [lia|exact Hat].
Qed.

End OverlayPolling.

(** ** Marking an element visited *)

Lemma contains_prefix (p r : jsstring) : Browser.contains (p ++ r) p = true.
Proof.
  destruct p as [|c p]; [destruct r; reflexivity|].
  cbn [Browser.contains app]. change (c :: p ++ r) with ((c :: p) ++ r).
  rewrite startsWith_app. reflexivity.
Qed.

Lemma contains_app_r (x s p : jsstring) :
  Browser.contains s p = true -> Browser.contains (x ++ s) p = true.
Proof.
  intros H. induction x as [|c x IH]; [exact H|].
  cbn [Browser.contains app]. rewrite IH. apply orb_true_r.
Qed.

Lemma serialize_cons (t : jsstring) (r : list jsstring) :
  Browser.serialize (t :: r)
  = t ++ match r with [] => [] | _ => 32 :: Browser.serialize r end.
Proof. destruct r; cbn [Browser.serialize]; [rewrite app_nil_r|]; reflexivity. Qed.

Lemma serialize_contains (tokens : list jsstring) (t : jsstring) :
  t ∈ tokens -> Browser.contains (Browser.serialize tokens) t = true.
Proof.
  induction tokens as [|t' tokens IH]; intros H; [inversion H|].
  rewrite serialize_cons. apply elem_of_cons in H as [->|H].
  - apply contains_prefix.
  - apply contains_app_r. destruct tokens as [|t'' tokens]; [inversion H|].
    change (32 :: Browser.serialize (t'' :: tokens))
      with ([32] ++ Browser.serialize (t'' :: tokens)).
    apply contains_app_r, IH, H.
Qed.

Lemma classList_add_contains (attr token : jsstring) :
  Browser.contains (Browser.classList_add attr token) token = true.
Proof.
  unfold Browser.classList_add. apply serialize_contains.
  case_bool_decide as H; [exact H|].
  apply elem_of_app. right. apply list_elem_of_singleton. reflexivity.
Qed.

(** Once marked, an element fails the class test of the tweet XPath. *)
Lemma marked_is_not_unvisited (d : Timeline.Document) (e : Browser.Elem) :
  Timeline.unvisited_content (Timeline.markElemAsVisited (Some e) d) e = false.
Proof.
  unfold Timeline.unvisited_content, Timeline.markElemAsVisited,
    Timeline.classList_add, Timeline.set_className.
  cbn [Timeline.className]. rewrite Nat.eqb_refl.
  rewrite classList_add_contains. apply andb_false_r.
Qed.

Lemma marked_not_enumerated (d : Timeline.Document) (e : Browser.Elem) :
  e ∉ Timeline.tweetXpath (Timeline.markElemAsVisited (Some e) d).
Proof.
  unfold Timeline.tweetXpath. intros H.
  apply list_elem_of_In, filter_In in H as [_ H].
  rewrite marked_is_not_unvisited in H. discriminate.
Qed.

(** X1. Idempotent exclusion: an element just marked visited is returned by
    neither enumeration query, the timeline's or the overlay's, and marking
    [null] changes nothing. *)
Theorem visited_elements_are_not_enumerated (d : Timeline.Document)
    (e : Browser.Elem) :
  (e ∉ Timeline.tweetXpath (Timeline.markElemAsVisited (Some e) d))
  /\ (e ∉ Timeline.overlayTweetXpath (Timeline.markElemAsVisited (Some e) d))
  /\ Timeline.markElemAsVisited None d = d.
Proof.
  split; [apply marked_not_enumerated|]. split; [|reflexivity].
  unfold Timeline.overlayTweetXpath. intros H.
  apply list_elem_of_In, filter_In in H as [_ H].
  rewrite marked_is_not_unvisited in H. discriminate.
Qed.

Section Construction.
Import Browser Timeline.

(** What a successful construction fixes. *)
Lemma new_Tweet_inversion (aTweet : Elem) (baseURI : jsstring)
    (d d' : Document) (this : Tweet) :
  new_Tweet aTweet baseURI d = (d', inr this) ->
  d' = markElemAsVisited (Some aTweet) d
  /\ tweet this = aTweet
  /\ querySelector d' (Some aTweet) tweetFooterSelector = Some (footer this)
  /\ querySelector d' (Some (footer this)) replyActionSelector = Some (tRplyAct this)
  /\ querySelector d' (Some (tRplyAct this)) replyBtnSelector = Some (rplyButton this)
  /\ hasReplys this
     = is_null (querySelector d' (Some (rplyButton this)) noReplySpanSelector)
  /\ apartOfThread this
     = negb (is_null (querySelector d' (Some aTweet) threadSelector))
  /\ fullTweetOverlay this = None.
Proof.
  unfold new_Tweet. intros H.
  destruct (parentElement _ aTweet) as [c|]; [|discriminate].
  destruct (querySelector _ (Some aTweet) tweetFooterSelector) as [f|] eqn:Hf;
    [|discriminate].
  destruct (querySelector _ (Some f) replyActionSelector) as [r|] eqn:Hr;
    [|discriminate].
  destruct (querySelector _ (Some r) replyBtnSelector) as [b|] eqn:Hb;
    [|discriminate].
  injection H as <- <-. cbn. repeat split; assumption.
Qed.

(** The constructor leaves the document as [markElemAsVisited] gives it,
    whether it succeeds or throws. *)
Lemma new_Tweet_document (aTweet : Elem) (baseURI : jsstring) (d : Document) :
  fst (new_Tweet aTweet baseURI d) = markElemAsVisited (Some aTweet) d.
Proof.
  unfold new_Tweet.
  repeat match goal with
         | |- context [match ?o with Some _ => _ | None => _ end] => destruct o
         end; reflexivity.
Qed.

(** C7. Constructing a [Tweet] marks its element visited within the
    constructor itself (the document the constructor leaves is the one
    [markElemAsVisited] gives, also when the constructor then throws): the
    class attribute holds the marker and the enumeration query no longer
    returns the element. When the constructor succeeds, [hasReplys()] is true
    exactly when the reply button, found through the footer and the reply
    action, holds no zero-count marker span, [apartOfThread()] is true
    exactly when the tweet holds a show-thread link, and
    [hasRepliedOrInThread()] is their disjunction. *)
Theorem tweet_construction (aTweet : Elem) (baseURI : jsstring)
    (d d' : Document) (this : Tweet) :
  new_Tweet aTweet baseURI d = (d', inr this) ->
  d' = markElemAsVisited (Some aTweet) d
  /\ contains (className d' aTweet) wrvistited = true
  /\ (aTweet ∉ tweetXpath d')
  /\ tweet this = aTweet
  /\ querySelector d' (Some aTweet) tweetFooterSelector = Some (footer this)
  /\ querySelector d' (Some (footer this)) replyActionSelector = Some (tRplyAct this)
  /\ querySelector d' (Some (tRplyAct this)) replyBtnSelector = Some (rplyButton this)
  /\ hasReplys this
     = is_null (querySelector d' (Some (rplyButton this)) noReplySpanSelector)
  /\ apartOfThread this
     = negb (is_null (querySelector d' (Some aTweet) threadSelector))
  /\ hasRepliedOrInThread this = hasReplys this || apartOfThread this
  /\ fullTweetOverlay this = None
  /\ forall baseURI' d0,
       fst (new_Tweet aTweet baseURI' d0) = markElemAsVisited (Some aTweet) d0.
Proof.
  intros H.
  destruct (new_Tweet_inversion _ _ _ _ _ H)
    as (-> & Ht & Hf & Hr & Hb & Hreplys & Hthread & Ho).
  repeat split; try assumption; try reflexivity.
  - unfold markElemAsVisited, classList_add, set_className. cbn [className].
    rewrite Nat.eqb_refl. apply classList_add_contains.
  - apply marked_not_enumerated.
  - intros baseURI' d0. apply new_Tweet_document.
Qed.

(** The construction of the demo page's tweet. *)
Lemma tweet_construction_witness :
  new_Tweet Demo.content_div Demo.home (Demo.page Demo.plain 2000)
  = (markElemAsVisited (Some Demo.content_div) (Demo.page Demo.plain 2000),
     inr (Demo.tweet_object false))
  /\ contains
       (className (markElemAsVisited (Some Demo.content_div) (Demo.page Demo.plain 2000))
          Demo.content_div) wrvistited = true.
Proof.
  split; [reflexivity|].
  eapply (tweet_construction Demo.content_div Demo.home (Demo.page Demo.plain 2000)).
  reflexivity.
Defined.

End Construction.

(** ** What every step of the timeline runner keeps *)

(** The walk over a node list is [addOutLinks] on the HTML anchors and areas
    it gets through, whether it throws or not. *)
Lemma addOutLinks_of_nodes_batch (rest_ok : jsstring -> jsstring -> bool)
    (toAdd : list Browser.Linked) (st : Timeline.Links) :
  exists l,
    match Timeline.addOutLinks_of_nodes rest_ok toAdd st with
    | inl (e, st') => e = Browser.TypeError /\ st' = Timeline.addOutLinks rest_ok l st
    | inr st' => st' = Timeline.addOutLinks rest_ok l st
    end.
Proof.
  induction toAdd as [|n toAdd [l IH]]; [exists []; reflexivity|].
  cbn [Timeline.addOutLinks_of_nodes].
  destruct (Timeline.addOutLinks_of_nodes rest_ok toAdd st) as [[e st']|st'].
  - exists l. exact IH.
  - subst st'. destruct n as [a|].
    + exists (a :: l). reflexivity.
    + exists l. split; reflexivity.
Qed.

Lemma addOutLinks_of_nodes_html (rest_ok : jsstring -> jsstring -> bool)
    (l : list Browser.Anchor) (st : Timeline.Links) :
  Timeline.addOutLinks_of_nodes rest_ok (map Browser.HTMLAnchorOrArea l) st
  = inr (Timeline.addOutLinks rest_ok l st).
Proof.
  induction l as [|a l IH]; [reflexivity|].
  cbn [map Timeline.addOutLinks_of_nodes]. rewrite IH. reflexivity.
Qed.

Lemma addOutLinks_keeps (rest_ok : jsstring -> jsstring -> bool)
    (Q : list jsstring -> Prop) (toAdd : list Browser.Anchor) (st : Timeline.Links) :
  (forall c registry, Q registry -> Q (Reference.collect_one rest_ok c registry)) ->
  Q (Timeline.outlinks st) ->
  Q (Timeline.outlinks (Timeline.addOutLinks rest_ok toAdd st)).
Proof.
  intros Q_collect H. rewrite timeline_addOutLinks_spec.
  induction (map Browser.href toAdd) as [|c cs IH]; [exact H|].
  cbn [foldr]. apply Q_collect, IH.
Qed.

(** [P] is any property of sessions that is kept by what the runner does to
    a session: an action on the page or a timer, a class added to or removed
    from an element (never the marker removed), links collected. Then every
    step of the runner keeps [P], also when it throws. *)

Section SessionInvariant.
Import Browser Timeline.
Variable react : list Action -> Action -> Document -> Document.
Variable rest_ok : jsstring -> jsstring -> bool.
Variable P : Session -> Prop.

Hypothesis P_perform : forall a s, P s -> P (perform react a s).
Hypothesis P_class_added :
  forall e t s,
    Tokens.valid_token t = true -> P s -> P (update_doc (classList_add e t) s).
Hypothesis P_class_removed :
  forall e t s, t <> wrvistited -> P s -> P (update_doc (classList_remove e t) s).
Hypothesis P_collected :
  forall toAdd s, P s -> P (with_links s (addOutLinks rest_ok toAdd (links s))).

Lemma scrollIntoViewWithDelay_keeps elem delayTime s :
  P s -> P (scrollIntoViewWithDelay react elem delayTime s).
Proof.
  intros H. unfold scrollIntoViewWithDelay, delay, scrollIntoView.
  apply P_perform. destruct elem; [apply P_perform|]; exact H.
Qed.

Lemma click_keeps elem s : P s -> Observed.after_call P (click react elem s).
Proof.
  intros H. destruct elem as [e|]; cbn [click]; [|exact H].
  destruct (has_click _ e); cbn; [apply P_perform|]; apply P_perform, H.
Qed.

Lemma markElemAsVisited_keeps elem s :
  P s -> P (update_doc (markElemAsVisited elem) s).
Proof.
  intros H. destruct elem as [e|].
  - apply (P_class_added e wrvistited); [reflexivity|exact H].
  - destruct s. exact H.
Qed.

Lemma collectOutlinksFrom_keeps queryFrom s :
  P s ->
  match collectOutlinksFrom rest_ok queryFrom s with
  | inl (_, s') | inr s' => P s'
  end.
Proof.
  intros H. destruct queryFrom as [e|]; [|exact H]. cbn [collectOutlinksFrom].
  destruct (addOutLinks_of_nodes_batch rest_ok
              (querySelectorAll_outlinks (doc s) e) (links s)) as [l Hl].
  destruct (addOutLinks_of_nodes rest_ok _ _) as [[exn st]|st];
    [destruct Hl as [_ ->]|subst st]; apply P_collected, H.
Qed.

Lemma waitForPredicate_keeps {C : Type}
    (predicate : C * Session -> (Exn + bool) * (C * Session)) fuel x y :
  (forall x, P (snd x) -> P (snd (snd (predicate x)))) ->
  P (snd x) ->
  waitForPredicate react predicate fuel x = Some y -> P (snd y).
Proof.
  intros Hp. revert x. induction fuel as [|fuel IH]; intros x Hx H;
    [discriminate|].
  cbn [waitForPredicate] in H.
  pose proof (Hp (fst x, delay react 1000 (snd x)) (P_perform _ _ Hx)) as H1.
  destruct (predicate _) as [[e|[|]] x']; cbn [snd] in H1.
  - apply (IH _ H1 H).
  - injection H as <-. exact H1.
  - apply (IH _ H1 H).
Qed.

Lemma clickAndWaitFor_keeps {C : Type} elem
    (predicate : C * Session -> (Exn + bool) * (C * Session)) fuel x :
  (forall x, P (snd x) -> P (snd (snd (predicate x)))) ->
  P (snd x) ->
  Observed.after_awaited P (clickAndWaitFor react elem predicate fuel x).
Proof.
  intros Hp Hx. unfold clickAndWaitFor.
  pose proof (click_keeps elem (snd x) Hx) as Hc.
  destruct (click react elem (snd x)) as [[e s1]|[[|] s1]]; cbn in Hc.
  - exact Hc.
  - destruct (waitForPredicate _ _ _ _) as [[c' s']|] eqn:Hw; [|exact I].
    apply (waitForPredicate_keeps _ _ _ _ Hp) in Hw; [exact Hw|exact Hc].
  - destruct x. exact Hc.
Qed.

Lemma openFullTweet_keeps this fuel s :
  P s -> Observed.after_awaited P (openFullTweet react this fuel s).
Proof.
  intros Hs. apply clickAndWaitFor_keeps; [|exact Hs].
  intros [t s0] H0. cbn [snd] in H0. unfold openFullTweet_predicate.
  destruct (JS.endsWith _ _); [|exact H0].
  cbn. destruct (permalink_overlay (doc s0)); cbn [snd]; [|exact H0].
  apply P_class_added; [reflexivity|exact H0].
Qed.

Lemma closeFullTweetOverlay_keeps this fuel s :
  P s -> Observed.after_awaited P (closeFullTweetOverlay react this fuel s).
Proof.
  unfold closeFullTweetOverlay. intros Hs.
  destruct (querySelector (doc s) None closeFullTweetSelector) as [o|];
    [|exact Hs].
  apply clickAndWaitFor_keeps.
  - intros [t s0] H0. cbn [snd] in H0. unfold closeFullTweetOverlay_predicate.
    destruct (_ && _); cbn [snd]; [|exact H0].
    apply P_class_removed; [|exact H0].
    intros Heq. vm_compute in Heq. discriminate Heq.
  - cbn. apply P_class_added; [reflexivity|exact Hs].
Qed.

Lemma yield_reply_keeps this aTweet snapShot tweets s :
  P s -> Observed.after_timeline P (yield_reply react this aTweet snapShot tweets s).
Proof.
  intros H. unfold yield_reply, Observed.after_timeline. cbn [debug].
  apply scrollIntoViewWithDelay_keeps.
  apply P_class_added; [reflexivity|].
  apply (markElemAsVisited_keeps (Some aTweet)), H.
Qed.

Lemma snapshot_again_keeps this s :
  P s ->
  match snapshot_again react this s with
  | inl (_, s') | inr (_, s') => P s'
  end.
Proof.
  intros H. unfold snapshot_again.
  destruct (overlayTweetXpath (doc s)); [|exact H].
  destruct (fullTweetOverlay this) as [o|]; cbn [selectElemFromAndClick];
    [|exact H].
  pose proof (click_keeps (querySelector (doc s) (Some o) showMoreThreadsSelector)
                s H) as Hc.
  destruct (click react _ s) as [[e s1]|[[|] s1]]; cbn in Hc |- *;
    [exact Hc| |exact Hc].
  apply P_perform, Hc.
Qed.

Lemma close_then_keeps k this fuel :
  Observed.keeps P k -> Observed.keeps P (close_then react k this fuel).
Proof.
  intros Hk s H. unfold close_then.
  pose proof (closeFullTweetOverlay_keeps this fuel s H) as Hc.
  destruct (closeFullTweetOverlay react this fuel s) as [[b [t s']]|e s'|];
    [apply Hk, Hc|exact Hc|exact I].
Qed.

Lemma visitThreadReplyTweets_resume_keeps k this snapShot tweets :
  Observed.keeps P k ->
  Observed.keeps P (visitThreadReplyTweets_resume react k this snapShot tweets).
Proof.
  intros Hk s H. unfold visitThreadReplyTweets_resume.
  destruct snapShot as [|a l]; [|apply yield_reply_keeps, H].
  pose proof (snapshot_again_keeps this s H) as Hl.
  destruct (snapshot_again react this s) as [[e s']|[[|a l] s']].
  - exact Hl.
  - apply Hk, Hl.
  - apply yield_reply_keeps, Hl.
Qed.

Lemma visitThreadReplyTweets_keeps k this tweets :
  Observed.keeps P k ->
  Observed.keeps P (visitThreadReplyTweets react rest_ok k this tweets).
Proof.
  intros Hk s H. unfold visitThreadReplyTweets.
  pose proof (collectOutlinksFrom_keeps (fullTweetOverlay this) s H) as Hc.
  destruct (collectOutlinksFrom rest_ok _ s) as [[e s']|s']; [exact Hc|].
  destruct (overlayTweetXpath (doc s')); [apply Hk, Hc|apply yield_reply_keeps, Hc].
Qed.

Lemma view_keeps k aTweet tweets fuel :
  Observed.keeps P k -> Observed.keeps P (view react rest_ok k aTweet tweets fuel).
Proof.
  intros Hk s H. unfold view, viewRepliesOrThread, viewRegularTweet.
  pose proof (openFullTweet_keeps aTweet fuel s H) as Ho.
  destruct (hasRepliedOrInThread aTweet);
    destruct (openFullTweet react aTweet fuel s) as [[b [t s']]|e s'|];
    try exact I; try exact Ho.
  apply visitThreadReplyTweets_keeps; [|exact Ho].
  apply close_then_keeps, Hk.
Qed.

Lemma hasVideo_keeps this s : P s -> P (snd (hasVideo react this s)).
Proof.
  intros H. unfold hasVideo.
  destruct (querySelector (doc s) (Some (tweet this)) videoContainerSelector)
    as [vc|]; [|exact H].
  destruct (querySelector (doc s) (Some vc) videoSelector); [|exact H].
  apply P_perform, H.
Qed.

(** The session in which the links of a unit just constructed are
    collected. *)
Lemma prepared_keeps t baseURI s :
  P s ->
  P (scrollIntoViewWithDelay react (Some t) 500
       (update_doc (classList_add t (JS.str "wr-debug-visited"))
          (with_doc s (fst (new_Tweet t baseURI (doc s)))))).
Proof.
  intros H. apply scrollIntoViewWithDelay_keeps, P_class_added; [reflexivity|].
  rewrite new_Tweet_document. apply (markElemAsVisited_keeps (Some t)), H.
Qed.

Lemma timelineIterator_keeps baseURI fuel tweets :
  Observed.keeps P (timelineIterator react rest_ok baseURI fuel tweets).
Proof.
  revert tweets. induction fuel as [|fuel IH]; intros tweets s H; [exact I|].
  cbn [timelineIterator]. destruct tweets as [|t tweets].
  - unfold enumerate_again.
    destruct (tweetXpath (doc s)) as [|t l].
    + pose proof (P_perform (Elapse 3000) s H) as H'.
      destruct (loop_condition _ _); [apply IH|]; exact H'.
    + destruct (loop_condition _ _); [apply IH|]; exact H.
  - pose proof (markElemAsVisited_keeps (Some t) s H) as Hm.
    pose proof (new_Tweet_document t baseURI (doc s)) as Hd.
    pose proof (prepared_keeps t baseURI s H) as H0.
    destruct (new_Tweet t baseURI (doc s)) as [d [e|aTweet]] eqn:Hn;
      cbn [fst] in Hd, H0; [subst d; exact Hm|].
    apply new_Tweet_inversion in Hn as (_ & Ht & _).
    cbv zeta. cbn [debug]. rewrite Ht.
    match goal with |- context [collectOutlinksFrom rest_ok ?q ?s0] =>
      pose proof (collectOutlinksFrom_keeps q s0 H0) as Hc;
      destruct (collectOutlinksFrom rest_ok q s0) as [[e s1]|s1]; [exact Hc|]
    end.
    pose proof (hasVideo_keeps aTweet s1 Hc) as Hv.
    destruct (hasVideo react aTweet s1) as [[|] s2]; cbn [snd] in Hv.
    + exact Hv.
    + apply view_keeps; [apply IH|exact Hv].
Qed.

Lemma next_keeps baseURI fuel g :
  Observed.keeps P (next react rest_ok baseURI fuel g).
Proof.
  intros s H. destruct g; cbn [next].
  - apply timelineIterator_keeps, H.
  - apply view_keeps; [apply timelineIterator_keeps|exact H].
  - apply close_then_keeps; [apply timelineIterator_keeps|exact H].
  - apply visitThreadReplyTweets_resume_keeps; [|exact H].
    apply close_then_keeps, timelineIterator_keeps.
  - exact H.
Qed.

End SessionInvariant.

(** ** The timeline generator *)

(** The record of what was done to the page only grows. *)
Ltac trace_grows :=
  first
    [ assumption
    | intros ? ? ?; cbn; etransitivity;
        [eassumption|apply prefix_app_r; reflexivity]
    | intros; cbn; assumption ].

Section TimelineRun.
Import Browser Timeline.
Variable react : list Action -> Action -> Document -> Document.
Variable rest_ok : jsstring -> jsstring -> bool.

Lemma yield_reply_expected baseURI called this aTweet snapShot tweets s :
  expected react rest_ok baseURI called
    (yield_reply react this aTweet snapShot tweets s).
Proof. apply expected_reply. Qed.

Lemma visitThreadReplyTweets_resume_expected baseURI called k this snapShot
    tweets s :
  trace called `prefix_of` trace s ->
  (forall s1, trace called `prefix_of` trace s1 ->
     expected react rest_ok baseURI called (k s1)) ->
  expected react rest_ok baseURI called
    (visitThreadReplyTweets_resume react k this snapShot tweets s).
Proof.
  intros Hs Hk. unfold visitThreadReplyTweets_resume.
  destruct snapShot as [|a snapShot]; [|apply yield_reply_expected].
  assert (Hl : match snapshot_again react this s with
               | inl (_, s') | inr (_, s') => trace called `prefix_of` trace s'
               end) by (apply snapshot_again_keeps; trace_grows).
  destruct (snapshot_again react this s) as [[e s']|[[|a snapShot] s']].
  - apply expected_throw.
  - apply Hk, Hl.
  - apply yield_reply_expected.
Qed.

Lemma visitThreadReplyTweets_expected baseURI called k this tweets s :
  trace called `prefix_of` trace s ->
  (forall s1, trace called `prefix_of` trace s1 ->
     expected react rest_ok baseURI called (k s1)) ->
  expected react rest_ok baseURI called
    (visitThreadReplyTweets react rest_ok k this tweets s).
Proof.
  intros Hs Hk. unfold visitThreadReplyTweets.
  assert (Hc : match collectOutlinksFrom rest_ok (fullTweetOverlay this) s with
               | inl (_, s') | inr s' => trace called `prefix_of` trace s'
               end) by (apply collectOutlinksFrom_keeps; trace_grows).
  destruct (collectOutlinksFrom rest_ok _ s) as [[e s']|s'];
    [apply expected_throw|].
  destruct (overlayTweetXpath (doc s')) as [|a snapShot];
    [apply Hk, Hc|apply yield_reply_expected].
Qed.

Lemma close_then_expected baseURI called k this fuel s :
  trace called `prefix_of` trace s ->
  (forall s1, trace called `prefix_of` trace s1 ->
     expected react rest_ok baseURI called (k s1)) ->
  expected react rest_ok baseURI called (close_then react k this fuel s).
Proof.
  intros Hs Hk. unfold close_then.
  assert (Hc : Observed.after_awaited (fun s' => trace called `prefix_of` trace s')
                 (closeFullTweetOverlay react this fuel s))
    by (apply closeFullTweetOverlay_keeps; trace_grows).
  destruct (closeFullTweetOverlay react this fuel s) as [[b [this' s']]|e s'|];
    [apply Hk, Hc|apply expected_throw|apply expected_pending].
Qed.

Lemma view_expected baseURI called k aTweet tweets fuel s :
  trace called `prefix_of` trace s ->
  (forall s1, trace called `prefix_of` trace s1 ->
     expected react rest_ok baseURI called (k s1)) ->
  expected react rest_ok baseURI called (view react rest_ok k aTweet tweets fuel s).
Proof.
  intros Hs Hk. unfold view, viewRepliesOrThread, viewRegularTweet.
  assert (Ho : Observed.after_awaited (fun s' => trace called `prefix_of` trace s')
                 (openFullTweet react aTweet fuel s))
    by (apply openFullTweet_keeps; trace_grows).
  destruct (hasRepliedOrInThread aTweet);
    destruct (openFullTweet react aTweet fuel s) as [[b [this' s']]|e s'|];
    try apply expected_pending; try apply expected_throw.
  - apply visitThreadReplyTweets_expected; [exact Ho|]. intros s0 H0.
    apply close_then_expected; [exact H0|exact Hk].
  - apply expected_regular.
Qed.

Lemma enumerate_again_fst (s : Session) :
  fst (enumerate_again react s) = tweetXpath (doc (snd (enumerate_again react s))).
Proof.
  unfold enumerate_again.
  destruct (tweetXpath (doc s)) eqn:H; cbn [fst snd]; [reflexivity|].
  symmetry. exact H.
Qed.

Lemma loop_condition_spec (tweets : list Elem) (s : Session) :
  loop_condition tweets s
  = negb (bool_decide (tweets = [])) && canScrollMore (doc s).
Proof. destruct tweets; reflexivity. Qed.

(** One unit of the session loop: the tweet is constructed, marked, scrolled
    to, its links are collected, and [hasVideo()] decides between the
    [yield true] and the visit. *)
Lemma timelineIterator_unit baseURI fuel t tweets s :
  timelineIterator react rest_ok baseURI (S fuel) (t :: tweets) s
  = match new_Tweet t baseURI (doc s) with
    | (d, inl e) => Throw e (with_doc s d)
    | (d, inr aTweet) =>
        match collectOutlinksFrom rest_ok (Some (tweet aTweet))
                (scrollIntoViewWithDelay react (Some (tweet aTweet)) 500
                   (update_doc
                      (classList_add (tweet aTweet) (JS.str "wr-debug-visited"))
                      (with_doc s d))) with
        | inl (e, s1) => Throw e s1
        | inr s1 =>
            if negb (is_null (querySelector (doc s1) (Some (tweet aTweet))
                                videoContainerSelector))
            then Yield true (AtVideoYield aTweet tweets)
                   (snd (hasVideo react aTweet s1))
            else view react rest_ok (timelineIterator react rest_ok baseURI fuel tweets)
                   aTweet tweets fuel s1
        end
    end.
Proof.
  cbn [timelineIterator].
  destruct (new_Tweet t baseURI (doc s)) as [d [e|aTweet]]; [reflexivity|].
  cbv zeta. cbn [debug].
  destruct (collectOutlinksFrom rest_ok _ _) as [[e s1]|s1]; [reflexivity|].
  unfold hasVideo.
  destruct (querySelector (doc s1) (Some (tweet aTweet)) videoContainerSelector)
    as [vc|]; cbn [is_null negb]; [|reflexivity].
  destruct (querySelector (doc s1) (Some vc) videoSelector); reflexivity.
Qed.

Lemma timelineIterator_expected baseURI called fuel tweets s :
  trace called `prefix_of` trace s ->
  expected react rest_ok baseURI called
    (timelineIterator react rest_ok baseURI fuel tweets s).
Proof.
  revert tweets s. induction fuel as [|fuel IH]; intros tweets s Hs;
    [apply expected_pending|].
  destruct tweets as [|t tweets].
  - cbn [timelineIterator].
    pose proof (enumerate_again_fst s) as Hf.
    assert (He : trace called `prefix_of` trace (snd (enumerate_again react s))).
    { unfold enumerate_again. destruct (tweetXpath (doc s)); cbn [snd];
        [|exact Hs].
      etransitivity; [exact Hs|apply prefix_app_r; reflexivity]. }
    destruct (enumerate_again react s) as [tweets' s']. cbn [fst snd] in Hf, He.
    destruct (loop_condition tweets' s') eqn:Hc; [apply IH, He|].
    apply expected_return. rewrite loop_condition_spec in Hc.
    apply andb_false_iff in Hc as [Hc|Hc]; [left|right; exact Hc].
    apply negb_false_iff, bool_decide_eq_true in Hc. congruence.
  - cbn [timelineIterator].
    destruct (new_Tweet t baseURI (doc s)) as [d [e|aTweet]] eqn:Hn;
      [apply expected_throw|].
    cbv zeta. cbn [debug].
    assert (H0 : trace called
                   `prefix_of`
                   trace (scrollIntoViewWithDelay react (Some (tweet aTweet)) 500
                            (update_doc
                               (classList_add (tweet aTweet)
                                  (JS.str "wr-debug-visited"))
                               (with_doc s d)))).
    { cbn. etransitivity; [exact Hs|]. rewrite <- app_assoc.
      apply prefix_app_r. reflexivity. }
    match goal with |- context [collectOutlinksFrom rest_ok ?q ?s0] =>
      assert (Hc : match collectOutlinksFrom rest_ok q s0 with
                   | inl (_, s') | inr s' => trace called `prefix_of` trace s'
                   end) by (apply collectOutlinksFrom_keeps; trace_grows);
      destruct (collectOutlinksFrom rest_ok q s0) as [[e s1]|s1] eqn:Hcol;
        [apply expected_throw|]
    end.
    destruct (hasVideo react aTweet s1) as [[|] s2] eqn:Hv.
    + eapply expected_video; [exact Hs|exact Hn|exact Hcol|exact Hv].
    + apply view_expected.
      * assert (H2 : trace called `prefix_of` trace (snd (hasVideo react aTweet s1)))
          by (apply hasVideo_keeps; trace_grows).
        rewrite Hv in H2. exact H2.
      * intros s0 H0'. apply IH, H0'.
Qed.

Lemma next_expected baseURI fuel g s :
  g <> Completed ->
  expected react rest_ok baseURI s (next react rest_ok baseURI fuel g s).
Proof.
  intros Hg. destruct g; cbn [next]; try congruence.
  - apply timelineIterator_expected. reflexivity.
  - apply view_expected; [reflexivity|]. intros s0 H0.
    apply timelineIterator_expected, H0.
  - apply close_then_expected; [reflexivity|]. intros s0 H0.
    apply timelineIterator_expected, H0.
  - apply visitThreadReplyTweets_resume_expected; [reflexivity|]. intros s0 H0.
    apply close_then_expected; [exact H0|]. intros s1 H1.
    apply timelineIterator_expected, H1.
Qed.

(** *** Ticks

    The number of timer firings allowed only bounds how long a call may
    wait: a call that settles within some number settles in the same way
    within any larger one. *)

Lemma clickAndWaitFor_more_fuel {C : Type} elem
    (predicate : C * Session -> (Exn + bool) * (C * Session))
    (fuel fuel' : nat) (x : C * Session) :
  clickAndWaitFor react elem predicate fuel x <> NotYet -> (fuel <= fuel')%nat ->
  clickAndWaitFor react elem predicate fuel' x
  = clickAndWaitFor react elem predicate fuel x.
Proof.
  unfold clickAndWaitFor. intros H Hle.
  destruct (click react elem (snd x)) as [[e s']|[[|] s']]; try reflexivity.
  destruct (waitForPredicate react predicate fuel _) as [y|] eqn:Hw;
    [|congruence].
  rewrite (waitForPredicate_more_fuel react _ _ _ _ _ Hw Hle). reflexivity.
Qed.

Lemma openFullTweet_more_fuel this (fuel fuel' : nat) s :
  openFullTweet react this fuel s <> NotYet -> (fuel <= fuel')%nat ->
  openFullTweet react this fuel' s = openFullTweet react this fuel s.
Proof. apply clickAndWaitFor_more_fuel. Qed.

Lemma closeFullTweetOverlay_more_fuel this (fuel fuel' : nat) s :
  closeFullTweetOverlay react this fuel s <> NotYet -> (fuel <= fuel')%nat ->
  closeFullTweetOverlay react this fuel' s = closeFullTweetOverlay react this fuel s.
Proof.
  unfold closeFullTweetOverlay.
  destruct (querySelector (doc s) None closeFullTweetSelector); [|auto].
  apply clickAndWaitFor_more_fuel.
Qed.

Lemma close_then_extends k k' this (fuel fuel' : nat) :
  extends k k' -> (fuel <= fuel')%nat ->
  extends (close_then react k this fuel) (close_then react k' this fuel').
Proof.
  intros Hk Hle s H. unfold close_then in *.
  destruct (closeFullTweetOverlay react this fuel s) as [[b [t s']]|e s'|] eqn:Hc;
    [| |congruence];
    rewrite (closeFullTweetOverlay_more_fuel _ _ _ _ ltac:(rewrite Hc; discriminate) Hle),
      Hc; [apply Hk, H|reflexivity].
Qed.

Lemma visitThreadReplyTweets_extends k k' this tweets :
  extends k k' ->
  extends (visitThreadReplyTweets react rest_ok k this tweets)
    (visitThreadReplyTweets react rest_ok k' this tweets).
Proof.
  intros Hk s H. unfold visitThreadReplyTweets in *.
  destruct (collectOutlinksFrom rest_ok _ s) as [[e s1]|s1]; [reflexivity|].
  destruct (overlayTweetXpath (doc s1)); [apply Hk, H|reflexivity].
Qed.

Lemma visitThreadReplyTweets_resume_extends k k' this snapShot tweets :
  extends k k' ->
  extends (visitThreadReplyTweets_resume react k this snapShot tweets)
    (visitThreadReplyTweets_resume react k' this snapShot tweets).
Proof.
  intros Hk s H. unfold visitThreadReplyTweets_resume in *.
  destruct snapShot; [|reflexivity].
  destruct (snapshot_again react this s) as [[e s']|[[|a l] s']];
    [reflexivity|apply Hk, H|reflexivity].
Qed.

Lemma view_extends k k' aTweet tweets (fuel fuel' : nat) :
  extends k k' -> (fuel <= fuel')%nat ->
  extends (fun s => view react rest_ok k aTweet tweets fuel s)
    (fun s => view react rest_ok k' aTweet tweets fuel' s).
Proof.
  intros Hk Hle s H. unfold view, viewRepliesOrThread, viewRegularTweet in *.
  destruct (hasRepliedOrInThread aTweet);
    destruct (openFullTweet react aTweet fuel s) as [[b [t s']]|e s'|] eqn:Ho;
    try congruence;
    rewrite (openFullTweet_more_fuel _ _ _ _ ltac:(rewrite Ho; discriminate) Hle),
      Ho; try reflexivity.
  apply (visitThreadReplyTweets_extends _ _ t tweets
           (close_then_extends _ _ t _ _ Hk Hle)), H.
Qed.

Lemma timelineIterator_extends baseURI (fuel fuel' : nat) tweets :
  (fuel <= fuel')%nat ->
  extends (timelineIterator react rest_ok baseURI fuel tweets)
    (timelineIterator react rest_ok baseURI fuel' tweets).
Proof.
  revert fuel' tweets. induction fuel as [|fuel IH]; intros fuel' tweets Hle s H;
    [cbn in H; congruence|].
  destruct fuel' as [|fuel']; [lia|]. assert (Hle' : (fuel <= fuel')%nat) by lia.
  cbn [timelineIterator] in *. destruct tweets as [|t tweets].
  - destruct (enumerate_again react s) as [tweets' s'].
    destruct (loop_condition tweets' s'); [apply IH; assumption|reflexivity].
  - destruct (new_Tweet t baseURI (doc s)) as [d [e|aTweet]]; [reflexivity|].
    cbv zeta in *.
    destruct (collectOutlinksFrom rest_ok _ _) as [[e s1]|s1]; [reflexivity|].
    destruct (hasVideo react aTweet s1) as [[|] s2]; [reflexivity|].
    apply (view_extends _ _ aTweet tweets fuel fuel' (IH fuel' tweets Hle') Hle'), H.
Qed.

Lemma next_more_fuel baseURI (fuel n : nat) g s :
  next react rest_ok baseURI fuel g s <> Pending ->
  next react rest_ok baseURI (fuel + n) g s = next react rest_ok baseURI fuel g s.
Proof.
  assert (Hle : (fuel <= fuel + n)%nat) by lia.
  pose proof (fun tweets => timelineIterator_extends baseURI _ _ tweets Hle) as Ht.
  intros H. destruct g; cbn [next] in *.
  - apply Ht, H.
  - apply (view_extends _ _ aTweet tweets _ _ (Ht tweets) Hle), H.
  - apply (close_then_extends _ _ aTweet _ _ (Ht tweets) Hle), H.
  - apply (visitThreadReplyTweets_resume_extends _ _ aTweet snapShot tweets
             (close_then_extends _ _ aTweet _ _ (Ht tweets) Hle)), H.
  - reflexivity.
Qed.

(** C2, as amended. The session loop continues exactly when the enumeration
    taken at the end of a round (again after the fixed wait when it was
    empty) is not empty and the scroll-extent check says more scrolling is
    possible; it terminates as soon as that enumeration is empty or no
    further scrolling is possible, one of the two being enough. So a
    generator that has not completed returns only in a state in which the
    enumeration is empty or scrolling is exhausted. *)
Theorem loop_exit_condition (baseURI : jsstring) (fuel : nat) (g : Suspended)
    (s : Session) :
  match next react rest_ok baseURI fuel g s with
  | Return s' =>
      g = Completed \/ tweetXpath (doc s') = [] \/ canScrollMore (doc s') = false
  | _ => True
  end
  /\ (let tweets := fst (enumerate_again react s) in
      let s' := snd (enumerate_again react s) in
      tweets = tweetXpath (doc s')
      /\ if loop_condition tweets s'
         then tweets <> [] /\ canScrollMore (doc s') = true
              /\ timelineIterator react rest_ok baseURI (S fuel) [] s
                 = timelineIterator react rest_ok baseURI fuel tweets s'
         else (tweets = [] \/ canScrollMore (doc s') = false)
              /\ timelineIterator react rest_ok baseURI (S fuel) [] s = Return s').
Proof.
  split.
  - assert (Hg : g = Completed \/ g <> Completed)
      by (destruct g; (left; reflexivity) || (right; discriminate)).
    destruct Hg as [->|Hg].
    + cbn. left. reflexivity.
    + pose proof (next_expected baseURI fuel g s Hg) as H.
      inversion H; auto.
  - cbv zeta. split; [apply enumerate_again_fst|].
    cbn [timelineIterator]. destruct (enumerate_again react s) as [tweets s'].
    cbn [fst snd]. destruct (loop_condition tweets s') eqn:Hc.
    + rewrite loop_condition_spec in Hc. apply andb_prop in Hc as [Hc1 Hc2].
      apply negb_true_iff, bool_decide_eq_false in Hc1. auto.
    + rewrite loop_condition_spec in Hc.
      apply andb_false_iff in Hc as [Hc|Hc]; [|auto].
      apply negb_false_iff, bool_decide_eq_true in Hc. auto.
Qed.

(** C6, as amended. Every call of the step handle that resolves gives a
    pair [{done, wait}]. [wait] is true only when the call stopped at the
    [yield true] of the session loop: then this very call has constructed a
    unit, scrolled to it and collected its links, [hasVideo()] has answered
    [true] for it, and the unit held a video container at that moment;
    playback is started then only when the container holds a video
    element, so [wait: true] does not say that media was started. In the
    other direction, the session loop that constructs a unit holding a video
    container yields [true] there, so that the first call on a page whose
    first unit holds one resolves with [done: false, wait: true]; for a unit
    without one the loop yields no [true] and goes on to visit it. Every
    other yield and the last step give [wait] false. Once the
    generator has completed (its loop has returned, or an exception left
    it), [done] stays true: every later call is a no-op that resolves with
    [done: true, wait: false]. A call that settles within some number of
    timer firings settles in the same way within any larger number. *)
Theorem step_handle_wait_and_done (baseURI : jsstring) (fuel : nat)
    (g : Suspended) (s : Session) :
  match WRIteratorHandler react rest_ok baseURI fuel g s with
  | Resolved r g' s' =>
      (if wait r
       then done r = false
            /\ exists aTweet tweets built d s0,
                 g' = AtVideoYield aTweet tweets
                 /\ trace s `prefix_of` trace built
                 /\ new_Tweet (tweet aTweet) baseURI (doc built) = (d, inr aTweet)
                 /\ collectOutlinksFrom rest_ok (Some (tweet aTweet))
                      (scrollIntoViewWithDelay react (Some (tweet aTweet)) 500
                         (update_doc
                            (classList_add (tweet aTweet) (JS.str "wr-debug-visited"))
                            (with_doc built d)))
                    = inr s0
                 /\ querySelector (doc s0) (Some (tweet aTweet))
                      videoContainerSelector <> None
                 /\ s' = snd (hasVideo react aTweet s0)
       else forall aTweet tweets, g' <> AtVideoYield aTweet tweets)
      /\ (if done r then g' = Completed else g' <> Completed /\ g' <> AtStart)
  | Rejected _ g' _ => g' = Completed
  | Unsettled => True
  end
  /\ (forall t tweets fuel' built d aTweet s0,
        new_Tweet t baseURI (doc built) = (d, inr aTweet) ->
        collectOutlinksFrom rest_ok (Some (tweet aTweet))
          (scrollIntoViewWithDelay react (Some (tweet aTweet)) 500
             (update_doc (classList_add (tweet aTweet) (JS.str "wr-debug-visited"))
                (with_doc built d)))
        = inr s0 ->
        if negb (is_null (querySelector (doc s0) (Some (tweet aTweet))
                            videoContainerSelector))
        then timelineIterator react rest_ok baseURI (S fuel') (t :: tweets) built
             = Yield true (AtVideoYield aTweet tweets) (snd (hasVideo react aTweet s0))
             /\ (tweetXpath (doc built) = t :: tweets ->
                 WRIteratorHandler react rest_ok baseURI (S fuel') AtStart built
                 = Resolved {| done := false; wait := true |}
                     (AtVideoYield aTweet tweets) (snd (hasVideo react aTweet s0)))
        else timelineIterator react rest_ok baseURI (S fuel') (t :: tweets) built
             = view react rest_ok (timelineIterator react rest_ok baseURI fuel' tweets)
                 aTweet tweets fuel' s0)
  /\ (forall fuel' s',
        WRIteratorHandler react rest_ok baseURI fuel' Completed s'
        = Resolved {| done := true; wait := false |} Completed s')
  /\ (forall n,
        WRIteratorHandler react rest_ok baseURI fuel g s = Unsettled
        \/ WRIteratorHandler react rest_ok baseURI (fuel + n) g s
           = WRIteratorHandler react rest_ok baseURI fuel g s)
  /\ (forall this s0,
        fst (hasVideo react this s0)
        = negb (is_null (querySelector (doc s0) (Some (tweet this))
                           videoContainerSelector))
        /\ trace (snd (hasVideo react this s0))
           = trace s0
             ++ match querySelector (doc s0) (Some (tweet this))
                        videoContainerSelector with
                | Some videoContainer =>
                    match querySelector (doc s0) (Some videoContainer)
                            videoSelector with
                    | Some video => [Play video]
                    | None => []
                    end
                | None => []
                end).
Proof.
  split; [|split; [|split; [|split]]].
  - unfold WRIteratorHandler.
    assert (Hg : g = Completed \/ g <> Completed)
      by (destruct g; (left; reflexivity) || (right; discriminate)).
    destruct Hg as [->|Hg]; [cbn; split; [discriminate|reflexivity]|].
    pose proof (next_expected baseURI fuel g s Hg) as H.
    inversion H as [| | t aTweet tweets built d s0 s' Hb Hn Hc Hv | | |];
      cbn [wait done];
      try exact I; try reflexivity;
      try (split; [discriminate|first [reflexivity|split; discriminate]]).
    split; [|split; discriminate]. split; [reflexivity|].
    exists aTweet, tweets, built, d, s0.
    destruct (new_Tweet_inversion _ _ _ _ _ Hn) as (_ & Ht & _).
    rewrite Ht in Hc |- *.
    split; [reflexivity|]. split; [exact Hb|]. split; [exact Hn|].
    split; [exact Hc|]. split; [|rewrite Hv; reflexivity].
    intros Hnone. unfold hasVideo in Hv. rewrite Ht, Hnone in Hv. discriminate Hv.
  - intros t tweets fuel' built d aTweet s0 Hn Hc.
    pose proof (timelineIterator_unit baseURI fuel' t tweets built) as Hu.
    rewrite Hn, Hc in Hu.
    destruct (negb (is_null _)); [|exact Hu].
    split; [exact Hu|]. intros Hx. unfold WRIteratorHandler. cbn [next].
    rewrite Hx, Hu. reflexivity.
  - reflexivity.
  - intros n. unfold WRIteratorHandler.
    destruct (next react rest_ok baseURI fuel g s) eqn:Hn; auto; right;
      rewrite next_more_fuel by (rewrite Hn; discriminate);
      rewrite Hn; reflexivity.
  - intros this s0. unfold hasVideo.
    destruct (querySelector (doc s0) (Some (tweet this)) videoContainerSelector)
      as [vc|]; cbn [is_null negb].
    + destruct (querySelector (doc s0) (Some vc) videoSelector) as [v|];
        cbn [fst snd perform trace]; [auto|].
      rewrite app_nil_r. auto.
    + cbn [fst snd]. rewrite app_nil_r. auto.
Qed.

(** C4, as amended. A unit whose reply button holds the zero-count marker
    and whose tweet holds no show-thread link has no deep content. Visiting
    it is [viewRegularTweet], with no enumeration of the overlay: the
    container is moused over and clicked, and the visit waits, without any
    limit of time, for the page to show the opened tweet. When the page
    shows it at some firing of the one-second timer, the visit yields its
    one progress signal, [false], at the first such firing, the tweet
    holding the overlay; as long as the page does not show it, the visit
    yields nothing; and a container without a [click] method makes it throw.
    The call that follows the signal closes the overlay: without a dismiss
    control it does nothing, with one it clicks the control and waits in the
    same way for the location of the timeline; then it goes on with the
    units that are left, with no further signal for this unit. The signal
    of the visit is not the only one the unit can give: for a unit with a
    video container the session loop has yielded [true] before, and the
    visit is what the call after that signal does. *)
Theorem regular_tweet_visit (aTweet : Elem) (baseURI : jsstring)
    (d d' : Document) (this : Tweet) :
  new_Tweet aTweet baseURI d = (d', inr this) ->
  querySelector d' (Some (rplyButton this)) noReplySpanSelector <> None ->
  querySelector d' (Some aTweet) threadSelector = None ->
  hasRepliedOrInThread this = false
  /\ (forall k tweets fuel s,
        view react rest_ok k this tweets fuel s
        = viewRegularTweet react this tweets fuel s)
  /\ (forall tweets fuel s,
        next react rest_ok baseURI fuel (AtVideoYield this tweets) s
        = viewRegularTweet react this tweets fuel s)
  /\ (forall k tweets fuel s,
        let hovered := perform react (MouseOver (container this)) s in
        let clicked := perform react (Click (container this)) hovered in
        let permalinkPath := permalinkPath (doc s) (container this) in
        (has_click (doc hovered) (container this) = false ->
         view react rest_ok k this tweets fuel s = Throw TypeError hovered)
        /\ (has_click (doc hovered) (container this) = true ->
            (forall n,
               (n < fuel)%nat ->
               (forall i, (i < n)%nat ->
                  opened permalinkPath (doc (elapsed react (S i) clicked)) = false) ->
               opened permalinkPath (doc (elapsed react (S n) clicked)) = true ->
               exists o,
                 permalink_overlay (doc (elapsed react (S n) clicked)) = Some o
                 /\ view react rest_ok k this tweets fuel s
                    = Yield false
                        (AtRegularYield (set_fullTweetOverlay this (Some o)) tweets)
                        (update_doc
                           (classList_add o (JS.str "wr-debug-visited-overlay"))
                           (elapsed react (S n) clicked)))
            /\ ((forall i, (i < fuel)%nat ->
                   opened permalinkPath (doc (elapsed react (S i) clicked)) = false) ->
                view react rest_ok k this tweets fuel s = Pending)))
  /\ (forall this' tweets fuel s,
        match querySelector (doc s) None closeFullTweetSelector with
        | None =>
            next react rest_ok baseURI fuel (AtRegularYield this' tweets) s
            = timelineIterator react rest_ok baseURI fuel tweets s
        | Some overlay =>
            let marked :=
              update_doc (classList_add overlay (JS.str "wr-debug-click")) s in
            let hovered := perform react (MouseOver overlay) marked in
            let clicked := perform react (Click overlay) hovered in
            (has_click (doc hovered) overlay = false ->
             next react rest_ok baseURI fuel (AtRegularYield this' tweets) s
             = Throw TypeError hovered)
            /\ (has_click (doc hovered) overlay = true ->
                (forall m,
                   (m < fuel)%nat ->
                   (forall i, (i < m)%nat ->
                      Timeline.baseURI (doc (elapsed react (S i) clicked))
                      <> _baseURI this') ->
                   Timeline.baseURI (doc (elapsed react (S m) clicked))
                   = _baseURI this' ->
                   next react rest_ok baseURI fuel (AtRegularYield this' tweets) s
                   = timelineIterator react rest_ok baseURI fuel tweets
                       (update_doc
                          (classList_remove overlay (JS.str "wr-debug-click"))
                          (elapsed react (S m) clicked)))
                /\ ((forall i, (i < fuel)%nat ->
                       Timeline.baseURI (doc (elapsed react (S i) clicked))
                       <> _baseURI this') ->
                    next react rest_ok baseURI fuel (AtRegularYield this' tweets) s
                    = Pending))
        end).
Proof.
  intros H Hzero Hthread.
  destruct (new_Tweet_inversion _ _ _ _ _ H)
    as (_ & _ & _ & _ & _ & Hr & Ht & _).
  assert (Hdeep : hasRepliedOrInThread this = false).
  { unfold hasRepliedOrInThread. rewrite Hr, Ht, Hthread.
    destruct (querySelector d' _ noReplySpanSelector); [reflexivity|congruence]. }
  assert (Hview : forall k tweets fuel s,
             view react rest_ok k this tweets fuel s
             = viewRegularTweet react this tweets fuel s)
    by (intros; unfold view; rewrite Hdeep; reflexivity).
  split; [exact Hdeep|]. split; [exact Hview|].
  split; [intros tweets fuel s; cbn [next]; apply Hview|]. split.
  - intros k tweets fuel s hovered clicked p. rewrite Hview.
    unfold viewRegularTweet.
    destruct (openFullTweet_by_firings react this fuel s) as [Hthrow Hclick].
    fold hovered in Hthrow, Hclick. fold clicked in Hclick. fold p in Hclick.
    split.
    + intros Hc. rewrite (Hthrow Hc). reflexivity.
    + intros Hc. destruct (Hclick Hc) as [Hopen Hnever]. split.
      * intros n Hn Hbefore Hat.
        destruct (Hopen n Hn Hbefore Hat) as (o & Ho & Heq).
        exists o. split; [exact Ho|]. rewrite Heq. reflexivity.
      * intros Hno. rewrite (Hnever Hno). reflexivity.
  - intros this' tweets fuel s. cbn [next]. unfold close_then.
    pose proof (closeFullTweetOverlay_by_firings react this' fuel s) as Hclose.
    destruct (querySelector (doc s) None closeFullTweetSelector) as [overlay|].
    + cbv zeta in Hclose |- *. destruct Hclose as [Hthrow Hclick]. split.
      * intros Hc. rewrite (Hthrow Hc). reflexivity.
      * intros Hc. destruct (Hclick Hc) as [Hback Hnever]. split.
        -- intros m Hm Hbefore Hat. rewrite (Hback m Hm Hbefore Hat). reflexivity.
        -- intros Hno. rewrite (Hnever Hno). reflexivity.
    + rewrite Hclose. reflexivity.
Qed.

End TimelineRun.

Section TimelineExamples.
Import Browser Timeline.

(** On the demo page the tweet without replies is visited in two steps.
    The page shows the opened tweet at the first firing of the timer, so
    the visit yields there, the tweet holding the overlay; the call after
    the yield finds the dismiss control, clicks it, is back on the timeline
    at the first firing, and ends the session, the page holding nothing
    else. *)
Lemma regular_tweet_visit_witness :
  new_Tweet Demo.content_div Demo.home (Demo.page Demo.plain 2000)
  = (markElemAsVisited (Some Demo.content_div) (Demo.page Demo.plain 2000),
     inr (Demo.tweet_object false))
  /\ hasRepliedOrInThread (Demo.tweet_object false) = false
  /\ has_click
       (doc (perform Demo.react (MouseOver Demo.container_div)
               (Demo.start Demo.plain 2000)))
       Demo.container_div = true
  /\ opened
       (permalinkPath (doc (Demo.start Demo.plain 2000)) Demo.container_div)
       (doc (elapsed Demo.react 1
               (perform Demo.react (Click Demo.container_div)
                  (perform Demo.react (MouseOver Demo.container_div)
                     (Demo.start Demo.plain 2000)))))
     = true
  /\ view Demo.react Url.plain_rest_ok Return (Demo.tweet_object false) [] 5
       (Demo.start Demo.plain 2000)
     = Yield false
         (AtRegularYield
            (set_fullTweetOverlay (Demo.tweet_object false) (Some Demo.overlay_div))
            [])
         (update_doc
            (classList_add Demo.overlay_div (JS.str "wr-debug-visited-overlay"))
            (elapsed Demo.react 1
               (perform Demo.react (Click Demo.container_div)
                  (perform Demo.react (MouseOver Demo.container_div)
                     (Demo.start Demo.plain 2000)))))
  /\ exists this' s1 s2,
       WRIteratorHandler Demo.react Url.plain_rest_ok Demo.home 5 AtStart
         (Demo.start Demo.plain 2000)
       = Resolved {| done := false; wait := false |} (AtRegularYield this' []) s1
       /\ fullTweetOverlay this' = Some Demo.overlay_div
       /\ baseURI (doc s1) = Demo.permalink
       /\ trace s1
          = [ScrollIntoView Demo.content_div; Elapse 500;
             MouseOver Demo.container_div; Click Demo.container_div; Elapse 1000]
       /\ WRIteratorHandler Demo.react Url.plain_rest_ok Demo.home 5
            (AtRegularYield this' []) s1
          = Resolved {| done := true; wait := false |} Completed s2
       /\ baseURI (doc s2) = Demo.home
       /\ trace s2
          = trace s1
            ++ [MouseOver Demo.dismiss_span; Click Demo.dismiss_span; Elapse 1000;
                Elapse 3000].
Proof.
  assert (Hopened :
            opened
              (permalinkPath (doc (Demo.start Demo.plain 2000)) Demo.container_div)
              (doc (elapsed Demo.react 1
                      (perform Demo.react (Click Demo.container_div)
                         (perform Demo.react (MouseOver Demo.container_div)
                            (Demo.start Demo.plain 2000)))))
            = true) by (vm_compute; reflexivity).
  destruct (regular_tweet_visit Demo.react Url.plain_rest_ok Demo.content_div
              Demo.home (Demo.page Demo.plain 2000)
              (markElemAsVisited (Some Demo.content_div) (Demo.page Demo.plain 2000))
              (Demo.tweet_object false))
    as (Hdeep & _ & _ & Hvisit & _).
  - reflexivity.
  - discriminate.
  - reflexivity.
  - split; [reflexivity|]. split; [exact Hdeep|]. split; [reflexivity|].
    split; [exact Hopened|]. split.
    + destruct (Hvisit Return [] 5%nat (Demo.start Demo.plain 2000))
        as [_ Hclick].
      destruct (Hclick eq_refl) as [Hyield _].
      destruct (Hyield 0%nat) as (o & Ho & Heq).
      * lia.
      * intros i Hi. lia.
      * exact Hopened.
      * rewrite Heq. vm_compute in Ho. injection Ho as <-. reflexivity.
    + eexists _, _, _. split; [vm_compute; reflexivity|].
      split; [reflexivity|].
      split; [vm_compute; reflexivity|]. split; [vm_compute; reflexivity|].
      split; [vm_compute; reflexivity|]. split; vm_compute; reflexivity.
Defined.


(** C4 as stated fails: a unit with no zero-count marker and no thread link
    has deep content, since the missing marker means that it has replies.
    On the demo page its overlay holds no tweet, so the visit yields no
    progress signal at all: the first step already ends the session. *)
Lemma tweet_without_zero_marker_is_deep :
  exists d' this s',
    new_Tweet Demo.content_div Demo.home (Demo.page Demo.replied 2000)
    = (d', inr this)
    /\ querySelector d' (Some (rplyButton this)) noReplySpanSelector = None
    /\ querySelector d' (Some Demo.content_div) threadSelector = None
    /\ hasRepliedOrInThread this = true
    /\ WRIteratorHandler Demo.react Url.plain_rest_ok Demo.home 5 AtStart
         (Demo.start Demo.replied 2000)
       = Resolved {| done := true; wait := false |} Completed s'.
Proof.
  eexists _, _, _. split; [reflexivity|]. split; [reflexivity|].
  split; [reflexivity|]. split; [reflexivity|]. vm_compute. reflexivity.
Qed.

(** C6 as stated fails: a unit whose video container holds no video gives
    [wait: true] in a step that starts no media. *)
Lemma wait_without_started_media :
  exists g' s',
    WRIteratorHandler Demo.react Url.plain_rest_ok Demo.home 5 AtStart
      (Demo.start Demo.empty_video_container 2000)
    = Resolved {| done := false; wait := true |} g' s'
    /\ trace s' = [ScrollIntoView Demo.content_div; Elapse 500].
Proof. eexists _, _. split; vm_compute; reflexivity. Qed.

(** C2 as stated fails, on either side. On the first page the loop ends
    while more scrolling is possible, the enumeration being empty; on the
    second it ends while a tweet is still to be visited, scrolling being
    exhausted. *)
Lemma loop_ends_when_one_condition_holds :
  (exists g1 s1 s2,
     WRIteratorHandler Demo.react Url.plain_rest_ok Demo.home 5 AtStart
       (Demo.start Demo.plain 2000)
     = Resolved {| done := false; wait := false |} g1 s1
     /\ WRIteratorHandler Demo.react Url.plain_rest_ok Demo.home 5 g1 s1
        = Resolved {| done := true; wait := false |} Completed s2
     /\ tweetXpath (doc s2) = []
     /\ canScrollMore (doc s2) = true)
  /\ (exists g1 s1 s2,
        WRIteratorHandler Demo.react_appending Url.plain_rest_ok Demo.home 5
          AtStart (Demo.start Demo.plain 800)
        = Resolved {| done := false; wait := false |} g1 s1
        /\ WRIteratorHandler Demo.react_appending Url.plain_rest_ok Demo.home 5
             g1 s1
           = Resolved {| done := true; wait := false |} Completed s2
        /\ tweetXpath (doc s2) = [Demo.late_content_div]
        /\ canScrollMore (doc s2) = false).
Proof.
  split; eexists _, _, _; (split; [vm_compute; reflexivity|]);
    (split; [vm_compute; reflexivity|]); split; vm_compute; reflexivity.
Qed.

End TimelineExamples.

(** ** The grid generator *)

Section GridRun.
Import Browser Grid.
Variable react : list Action -> Action -> Document -> Document.
Variable rest_ok : jsstring -> jsstring -> bool.

(** A round of [consumePins] that yields, yields its pin and keeps the
    rest of the batch. *)
Lemma yield_pin_yields phase R seenPins pin pins s pin' g' s' :
  yield_pin react rest_ok phase R seenPins pin pins s = Yield pin' g' s' ->
  pin' = pin /\ g' = AtPinYield phase R seenPins pins.
Proof.
  unfold yield_pin. destruct (collectFrom rest_ok (node pin) s) as [[e s1]|s1];
    [discriminate|].
  intros H. injection H as <- <- _. auto.
Qed.

(** A pass selects pins with pairwise distinct keys, none of them seen
    before, and records exactly their keys as seen. *)
Lemma reactInstancesFromElements_keys (d : Document) (elems : list Elem)
    (seenPins seenPins' : gset Key) (pins : list Rendered) :
  reactInstancesFromElements d elems seenPins = inr (pins, seenPins') ->
  NoDup (keys pins)
  /\ (forall k, k ∈ keys pins -> k ∉ seenPins)
  /\ (forall k, k ∈ seenPins' <-> k ∈ seenPins \/ k ∈ keys pins).
Proof.
  revert seenPins seenPins' pins.
  induction elems as [|e elems IH]; intros seen seen' pins H;
    cbn [reactInstancesFromElements] in H.
  - injection H as <- <-. cbn. split; [constructor|]. split.
    + intros k Hk. inversion Hk.
    + intros k. split; [auto|]. intros [Hk|Hk]; [exact Hk|inversion Hk].
  - destruct (reactInstanceFromDOMElem d (Some e)) as [exn|instance];
      [discriminate|].
    unfold keySelector in H. cbv zeta in H.
    destruct (reactInstancesFromElements d elems _) as [exn|[pins0 seen0]] eqn:Hr;
      [discriminate|].
    injection H as <- <-.
    apply IH in Hr as (Hnd & Hfresh & Hseen).
    case_bool_decide as Hin; cbn [negb] in *.
    + split; [exact Hnd|]. split; [exact Hfresh|exact Hseen].
    + cbn [keys map reactInstance]. fold (keys pins0). split; [|split].
      * constructor; [|exact Hnd]. intros Hk. apply Hfresh in Hk.
        apply Hk. apply elem_of_union. left. apply elem_of_singleton. reflexivity.
      * intros k Hk. apply elem_of_cons in Hk as [->|Hk]; [exact Hin|].
        apply Hfresh in Hk. intros Hk'. apply Hk. apply elem_of_union. auto.
      * intros k. rewrite Hseen, elem_of_cons, elem_of_union, elem_of_singleton.
        tauto.
Qed.

Lemma pass_keeps_consistent (d : Document) (pinContainerR : Fiber)
    (seenPins seenPins' : gset Key) (pins : list Rendered) (ys : list Key) :
  getRenderedPins d pinContainerR seenPins = inr (pins, seenPins') ->
  NoDup ys -> (forall k, k ∈ ys -> k ∈ seenPins) ->
  NoDup (ys ++ keys pins)
  /\ (forall k, k ∈ ys ++ keys pins -> k ∈ seenPins').
Proof.
  intros H Hnd Hys. apply reactInstancesFromElements_keys in H
    as (Hp & Hfresh & Hseen).
  split.
  - apply NoDup_app. split; [exact Hnd|]. split; [|exact Hp].
    intros k Hk Hk'. apply (Hfresh k Hk'). apply Hys, Hk.
  - intros k Hk. apply Hseen. apply elem_of_app in Hk as [Hk|Hk]; auto.
Qed.

Lemma consistent_cons (ys : list Key) phase R seenPins pin pins :
  NoDup (ys ++ keys (pin :: pins)) ->
  (forall k, k ∈ ys ++ keys (pin :: pins) -> k ∈ seenPins) ->
  consistent (ys ++ [key (reactInstance pin)]) (AtPinYield phase R seenPins pins).
Proof.
  intros Hnd Hs. cbn [consistent]. rewrite <- app_assoc. auto.
Qed.

Lemma second_drain_again_consistent R seenPins s ys pin g' s' :
  NoDup ys -> (forall k, k ∈ ys -> k ∈ seenPins) ->
  second_drain_again react rest_ok R seenPins s = Yield pin g' s' ->
  consistent (ys ++ [key (reactInstance pin)]) g'.
Proof.
  intros Hnd Hys H. unfold second_drain_again in H.
  destruct (getRenderedPins (doc s) R seenPins) as [e|[[|p pins] seen1]] eqn:H1;
    try discriminate.
  destruct (pass_keeps_consistent _ _ _ _ _ ys H1 Hnd Hys) as [Hn1 Hs1].
  apply yield_pin_yields in H as [-> ->].
  apply consistent_cons; assumption.
Qed.

Lemma first_drain_again_consistent R seenPins s ys pin g' s' :
  NoDup ys -> (forall k, k ∈ ys -> k ∈ seenPins) ->
  first_drain_again react rest_ok R seenPins s = Yield pin g' s' ->
  consistent (ys ++ [key (reactInstance pin)]) g'.
Proof.
  intros Hnd Hys H. unfold first_drain_again in H.
  destruct (getRenderedPins (doc s) R seenPins) as [e|[[|p pins] seen1]] eqn:H1;
    try discriminate;
    destruct (pass_keeps_consistent _ _ _ _ _ ys H1 Hnd Hys) as [Hn1 Hs1].
  - cbn [keys map] in Hs1. rewrite app_nil_r in Hs1.
    destruct (getRenderedPins (doc s) R seen1) as [e|[[|p pins] seen2]] eqn:H2;
      try discriminate;
      destruct (pass_keeps_consistent _ _ _ _ _ ys H2 Hnd Hs1) as [Hn2 Hs2].
    + cbn [keys map] in Hs2. rewrite app_nil_r in Hs2.
      eapply second_drain_again_consistent; eassumption.
    + apply yield_pin_yields in H as [-> ->].
      apply consistent_cons; assumption.
  - apply yield_pin_yields in H as [-> ->].
    apply consistent_cons; assumption.
Qed.

(** Every yield is the one of [consumePins]. *)
Lemma second_drain_yields_at_pin R seenPins s pin g' s' :
  second_drain_again react rest_ok R seenPins s = Yield pin g' s' ->
  exists phase R' seen pins, g' = AtPinYield phase R' seen pins.
Proof.
  unfold second_drain_again. intros H.
  destruct (getRenderedPins _ _ _) as [e|[[|p pins] seen1]]; try discriminate.
  apply yield_pin_yields in H as [_ ->]. eauto.
Qed.

Lemma first_drain_yields_at_pin R seenPins s pin g' s' :
  first_drain_again react rest_ok R seenPins s = Yield pin g' s' ->
  exists phase R' seen pins, g' = AtPinYield phase R' seen pins.
Proof.
  unfold first_drain_again. intros H.
  destruct (getRenderedPins _ _ seenPins) as [e|[[|p pins] seen1]];
    try discriminate.
  - destruct (getRenderedPins _ _ seen1) as [e|[[|p pins] seen2]];
      try discriminate.
    + eapply second_drain_yields_at_pin, H.
    + apply yield_pin_yields in H as [_ ->]. eauto.
  - apply yield_pin_yields in H as [_ ->]. eauto.
Qed.

Lemma next_yields_at_pin g s pin g' s' :
  next react rest_ok g s = Yield pin g' s' ->
  exists phase R seen pins, g' = AtPinYield phase R seen pins.
Proof.
  intros H. destruct g as [|phase R seenPins pins|]; cbn [next] in H.
  - unfold iteratePins in H.
    destruct (getGridContainer _) as [e|c]; [discriminate|].
    destruct (reactInstanceFromDOMElem _ c) as [e|R]; [discriminate|].
    destruct (getRenderedPins _ _ _) as [e|[[|p pins] seen1]]; try discriminate;
      cbn [consumePins] in H.
    + eapply first_drain_yields_at_pin, H.
    + apply yield_pin_yields in H as [_ ->]. eauto.
  - destruct pins as [|p pins]; cbn [consumePins] in H.
    + destruct phase.
      * eapply first_drain_yields_at_pin, H.
      * eapply second_drain_yields_at_pin, H.
    + apply yield_pin_yields in H as [_ ->]. eauto.
  - discriminate.
Qed.

(** A step that yields keeps the generator consistent with the keys
    yielded so far, the new one included. *)
Lemma next_consistent (g g' : Suspended) (s s' : Session) (ys : list Key)
    (pin : Rendered) :
  consistent ys g -> NoDup ys ->
  next react rest_ok g s = Yield pin g' s' ->
  consistent (ys ++ [key (reactInstance pin)]) g'
  /\ NoDup (ys ++ [key (reactInstance pin)]).
Proof.
  intros Hc Hnd H.
  assert (Hg' : consistent (ys ++ [key (reactInstance pin)]) g').
  { destruct g as [|phase R seenPins pins|]; cbn [next] in H.
    - cbn in Hc. subst ys. unfold iteratePins in H.
      destruct (getGridContainer (doc s)) as [e|c]; [discriminate|].
      destruct (reactInstanceFromDOMElem (doc s) c) as [e|R]; [discriminate|].
      assert (Hys : forall k : Key, k ∈ @nil Key -> k ∈ (∅ : gset Key))
        by (intros k Hk; inversion Hk).
      destruct (getRenderedPins (doc s) R ∅) as [e|[[|p pins] seen1]] eqn:H1;
        try discriminate; cbn [consumePins] in H;
        destruct (pass_keeps_consistent _ _ _ _ _ [] H1 Hnd Hys) as [Hn1 Hs1].
      + eapply first_drain_again_consistent; try eassumption.
      + apply yield_pin_yields in H as [-> ->].
        apply consistent_cons; assumption.
    - destruct Hc as [Hn Hs]. destruct pins as [|p pins]; cbn [consumePins] in H.
      + cbn [keys map] in Hn, Hs. rewrite app_nil_r in Hs.
        destruct phase.
        * eapply first_drain_again_consistent; eassumption.
        * eapply second_drain_again_consistent; eassumption.
      + apply yield_pin_yields in H as [-> ->].
        apply consistent_cons; assumption.
    - discriminate. }
  split; [exact Hg'|].
  destruct (next_yields_at_pin _ _ _ _ _ H) as (phase & R & seenPins & pins & ->).
  destruct Hg' as [Hn _]. apply NoDup_app in Hn as (Hn & _ & _). exact Hn.
Qed.

Lemma yielded_keys_distinct (n : nat) (g : Suspended) (s : Session)
    (ys : list Key) :
  consistent ys g -> NoDup ys ->
  NoDup (ys ++ keys (yielded react rest_ok n g s)).
Proof.
  revert g s ys. induction n as [|n IH]; intros g s ys Hc Hnd; cbn [yielded].
  - cbn. rewrite app_nil_r. exact Hnd.
  - destruct (next react rest_ok g s) as [pin g' s'| |] eqn:H;
      try (cbn; rewrite app_nil_r; exact Hnd).
    destruct (next_consistent _ _ _ _ _ _ Hc Hnd H) as [Hc' Hnd'].
    cbn [keys map]. fold (keys (yielded react rest_ok n g' s')).
    change (ys ++ key (reactInstance pin) :: keys (yielded react rest_ok n g' s'))
      with (ys ++ [key (reactInstance pin)] ++ keys (yielded react rest_ok n g' s')).
    rewrite app_assoc. apply IH; assumption.
Qed.

(** C5. In every grid session, whatever the page does and however many
    steps the host takes, the keys of the records yielded are pairwise
    distinct: no record whose key was yielded earlier in the session is
    yielded again, in either of the two drains. *)
Theorem grid_never_yields_a_key_twice (n : nat) (s : Session) :
  NoDup (keys (yielded react rest_ok n AtStart s)).
Proof.
  apply (yielded_keys_distinct n AtStart s []); [reflexivity|constructor].
Qed.

Lemma lacking_node_throws (d : Document) (e : Elem) :
  lacks_instance d e ->
  reactInstanceFromDOMElem d (Some e)
  = inl (Error "Could not find react internal key").
Proof.
  unfold lacks_instance, reactInstanceFromDOMElem. intros H.
  induction (own_props d e) as [|kv l IH]; [reflexivity|].
  cbn [List.find]. rewrite (H kv) by (left).
  apply IH. intros kv' Hkv'. apply H. right. exact Hkv'.
Qed.

Lemma node_throws_only_that (d : Document) (e : Elem) (exn : Exn) :
  reactInstanceFromDOMElem d (Some e) = inl exn ->
  exn = Error "Could not find react internal key".
Proof.
  unfold reactInstanceFromDOMElem.
  destruct (List.find _ _) as [[name instance]|]; [discriminate|].
  intros H. injection H as <-. reflexivity.
Qed.

Lemma pass_over_lacking_node_throws (d : Document) (elems : list Elem)
    (seenPins : gset Key) (e : Elem) :
  e ∈ elems -> lacks_instance d e ->
  reactInstancesFromElements d elems seenPins
  = inl (Error "Could not find react internal key").
Proof.
  intros He Hl. revert seenPins.
  induction elems as [|e' elems IH]; intros seenPins; [inversion He|].
  cbn [reactInstancesFromElements].
  destruct (reactInstanceFromDOMElem d (Some e')) as [exn|instance] eqn:Hi.
  - apply node_throws_only_that in Hi. subst exn. reflexivity.
  - apply elem_of_cons in He as [->|He].
    + rewrite (lacking_node_throws _ _ Hl) in Hi. discriminate.
    + destruct (keySelector seenPins (key instance)) as [select seen1].
      rewrite (IH He). reflexivity.
Qed.

(** C8. The grid visitor raises to the host instead of skipping. When the
    parent of the first grid item is not the node the container query gives,
    the first call of the handler rejects with the error "wrong container".
    A node without a rendering record makes [reactInstanceFromDOMElem] throw
    "Could not find react internal key"; when such a node is among the
    container's children, the pass that reads them throws it, so the call of
    the handler that starts that pass rejects with it: at the start of the
    session, and whenever the pins of the previous pass are consumed, in
    either of the two drains. The same holds when the container itself has no record. *)
Theorem grid_invariant_violations_are_fatal (s : Session) :
  (forall firstChild,
     querySelector (doc s) gridImage = Some firstChild ->
     parentElement (doc s) firstChild <> querySelector (doc s) gridContainer ->
     WRIteratorHandler react rest_ok AtStart s
     = Rejected (Error "wrong container") Completed s)
  /\ (forall e,
        lacks_instance (doc s) e ->
        reactInstanceFromDOMElem (doc s) (Some e)
        = inl (Error "Could not find react internal key"))
  /\ (forall phase pinContainerR seenPins e,
        e ∈ childNodes (doc s) (stateNode pinContainerR) ->
        lacks_instance (doc s) e ->
        WRIteratorHandler react rest_ok
          (AtPinYield phase pinContainerR seenPins []) s
        = Rejected (Error "Could not find react internal key") Completed s)
  /\ (forall container pinContainerR e,
        getGridContainer (doc s) = inr container ->
        reactInstanceFromDOMElem (doc s) container = inr pinContainerR ->
        e ∈ childNodes (doc s) (stateNode pinContainerR) ->
        lacks_instance (doc s) e ->
        WRIteratorHandler react rest_ok AtStart s
        = Rejected (Error "Could not find react internal key") Completed s)
  /\ (forall container,
        getGridContainer (doc s) = inr (Some container) ->
        lacks_instance (doc s) container ->
        WRIteratorHandler react rest_ok AtStart s
        = Rejected (Error "Could not find react internal key") Completed s).
Proof.
  repeat split.
  - intros firstChild Hq Hne. unfold WRIteratorHandler. cbn [next].
    unfold iteratePins, getGridContainer. rewrite Hq.
    rewrite bool_decide_eq_false_2 by exact Hne. reflexivity.
  - apply lacking_node_throws.
  - intros phase R seenPins e He Hl. unfold WRIteratorHandler.
    destruct phase; cbn [next consumePins];
      unfold first_drain_again, second_drain_again, getRenderedPins;
      rewrite (pass_over_lacking_node_throws _ _ _ _ He Hl); reflexivity.
  - intros container R e Hc HR He Hl. unfold WRIteratorHandler. cbn [next].
    unfold iteratePins, getRenderedPins. rewrite Hc, HR.
    rewrite (pass_over_lacking_node_throws _ _ _ _ He Hl). reflexivity.
  - intros container Hc Hl. unfold WRIteratorHandler. cbn [next].
    unfold iteratePins. rewrite Hc, (lacking_node_throws _ _ Hl).
    reflexivity.
Qed.

End GridRun.

Section GridExamples.
Import Browser Grid.

(** The two failures on the demo grid. *)
Lemma grid_invariant_violations_are_fatal_witness :
  WRIteratorHandler GridDemo.react Url.plain_rest_ok AtStart
    (GridDemo.start GridDemo.page_wrong_container)
  = Rejected (Error "wrong container") Completed
      (GridDemo.start GridDemo.page_wrong_container)
  /\ WRIteratorHandler GridDemo.react Url.plain_rest_ok AtStart
       (GridDemo.start GridDemo.page_missing_handle)
     = Rejected (Error "Could not find react internal key") Completed
         (GridDemo.start GridDemo.page_missing_handle).
Proof.
  split.
  - apply (proj1 (grid_invariant_violations_are_fatal GridDemo.react
                    Url.plain_rest_ok
                    (GridDemo.start GridDemo.page_wrong_container)) 1%nat).
    + reflexivity.
    + discriminate.
  - apply (proj1 (proj2 (proj2 (proj2
             (grid_invariant_violations_are_fatal GridDemo.react
                Url.plain_rest_ok
                (GridDemo.start GridDemo.page_missing_handle)))))
             (Some GridDemo.container_div)
             (GridDemo.fiber_of GridDemo.container_div) 2%nat).
    + reflexivity.
    + reflexivity.
    + cbn. right. left.
    + intros kv Hkv. inversion Hkv.
Defined.

End GridExamples.

(* ===================================================================== *)
(** * Part III: further properties of the code                            *)
(* ===================================================================== *)

(** What the runners keep and do beyond what the specification states:
    the registry of links, the marker of visited tweets, the overlay, the
    passes over the grid, rejections, and the XPath query function. *)

(** ** Trimming *)

Lemma trimEnd_idempotent (s : jsstring) : JS.trimEnd (JS.trimEnd s) = JS.trimEnd s.
Proof.
  induction s as [|c s IH]; [reflexivity|]. cbn [JS.trimEnd].
  destruct (JS.trimEnd s) as [|d r] eqn:Hs.
  - destruct (JS.is_js_whitespace c) eqn:Hc; [reflexivity|].
    cbn [JS.trimEnd]. rewrite Hc. reflexivity.
  - cbn [JS.trimEnd]. cbn [JS.trimEnd] in IH. rewrite IH. reflexivity.
Qed.

Lemma trimEnd_head (c : N) (s : jsstring) :
  JS.is_js_whitespace c = false -> exists r, JS.trimEnd (c :: s) = c :: r.
Proof.
  intros Hc. cbn [JS.trimEnd]. rewrite Hc.
  destruct (JS.trimEnd s); eauto.
Qed.

Lemma trimStart_head (s : jsstring) :
  JS.trimStart s = []
  \/ exists c r, JS.trimStart s = c :: r /\ JS.is_js_whitespace c = false.
Proof.
  induction s as [|c s IH]; [left; reflexivity|]. cbn [JS.trimStart].
  destruct (JS.is_js_whitespace c) eqn:Hc; [exact IH|]. right. eauto.
Qed.

Lemma trim_idempotent (s : jsstring) : JS.trim (JS.trim s) = JS.trim s.
Proof.
  unfold JS.trim. destruct (trimStart_head s) as [->|(c & r & -> & Hc)];
    [reflexivity|].
  destruct (trimEnd_head c r Hc) as [r' Hr]. rewrite Hr.
  cbn [JS.trimStart]. rewrite Hc, <- Hr. apply trimEnd_idempotent.
Qed.

(** ** The class attribute as a set of tokens *)

Section ClassTokens.
Import Browser.

Lemma valid_token_spec (t : jsstring) :
  Tokens.valid_token t = true <-> t <> [] /\ Tokens.no_whitespace t = true.
Proof.
  unfold Tokens.valid_token. rewrite andb_true_iff.
  destruct t; cbn [JS.truthy_str]; intuition congruence.
Qed.

Lemma split_on_whitespace_token (t r token : jsstring) :
  Tokens.no_whitespace t = true ->
  split_on_whitespace token (t ++ r) = split_on_whitespace (token ++ t) r.
Proof.
  revert token. induction t as [|c t IH]; intros token H.
  - rewrite app_nil_r. reflexivity.
  - cbn in H. apply andb_true_iff in H as [Hc Ht].
    cbn [app split_on_whitespace]. apply negb_true_iff in Hc. rewrite Hc.
    rewrite (IH _ Ht), <- app_assoc. reflexivity.
Qed.

(** Parsing what [serialize] wrote gives the tokens back. *)
Lemma split_serialize (tokens : list jsstring) :
  Forall (fun t => Tokens.valid_token t = true) tokens ->
  split_on_whitespace [] (serialize tokens) = tokens.
Proof.
  induction 1 as [|t r Ht Hr IH]; [reflexivity|].
  apply valid_token_spec in Ht as [Hne Hnw].
  destruct r as [|t' r].
  - cbn [serialize]. rewrite <- (app_nil_r t) at 1.
    rewrite (split_on_whitespace_token _ _ _ Hnw). cbn.
    destruct t; [congruence|reflexivity].
  - change (serialize (t :: t' :: r)) with (t ++ 32%N :: serialize (t' :: r)).
    rewrite (split_on_whitespace_token _ _ _ Hnw).
    cbn [app split_on_whitespace]. change (is_ascii_whitespace 32) with true.
    cbn match. rewrite IH. destruct t; [congruence|reflexivity].
Qed.

Lemma split_on_whitespace_valid (s token : jsstring) :
  Tokens.no_whitespace token = true ->
  Forall (fun t => Tokens.valid_token t = true) (split_on_whitespace token s).
Proof.
  revert token. induction s as [|c s IH]; intros token H.
  - cbn. destruct token as [|c' r]; constructor; [|constructor].
    apply valid_token_spec. split; [discriminate|exact H].
  - cbn [split_on_whitespace]. destruct (is_ascii_whitespace c) eqn:Hc.
    + destruct token as [|c' r]; [apply IH; reflexivity|].
      constructor; [|apply IH; reflexivity].
      apply valid_token_spec. split; [discriminate|exact H].
    + apply IH. unfold Tokens.no_whitespace. rewrite forallb_app. cbn.
      rewrite Hc. cbn. rewrite andb_true_r. exact H.
Qed.

Lemma keep_first_elem (seen tokens : list jsstring) (t : jsstring) :
  t ∈ keep_first seen tokens <-> t ∈ tokens /\ t ∉ seen.
Proof.
  revert seen. induction tokens as [|t' r IH]; intros seen; cbn [keep_first].
  - split; [intros H; inversion H|intros [H _]; inversion H].
  - case_bool_decide as Hs.
    + rewrite IH, elem_of_cons. split; [intuition|].
      intros [[->|H] Hn]; [contradiction|auto].
    + rewrite !elem_of_cons, IH, elem_of_app, list_elem_of_singleton.
      split.
      * intros [->|[H Hn]]; [auto|]. split; [auto|]. intros Hin. apply Hn. auto.
      * intros [[->|H] Hn]; [auto|].
        destruct (decide (t = t')) as [->|Hne]; [auto|].
        right. split; [exact H|]. intros [Hin|Heq]; auto.
Qed.

Lemma keep_first_NoDup (seen tokens : list jsstring) :
  NoDup (keep_first seen tokens).
Proof.
  revert seen. induction tokens as [|t r IH]; intros seen; cbn [keep_first];
    [constructor|].
  case_bool_decide as Hs; [apply IH|]. constructor; [|apply IH].
  rewrite keep_first_elem, elem_of_app, list_elem_of_singleton. intros [_ Hn].
  apply Hn. auto.
Qed.

Lemma keep_first_sublist (seen tokens : list jsstring) :
  keep_first seen tokens `sublist_of` tokens.
Proof.
  revert seen. induction tokens as [|t r IH]; intros seen; cbn [keep_first];
    [constructor|].
  case_bool_decide; [apply sublist_cons, IH|apply sublist_skip, IH].
Qed.

Lemma keep_first_NoDup_id (seen tokens : list jsstring) :
  NoDup tokens -> (forall t, t ∈ tokens -> t ∉ seen) ->
  keep_first seen tokens = tokens.
Proof.
  intros Hnd. revert seen. induction Hnd as [|t r Hnot Hnd IH]; intros seen Hd;
    [reflexivity|].
  cbn [keep_first]. rewrite bool_decide_eq_false_2 by (apply Hd; left).
  f_equal. apply IH. intros t' Hin.
  rewrite elem_of_app, list_elem_of_singleton. intros [Hs| ->].
  - apply (Hd t'); [right; exact Hin|exact Hs].
  - contradiction.
Qed.

Lemma ordered_set_parser_valid (attr : jsstring) :
  Forall (fun t => Tokens.valid_token t = true) (ordered_set_parser attr).
Proof.
  unfold ordered_set_parser.
  apply Forall_forall. intros t Ht.
  pose proof (elem_of_sublist _ _ _ Ht (keep_first_sublist _ _)) as Hin.
  clear Ht. revert t Hin. apply Forall_forall.
  apply split_on_whitespace_valid. reflexivity.
Qed.

Lemma ordered_set_parser_NoDup (attr : jsstring) : NoDup (ordered_set_parser attr).
Proof. apply keep_first_NoDup. Qed.

Lemma parse_serialize (tokens : list jsstring) :
  Forall (fun t => Tokens.valid_token t = true) tokens -> NoDup tokens ->
  ordered_set_parser (serialize tokens) = tokens.
Proof.
  intros Hv Hnd. unfold ordered_set_parser. rewrite (split_serialize _ Hv).
  apply keep_first_NoDup_id; [exact Hnd|]. intros t _ H. inversion H.
Qed.

Lemma parse_classList_add (attr token : jsstring) :
  Tokens.valid_token token = true ->
  ordered_set_parser (classList_add attr token)
  = if bool_decide (token ∈ ordered_set_parser attr)
    then ordered_set_parser attr
    else ordered_set_parser attr ++ [token].
Proof.
  intros Hv. unfold classList_add.
  pose proof (ordered_set_parser_valid attr) as Hva.
  pose proof (ordered_set_parser_NoDup attr) as Hnd.
  case_bool_decide as Hin; apply parse_serialize; try assumption.
  - apply Forall_app. split; [exact Hva|]. constructor; [exact Hv|constructor].
  - apply NoDup_app. split; [exact Hnd|]. split; [|apply NoDup_singleton].
    intros t Ht Hs. apply list_elem_of_singleton in Hs as ->. contradiction.
Qed.

Lemma parse_classList_remove (attr token : jsstring) :
  ordered_set_parser (classList_remove attr token)
  = List.filter (fun t => negb (JS.str_eqb t token)) (ordered_set_parser attr).
Proof.
  unfold classList_remove. apply parse_serialize.
  - apply Forall_forall. intros t Ht.
    apply list_elem_of_In, filter_In in Ht as [Ht _].
    apply list_elem_of_In in Ht. revert t Ht. apply Forall_forall.
    apply ordered_set_parser_valid.
  - generalize (ordered_set_parser_NoDup attr).
    generalize (ordered_set_parser attr). intros l Hnd.
    induction Hnd as [|t r Hnot Hnd IH]; [constructor|].
    cbn [List.filter]. destruct (negb _); [|exact IH].
    constructor; [|exact IH]. intros Hin. apply Hnot.
    apply list_elem_of_In, filter_In in Hin as [Hin _].
    apply list_elem_of_In, Hin.
Qed.

End ClassTokens.

(** ** The registry during a session *)

Lemma collect_one_prefix (rest_ok : jsstring -> jsstring -> bool)
    (c : jsstring) (registry : list jsstring) :
  registry `prefix_of` Reference.collect_one rest_ok c registry.
Proof.
  unfold Reference.collect_one. destruct (_ && _).
  - apply prefix_app_r. reflexivity.
  - reflexivity.
Qed.

Lemma collect_one_well_kept (rest_ok : jsstring -> jsstring -> bool)
    (c : jsstring) (registry : list jsstring) :
  Registry.well_kept rest_ok registry ->
  Registry.well_kept rest_ok (Reference.collect_one rest_ok c registry).
Proof.
  intros [Hnd Hall]. split; [apply collect_one_NoDup, Hnd|].
  intros s Hs. apply collect_one_elem in Hs as [Hs|(-> & Hne & Hp & Hh)];
    [apply Hall, Hs|].
  repeat split; try assumption. apply trim_idempotent.
Qed.

(** The collector's walk over a node list is [addOutLinks] on the HTML
    anchors and areas it gets through, whether it throws or not. *)
Lemma grid_addOutLinks_of_nodes_batch (rest_ok : jsstring -> jsstring -> bool)
    (toAdd : list Browser.Linked) (this : Grid.OutLinkCollector) :
  exists l,
    match Grid.addOutLinks_of_nodes rest_ok toAdd this with
    | inl (e, this') =>
        e = Browser.TypeError /\ this' = Grid.addOutLinks rest_ok l this
    | inr this' => this' = Grid.addOutLinks rest_ok l this
    end.
Proof.
  induction toAdd as [|n toAdd [l IH]]; [exists []; reflexivity|].
  cbn [Grid.addOutLinks_of_nodes].
  destruct (Grid.addOutLinks_of_nodes rest_ok toAdd this) as [[e this']|this'].
  - exists l. exact IH.
  - subst this'. destruct n as [a|].
    + exists (a :: l). reflexivity.
    + exists l. split; reflexivity.
Qed.

Lemma grid_addOutLinks_of_nodes_html (rest_ok : jsstring -> jsstring -> bool)
    (l : list Browser.Anchor) (this : Grid.OutLinkCollector) :
  Grid.addOutLinks_of_nodes rest_ok (map Browser.HTMLAnchorOrArea l) this
  = inr (Grid.addOutLinks rest_ok l this).
Proof.
  induction l as [|a l IH]; [reflexivity|].
  cbn [map Grid.addOutLinks_of_nodes]. rewrite IH. reflexivity.
Qed.

Section RegistryInGridSession.
Import Browser Grid.
Variable react : list Action -> Action -> Document -> Document.
Variable rest_ok : jsstring -> jsstring -> bool.
Variable Q : list jsstring -> Prop.
Hypothesis Q_collect :
  forall c registry, Q registry -> Q (Reference.collect_one rest_ok c registry).

Lemma grid_addOutLinks_keeps toAdd this :
  tables_intact this /\ Q (outlinks this) ->
  tables_intact (addOutLinks rest_ok toAdd this)
  /\ Q (outlinks (addOutLinks rest_ok toAdd this)).
Proof.
  intros [Ht Hq].
  destruct (grid_addOutLinks_spec rest_ok toAdd this Ht) as [Ht' Ho].
  split; [exact Ht'|]. rewrite Ho.
  generalize (map href toAdd).
  intros cs. induction cs as [|c cs IH]; [exact Hq|].
  cbn [foldr]. apply Q_collect, IH.
Qed.

Lemma collectFrom_keeps queryFrom s :
  Observed.grid_kept Q s ->
  match collectFrom rest_ok queryFrom s with
  | inl (_, s') | inr s' => Observed.grid_kept Q s'
  end.
Proof.
  intros H. unfold collectFrom.
  destruct (grid_addOutLinks_of_nodes_batch rest_ok
              (querySelectorAll_outlinks (doc s) queryFrom) (OLC s)) as [l Hl].
  destruct (addOutLinks_of_nodes rest_ok _ _) as [[e this]|this];
    [destruct Hl as [_ ->]|subst this]; apply grid_addOutLinks_keeps, H.
Qed.

Lemma yield_pin_keeps phase R seenPins pin pins s :
  Observed.grid_kept Q s ->
  Observed.after_grid (Observed.grid_kept Q)
    (yield_pin react rest_ok phase R seenPins pin pins s).
Proof.
  intros H. unfold yield_pin.
  pose proof (collectFrom_keeps (node pin) s H) as Hc.
  destruct (collectFrom rest_ok (node pin) s) as [[e s1]|s1]; exact Hc.
Qed.

Lemma second_drain_again_keeps R seenPins s :
  Observed.grid_kept Q s ->
  Observed.after_grid (Observed.grid_kept Q)
    (second_drain_again react rest_ok R seenPins s).
Proof.
  intros H. unfold second_drain_again.
  destruct (getRenderedPins _ _ _) as [e|[[|p pins] seen1]];
    [exact H|exact H|apply yield_pin_keeps, H].
Qed.

Lemma first_drain_again_keeps R seenPins s :
  Observed.grid_kept Q s ->
  Observed.after_grid (Observed.grid_kept Q)
    (first_drain_again react rest_ok R seenPins s).
Proof.
  intros H. unfold first_drain_again.
  destruct (getRenderedPins _ _ seenPins) as [e|[[|p pins] seen1]];
    [exact H| |apply yield_pin_keeps, H].
  destruct (getRenderedPins _ _ seen1) as [e|[[|p pins] seen2]];
    [exact H|apply second_drain_again_keeps, H|apply yield_pin_keeps, H].
Qed.

Lemma grid_next_keeps g s :
  Observed.grid_kept Q s ->
  Observed.after_grid (Observed.grid_kept Q)
    (next react rest_ok g s).
Proof.
  intros H. destruct g as [|phase R seenPins pins|]; cbn [next].
  - unfold iteratePins.
    destruct (getGridContainer (doc s)) as [e|c]; [exact H|].
    destruct (reactInstanceFromDOMElem (doc s) c) as [e|R]; [exact H|].
    destruct (getRenderedPins _ _ _) as [e|[[|p pins] seen1]]; cbn [consumePins];
      [exact H|apply first_drain_again_keeps, H|apply yield_pin_keeps, H].
  - destruct pins as [|p pins]; cbn [consumePins]; [|apply yield_pin_keeps, H].
    destruct phase;
      [apply first_drain_again_keeps, H|apply second_drain_again_keeps, H].
  - exact H.
Qed.

End RegistryInGridSession.

Lemma prefix_and_well_kept_collect (rest_ok : jsstring -> jsstring -> bool)
    (l0 : list jsstring) (c : jsstring) (registry : list jsstring) :
  l0 `prefix_of` registry /\ Registry.well_kept rest_ok registry ->
  l0 `prefix_of` Reference.collect_one rest_ok c registry
  /\ Registry.well_kept rest_ok (Reference.collect_one rest_ok c registry).
Proof.
  intros [Hp Hw]. split; [|apply collect_one_well_kept, Hw].
  etransitivity; [exact Hp|apply collect_one_prefix].
Qed.

Lemma well_kept_nil (rest_ok : jsstring -> jsstring -> bool) :
  Registry.well_kept rest_ok [].
Proof. split; [constructor|]. intros s Hs. inversion Hs. Qed.

(** X2. Whatever the page does, a step of the timeline runner never removes
    or reorders a link: the registry it leaves starts with the registry it
    found. And it keeps the registry in order: no string twice, every string
    non-empty, trimmed, free of the ignore prefixes and parsing as an
    absolute [http] or [https] URL. *)
Theorem timeline_step_keeps_registry
    (react : list Browser.Action -> Browser.Action -> Timeline.Document ->
             Timeline.Document)
    (rest_ok : jsstring -> jsstring -> bool) (baseURI : jsstring) (fuel : nat)
    (g : Timeline.Suspended) (s : Timeline.Session) :
  Registry.well_kept rest_ok (Timeline.outlinks (Timeline.links s)) ->
  Observed.after_timeline
    (fun s' =>
       Timeline.outlinks (Timeline.links s)
         `prefix_of` Timeline.outlinks (Timeline.links s')
       /\ Registry.well_kept rest_ok (Timeline.outlinks (Timeline.links s')))
    (Timeline.next react rest_ok baseURI fuel g s).
Proof.
  intros H.
  apply (next_keeps react rest_ok
           (fun s' =>
              Timeline.outlinks (Timeline.links s)
                `prefix_of` Timeline.outlinks (Timeline.links s')
              /\ Registry.well_kept rest_ok (Timeline.outlinks (Timeline.links s')))).
  - intros a s0 H0. exact H0.
  - intros e t s0 _ H0. exact H0.
  - intros e t s0 _ H0. exact H0.
  - intros toAdd s0 H0. cbn [Timeline.with_links Timeline.links].
    apply (addOutLinks_keeps rest_ok
             (fun l => Timeline.outlinks (Timeline.links s) `prefix_of` l
                       /\ Registry.well_kept rest_ok l));
      [|exact H0].
    intros c l. apply prefix_and_well_kept_collect.
  - split; [reflexivity|exact H].
Qed.

(** The first step on the demo page collects the tweet's link. *)
Lemma timeline_step_keeps_registry_witness :
  Registry.well_kept Url.plain_rest_ok
    (Timeline.outlinks (Timeline.links (Demo.start Demo.plain 2000)))
  /\ Observed.after_timeline
       (fun s' =>
          Timeline.outlinks (Timeline.links (Demo.start Demo.plain 2000))
            `prefix_of` Timeline.outlinks (Timeline.links s')
          /\ Registry.well_kept Url.plain_rest_ok
               (Timeline.outlinks (Timeline.links s')))
       (Timeline.next Demo.react Url.plain_rest_ok Demo.home 5 Timeline.AtStart
          (Demo.start Demo.plain 2000))
  /\ exists g' s',
       Timeline.next Demo.react Url.plain_rest_ok Demo.home 5 Timeline.AtStart
         (Demo.start Demo.plain 2000)
       = Timeline.Yield false g' s'
       /\ Timeline.outlinks (Timeline.links s') = [JS.str "https://x.com/a"].
Proof.
  split; [apply well_kept_nil|]. split.
  - apply (timeline_step_keeps_registry Demo.react Url.plain_rest_ok Demo.home 5
             Timeline.AtStart (Demo.start Demo.plain 2000)).
    apply well_kept_nil.
  - eexists _, _. split; vm_compute; reflexivity.
Defined.

(** X3. The same for the grid runner and its collector, whose tables no
    step changes: whatever the page does, and also when the call throws, the
    registry a call leaves starts with the registry it found, holds no
    string twice, and holds only non-empty, trimmed strings free of the
    ignore prefixes that parse as absolute [http] or [https] URLs. *)
Theorem grid_step_keeps_registry
    (react : list Browser.Action -> Browser.Action -> Grid.Document ->
             Grid.Document)
    (rest_ok : jsstring -> jsstring -> bool)
    (g : Grid.Suspended) (s : Grid.Session) :
  tables_intact (Grid.OLC s) ->
  Registry.well_kept rest_ok (Grid.outlinks (Grid.OLC s)) ->
  Observed.after_grid
    (fun s' =>
       tables_intact (Grid.OLC s')
       /\ Grid.outlinks (Grid.OLC s) `prefix_of` Grid.outlinks (Grid.OLC s')
       /\ Registry.well_kept rest_ok (Grid.outlinks (Grid.OLC s')))
    (Grid.next react rest_ok g s).
Proof.
  intros Ht H.
  apply (grid_next_keeps react rest_ok
           (fun l => Grid.outlinks (Grid.OLC s) `prefix_of` l
                     /\ Registry.well_kept rest_ok l)).
  - intros c l. apply prefix_and_well_kept_collect.
  - split; [exact Ht|]. split; [reflexivity|exact H].
Qed.

(** A collector that holds one link already meets a pin with four: the link
    it holds, a [mailto:] link, and a new link twice, once with spaces
    around it. The call keeps the link it held in front and adds the new
    link once. On the second page the pin holds an SVG link between two
    HTML links: the call throws, the link after the SVG one collected. *)
Lemma grid_step_keeps_registry_witness :
  Observed.after_grid
    (fun s' =>
       tables_intact (Grid.OLC s')
       /\ Grid.outlinks
            (Grid.OLC (GridDemo.start_holding GridDemo.page_with_links [Scenario.a]))
            `prefix_of` Grid.outlinks (Grid.OLC s')
       /\ Registry.well_kept Url.plain_rest_ok (Grid.outlinks (Grid.OLC s')))
    (Grid.next GridDemo.react Url.plain_rest_ok Grid.AtStart
       (GridDemo.start_holding GridDemo.page_with_links [Scenario.a]))
  /\ match Grid.next GridDemo.react Url.plain_rest_ok Grid.AtStart
             (GridDemo.start_holding GridDemo.page_with_links [Scenario.a]) with
     | Grid.Yield pin _ s' =>
         Grid.node pin = 1%nat
         /\ Grid.outlinks (Grid.OLC s') = [Scenario.a; Scenario.b]
     | _ => False
     end
  /\ match Grid.next GridDemo.react Url.plain_rest_ok Grid.AtStart
             (GridDemo.start_holding GridDemo.page_with_svg_link [Scenario.a]) with
     | Grid.Throw e s' =>
         e = Browser.TypeError
         /\ Grid.outlinks (Grid.OLC s') = [Scenario.a; Scenario.b]
     | _ => False
     end.
Proof.
  assert (Ht : tables_intact
                 (Grid.OLC (GridDemo.start_holding GridDemo.page_with_links
                              [Scenario.a])))
    by (split; reflexivity).
  assert (Hw : Registry.well_kept Url.plain_rest_ok
                 (Grid.outlinks
                    (Grid.OLC (GridDemo.start_holding GridDemo.page_with_links
                                 [Scenario.a])))).
  { split; [apply NoDup_singleton|]. intros l Hl.
    apply list_elem_of_singleton in Hl as ->.
    split; [discriminate|]. repeat split; vm_compute; reflexivity. }
  split; [exact (grid_step_keeps_registry GridDemo.react Url.plain_rest_ok
                   Grid.AtStart _ Ht Hw)|].
  split; vm_compute; repeat split; reflexivity.
Defined.

(** ** A pass over the rendered records *)

Section GridPass.
Import Browser Grid.

Lemma pass_covers (d : Document) (elems : list Elem)
    (seenPins seenPins' : gset Key) (pins : list Rendered) :
  reactInstancesFromElements d elems seenPins = inr (pins, seenPins') ->
  map node pins `sublist_of` elems
  /\ (forall pin, pin ∈ pins ->
        reactInstanceFromDOMElem d (Some (node pin)) = inr (reactInstance pin))
  /\ (forall e, e ∈ elems ->
        exists instance,
          reactInstanceFromDOMElem d (Some e) = inr instance
          /\ key instance ∈ seenPins').
Proof.
  revert seenPins seenPins' pins.
  induction elems as [|e elems IH]; intros seen seen' pins H;
    cbn [reactInstancesFromElements] in H.
  - injection H as <- <-. split; [constructor|]. split.
    + intros pin Hp. inversion Hp.
    + intros e He. inversion He.
  - destruct (reactInstanceFromDOMElem d (Some e)) as [exn|instance] eqn:Hi;
      [discriminate|].
    unfold keySelector in H. cbv zeta in H.
    destruct (reactInstancesFromElements d elems _) as [exn|[pins0 seen0]] eqn:Hr;
      [discriminate|].
    injection H as <- <-.
    pose proof (reactInstancesFromElements_keys _ _ _ _ _ Hr) as (_ & _ & Hseen).
    apply IH in Hr as (Hsub & Hinst & Hcov).
    split; [|split].
    + destruct (negb _); cbn [map node].
      * apply sublist_skip, Hsub.
      * apply sublist_cons, Hsub.
    + intros pin Hp. destruct (negb _).
      * apply elem_of_cons in Hp as [->|Hp]; [exact Hi|apply Hinst, Hp].
      * apply Hinst, Hp.
    + intros e' He'. apply elem_of_cons in He' as [->|He']; [|apply Hcov, He'].
      exists instance. split; [exact Hi|]. apply Hseen. left.
      case_bool_decide as Hin; cbn [negb]; [exact Hin|].
      apply elem_of_union. left. apply elem_of_singleton. reflexivity.
Qed.

(** Once every record's key is seen, a pass selects nothing and leaves the
    set as it is. *)
Lemma pass_over_seen_is_empty (d : Document) (elems : list Elem)
    (seenPins : gset Key) :
  (forall e, e ∈ elems ->
     exists instance,
       reactInstanceFromDOMElem d (Some e) = inr instance
       /\ key instance ∈ seenPins) ->
  reactInstancesFromElements d elems seenPins = inr ([], seenPins).
Proof.
  induction elems as [|e elems IH]; intros H; [reflexivity|].
  cbn [reactInstancesFromElements].
  destruct (H e) as (instance & -> & Hk); [left|].
  unfold keySelector. rewrite bool_decide_eq_true_2 by exact Hk. cbn [negb].
  rewrite IH; [reflexivity|]. intros e' He'. apply H. right. exact He'.
Qed.

(** X4. A pass over the container's children that does not throw selects
    children in document order, each with the record found on it; the keys
    selected are pairwise distinct and were not seen before; and after the
    pass the key of every child is seen, so every child either was seen
    before or shares its key with a selected one: a pass misses no new key. *)
Theorem pass_selects_each_new_key_once (d : Document) (elems : list Elem)
    (seenPins seenPins' : gset Key) (pins : list Rendered) :
  reactInstancesFromElements d elems seenPins = inr (pins, seenPins') ->
  map node pins `sublist_of` elems
  /\ (forall pin, pin ∈ pins ->
        reactInstanceFromDOMElem d (Some (node pin)) = inr (reactInstance pin))
  /\ NoDup (keys pins)
  /\ (forall k, k ∈ keys pins -> k ∉ seenPins)
  /\ (forall e, e ∈ elems ->
        exists instance,
          reactInstanceFromDOMElem d (Some e) = inr instance
          /\ (key instance ∈ seenPins \/ key instance ∈ keys pins))
  /\ (forall k, k ∈ seenPins' <-> k ∈ seenPins \/ k ∈ keys pins).
Proof.
  intros H.
  destruct (pass_covers _ _ _ _ _ H) as (Hsub & Hinst & Hcov).
  destruct (reactInstancesFromElements_keys _ _ _ _ _ H) as (Hnd & Hfresh & Hseen).
  repeat split; try assumption; try (apply Hseen).
  intros e He. destruct (Hcov e He) as (instance & Hi & Hk).
  exists instance. split; [exact Hi|]. apply Hseen, Hk.
Qed.

(** On the demo grid the third node repeats the key of the first: the pass
    selects the first two nodes. *)
Lemma pass_selects_each_new_key_once_witness :
  match reactInstancesFromElements GridDemo.page [1; 2; 3]%nat ∅ with
  | inr (pins, _) => map node pins
  | inl _ => []
  end = [1; 2]%nat
  /\ match reactInstancesFromElements GridDemo.page [1; 2; 3]%nat ∅ with
     | inr (pins, _) =>
         map node pins `sublist_of` [1; 2; 3]%nat /\ NoDup (keys pins)
     | inl _ => False
     end.
Proof.
  assert (H1 : match reactInstancesFromElements GridDemo.page [1; 2; 3]%nat ∅ with
               | inr (pins, _) => map node pins
               | inl _ => []
               end = [1; 2]%nat) by (vm_compute; reflexivity).
  split; [exact H1|].
  destruct (reactInstancesFromElements GridDemo.page [1; 2; 3]%nat ∅)
    as [e|[pins seenPins']] eqn:H; [discriminate H1|].
  pose proof (pass_selects_each_new_key_once _ _ _ _ _ H) as (Hs & _ & Hn & _).
  split; assumption.
Defined.

End GridPass.

(** ** The grid session on a page that stands still *)

Section GridStatic.
Import Browser Grid.
Variable react : list Action -> Action -> Document -> Document.
Variable rest_ok : jsstring -> jsstring -> bool.
Hypothesis react_static : forall before a d, react before a d = d.

Lemma yield_pin_static phase R seenPins pin pins s :
  GridSteps.html_links (doc s) (node pin) ->
  exists s',
    yield_pin react rest_ok phase R seenPins pin pins s
    = Yield pin (AtPinYield phase R seenPins pins) s'
    /\ doc s' = doc s.
Proof.
  intros [l Hl]. unfold yield_pin, collectFrom.
  rewrite Hl, grid_addOutLinks_of_nodes_html. eexists. split; [reflexivity|].
  cbn. rewrite !react_static. reflexivity.
Qed.

Lemma drained_returns phase R seenPins s :
  GridSteps.covered (doc s) R seenPins ->
  next react rest_ok (AtPinYield phase R seenPins []) s = Return s.
Proof.
  intros Hc. cbn [next consumePins].
  assert (Hg : getRenderedPins (doc s) R seenPins = inr ([], seenPins))
    by (apply pass_over_seen_is_empty, Hc).
  destruct phase; unfold first_drain_again, second_drain_again;
    rewrite ?Hg; reflexivity.
Qed.

Lemma answers_completed n s :
  GridSteps.answers react rest_ok n Completed s = repeat (inr true) n.
Proof.
  induction n as [|n IH]; [reflexivity|].
  cbn [GridSteps.answers]. unfold WRIteratorHandler. cbn [next repeat].
  rewrite IH. reflexivity.
Qed.

Lemma consuming_run phase R seenPins pins s :
  GridSteps.covered (doc s) R seenPins ->
  (forall pin, pin ∈ pins -> GridSteps.html_links (doc s) (node pin)) ->
  (forall n,
     yielded react rest_ok n (AtPinYield phase R seenPins pins) s = take n pins)
  /\ (forall n,
        GridSteps.answers react rest_ok n (AtPinYield phase R seenPins pins) s
        = repeat (inr false) (min n (length pins))
          ++ repeat (inr true) (n - length pins))
  /\ (forall n, (n <= length pins)%nat ->
        exists s',
          GridSteps.after react rest_ok n (AtPinYield phase R seenPins pins) s
          = (AtPinYield phase R seenPins (drop n pins), s')
          /\ doc s' = doc s).
Proof.
  revert s. induction pins as [|pin pins IH]; intros s Hc Hh.
  - split; [|split].
    + intros [|n]; [reflexivity|]. cbn [yielded].
      rewrite (drained_returns _ _ _ _ Hc). reflexivity.
    + intros [|n]; [reflexivity|]. cbn [GridSteps.answers].
      unfold WRIteratorHandler. rewrite (drained_returns _ _ _ _ Hc).
      rewrite answers_completed. reflexivity.
    + intros n Hn. assert (n = 0%nat) as -> by (cbn in Hn; lia).
      exists s. split; reflexivity.
  - destruct (yield_pin_static phase R seenPins pin pins s (Hh pin ltac:(left)))
      as (s1 & Hy & Hd).
    assert (Hc1 : GridSteps.covered (doc s1) R seenPins) by (rewrite Hd; exact Hc).
    assert (Hh1 : forall p, p ∈ pins -> GridSteps.html_links (doc s1) (node p))
      by (intros p Hp; rewrite Hd; apply Hh; right; exact Hp).
    destruct (IH s1 Hc1 Hh1) as (IHy & IHr & IHa). split; [|split].
    + intros [|n]; [reflexivity|]. cbn [yielded next consumePins].
      rewrite Hy, IHy. reflexivity.
    + intros [|n]; [reflexivity|]. cbn [GridSteps.answers].
      unfold WRIteratorHandler. cbn [next consumePins].
      rewrite Hy, IHr. reflexivity.
    + intros [|n] Hn; [exists s; split; reflexivity|].
      cbn [GridSteps.after]. unfold WRIteratorHandler. cbn [next consumePins].
      rewrite Hy. cbn [length] in Hn.
      destruct (IHa n ltac:(lia)) as (s' & Ha & Hd').
      exists s'. split; [exact Ha|]. rewrite Hd'. exact Hd.
Qed.

(** X5. On a page that does not change and whose pins hold only HTML
    links, a grid session whose first pass selects [pins] yields exactly
    these pins, one per call and in document order; each of these calls
    resolves with [done: false] and leaves the generator suspended in the
    first loop; the call that follows the last of them resolves with
    [done: true], and so does every later call. No call rejects. The keys of
    the pins are pairwise distinct. *)
Theorem static_grid_session (s : Session) (container : option Elem)
    (pinContainerR : Fiber) (pins : list Rendered) (seenPins : gset Key) :
  getGridContainer (doc s) = inr container ->
  reactInstanceFromDOMElem (doc s) container = inr pinContainerR ->
  getRenderedPins (doc s) pinContainerR ∅ = inr (pins, seenPins) ->
  (forall pin, pin ∈ pins -> GridSteps.html_links (doc s) (node pin)) ->
  (forall n, yielded react rest_ok n AtStart s = take n pins)
  /\ (forall n,
        GridSteps.answers react rest_ok n AtStart s
        = repeat (inr false) (min n (length pins))
          ++ repeat (inr true) (n - length pins))
  /\ (forall n, (1 <= n <= length pins)%nat ->
        exists s',
          GridSteps.after react rest_ok n AtStart s
          = (AtPinYield FirstDrain pinContainerR seenPins (drop n pins), s'))
  /\ NoDup (keys pins).
Proof.
  intros Hc HR Hp Hh.
  assert (Hcov : GridSteps.covered (doc s) pinContainerR seenPins)
    by (destruct (pass_covers _ _ _ _ _ Hp) as (_ & _ & H); exact H).
  assert (Hstart : next react rest_ok AtStart s
                   = next react rest_ok
                       (AtPinYield FirstDrain pinContainerR seenPins pins) s).
  { cbn [next]. unfold iteratePins. rewrite Hc, HR, Hp. reflexivity. }
  destruct (consuming_run FirstDrain pinContainerR seenPins pins s Hcov Hh)
    as (Hy & Hr & Ha).
  split; [|split; [|split]].
  - intros [|n]; [reflexivity|]. rewrite <- Hy. cbn [yielded].
    rewrite Hstart. reflexivity.
  - intros [|n]; [reflexivity|]. rewrite <- Hr. cbn [GridSteps.answers].
    unfold WRIteratorHandler. rewrite Hstart. reflexivity.
  - intros [|n] Hn; [lia|].
    destruct (Ha (S n) ltac:(lia)) as (s' & Hs' & _). exists s'.
    rewrite <- Hs'. cbn [GridSteps.after]. unfold WRIteratorHandler.
    rewrite Hstart. reflexivity.
  - apply (reactInstancesFromElements_keys _ _ _ _ _ Hp).
Qed.

End GridStatic.

Section GridStaticExample.
Import Browser Grid.

(** The demo grid stands still: its session yields the nodes 1 and 2, the
    third node repeating the key of the first, and is done with the third
    call. *)
Lemma static_grid_session_witness :
  map node (yielded GridDemo.react Url.plain_rest_ok 5 AtStart
              (GridDemo.start GridDemo.page)) = [1; 2]%nat
  /\ GridSteps.answers GridDemo.react Url.plain_rest_ok 4 AtStart
       (GridDemo.start GridDemo.page)
     = [inr false; inr false; inr true; inr true]
  /\ match getRenderedPins GridDemo.page
             (GridDemo.fiber_of GridDemo.container_div) ∅ with
     | inr (pins, _) =>
         yielded GridDemo.react Url.plain_rest_ok 5 AtStart
           (GridDemo.start GridDemo.page) = take 5 pins
         /\ GridSteps.answers GridDemo.react Url.plain_rest_ok 4 AtStart
              (GridDemo.start GridDemo.page)
            = repeat (inr false) (min 4 (length pins))
              ++ repeat (inr true) (4 - length pins)
     | inl _ => False
     end.
Proof.
  split; [vm_compute; reflexivity|]. split; [vm_compute; reflexivity|].
  assert (H1 : match getRenderedPins GridDemo.page
                       (GridDemo.fiber_of GridDemo.container_div) ∅ with
               | inr _ => true
               | inl _ => false
               end = true) by (vm_compute; reflexivity).
  destruct (getRenderedPins GridDemo.page
              (GridDemo.fiber_of GridDemo.container_div) ∅)
    as [e|[pins seenPins]] eqn:H; [discriminate H1|].
  pose proof (static_grid_session GridDemo.react Url.plain_rest_ok
                (fun _ _ _ => eq_refl) (GridDemo.start GridDemo.page)
                (Some GridDemo.container_div)
                (GridDemo.fiber_of GridDemo.container_div) pins seenPins
                eq_refl eq_refl H) as Hs.
  destruct Hs as (Hy & Hr & _ & _).
  - intros pin _. exists []. reflexivity.
  - split; [apply Hy|apply Hr].
Defined.

End GridStaticExample.

(** ** Opening and closing the overlay *)

Section OpenAndClose.
Import Browser Timeline.
Variable react : list Action -> Action -> Document -> Document.
Variable rest_ok : jsstring -> jsstring -> bool.

(** What a resolved wait went through: at least one firing, nothing but
    firings, and the predicate answered [true] at the last of them. [J] is
    any property of what the predicate closes over that it keeps. *)
Lemma waitForPredicate_resolved {C : Type} (J : C -> Prop)
    (predicate : C * Session -> (Exn + bool) * (C * Session)) fuel x y :
  (forall x, trace (snd (snd (predicate x))) = trace (snd x)) ->
  (forall x, links (snd (snd (predicate x))) = links (snd x)) ->
  (forall x, J (fst x) -> J (fst (snd (predicate x)))) ->
  J (fst x) ->
  waitForPredicate react predicate fuel x = Some y ->
  exists n x0,
    (n < fuel)%nat /\ J (fst x0)
    /\ trace (snd x0) = trace (snd x) ++ repeat (Elapse 1000) (S n)
    /\ links (snd x0) = links (snd x)
    /\ predicate x0 = (inr true, y).
Proof.
  intros Ht Hl HJ. revert x. induction fuel as [|fuel IH]; intros x Hx H;
    [discriminate|].
  cbn [waitForPredicate] in H.
  set (x1 := (fst x, delay react 1000 (snd x))) in *.
  pose proof (Ht x1) as Ht1. pose proof (Hl x1) as Hl1.
  pose proof (HJ x1 Hx) as HJ1.
  destruct (predicate x1) as [r x'] eqn:Hp. cbn [snd fst] in Ht1, Hl1, HJ1.
  assert (Hmore : r <> inr true ->
            exists n x0,
              (n < S fuel)%nat /\ J (fst x0)
              /\ trace (snd x0) = trace (snd x) ++ repeat (Elapse 1000) (S n)
              /\ links (snd x0) = links (snd x)
              /\ predicate x0 = (inr true, y)).
  { intros Hr.
    assert (Hw : waitForPredicate react predicate fuel x' = Some y)
      by (destruct r as [e|[|]]; [exact H|congruence|exact H]).
    destruct (IH x' HJ1 Hw) as (n & x0 & Hn & Hj & Htr & Hlk & Hx0).
    exists (S n), x0. repeat split; try assumption; [lia| |].
    - rewrite Htr, Ht1. cbn. rewrite <- app_assoc. reflexivity.
    - rewrite Hlk, Hl1. reflexivity. }
  destruct r as [e|[|]]; [apply Hmore; discriminate| |apply Hmore; discriminate].
  injection H as <-. exists 0%nat, x1.
  repeat split; try assumption; try reflexivity. lia.
Qed.

Lemma openFullTweet_inversion this fuel s clicked this' s' :
  openFullTweet react this fuel s = Fulfilled (clicked, (this', s')) ->
  clicked = true
  /\ exists o n,
       (n < fuel)%nat
       /\ this' = set_fullTweetOverlay this (Some o)
       /\ permalink_overlay (doc s') = Some o
       /\ JS.endsWith (baseURI (doc s'))
            (JS.toString (permalinkPath (doc s) (container this))) = true
       /\ trace s'
          = trace s ++ [MouseOver (container this); Click (container this)]
              ++ repeat (Elapse 1000) (S n)
       /\ links s' = links s.
Proof.
  unfold openFullTweet, clickAndWaitFor. cbn [click fst snd].
  set (p := permalinkPath (doc s) (container this)).
  destruct (has_click _ (container this)); [|discriminate].
  destruct (waitForPredicate _ _ _ _) as [y|] eqn:Hw; [|discriminate].
  intros H. injection H as <- ->. split; [reflexivity|].
  apply (waitForPredicate_resolved
           (fun t => forall o, set_fullTweetOverlay t o = set_fullTweetOverlay this o))
    in Hw.
  - destruct Hw as (n & [t0 s0] & Hn & HJ & Htr & Hlk & Hp).
    cbn [fst snd] in HJ, Htr, Hlk. unfold openFullTweet_predicate in Hp.
    destruct (JS.endsWith (baseURI (doc s0)) (JS.toString p)) eqn:He;
      [|discriminate].
    cbn in Hp. destruct (permalink_overlay (doc s0)) as [o|] eqn:Ho;
      [|discriminate].
    injection Hp as <- <-. exists o, n. cbn.
    split; [exact Hn|]. split; [apply HJ|]. split; [exact Ho|].
    split; [exact He|]. split; [|exact Hlk].
    rewrite Htr. cbn. rewrite <- !app_assoc. reflexivity.
  - intros [t0 s0]. unfold openFullTweet_predicate.
    destruct (JS.endsWith _ _); [|reflexivity].
    cbn. destruct (permalink_overlay (doc s0)); reflexivity.
  - intros [t0 s0]. unfold openFullTweet_predicate.
    destruct (JS.endsWith _ _); [|reflexivity].
    cbn. destruct (permalink_overlay (doc s0)); reflexivity.
  - intros [t0 s0] HJ. cbn [fst] in HJ. unfold openFullTweet_predicate.
    destruct (JS.endsWith _ _); [|exact HJ].
    cbn. destruct (permalink_overlay (doc s0)); cbn [fst snd]; intros o';
      rewrite <- (HJ o'); reflexivity.
  - reflexivity.
Qed.

Lemma closeFullTweetOverlay_inversion this fuel s overlay clicked this' s' :
  querySelector (doc s) None closeFullTweetSelector = Some overlay ->
  closeFullTweetOverlay react this fuel s = Fulfilled (clicked, (this', s')) ->
  clicked = true /\ this' = this /\ links s' = links s
  /\ baseURI (doc s') = _baseURI this
  /\ exists n,
       (n < fuel)%nat
       /\ trace s'
          = trace s ++ [MouseOver overlay; Click overlay]
              ++ repeat (Elapse 1000) (S n).
Proof.
  unfold closeFullTweetOverlay. intros ->.
  unfold clickAndWaitFor. cbn [click fst snd debug].
  destruct (has_click _ overlay); [|discriminate].
  destruct (waitForPredicate _ _ _ _) as [y|] eqn:Hw; [|discriminate].
  intros H. injection H as <- ->.
  apply (waitForPredicate_resolved (fun t => t = this)) in Hw.
  - destruct Hw as (n & [t0 s0] & Hn & HJ & Htr & Hlk & Hp).
    cbn [fst snd] in HJ, Htr, Hlk. subst t0.
    unfold closeFullTweetOverlay_predicate in Hp.
    unfold JS.str_eqb in Hp.
    case_bool_decide as He; cbn in Hp; [|discriminate].
    injection Hp as <- <-. repeat split; try assumption.
    exists n. split; [exact Hn|].
    cbn. rewrite Htr. cbn. rewrite <- !app_assoc. reflexivity.
  - intros [t0 s0]. unfold closeFullTweetOverlay_predicate.
    destruct (_ && _); reflexivity.
  - intros [t0 s0]. unfold closeFullTweetOverlay_predicate.
    destruct (_ && _); reflexivity.
  - intros [t0 s0] HJ. unfold closeFullTweetOverlay_predicate.
    destruct (_ && _); exact HJ.
  - reflexivity.
Qed.

(** X7. [closeFullTweetOverlay]. Without a dismiss control it resolves with
    [false] at once, whatever the location is and however little time is
    allowed, and has done nothing. With one it marks the control, mouses
    over it and clicks it (a control without a [click] method rejects the
    call), and then polls every second: it resolves, with [true], at the
    first firing at which the location is the [baseURI] the tweet was
    constructed with, and not before. Whenever it resolves with a control,
    it resolves with [true], after the mouse-over and the click and then
    nothing but one-second timers, at least one; the location is that
    [baseURI], and the tweet object and the registry of links are as they
    were. *)
Theorem close_full_tweet_resolves_on_the_timeline this fuel s :
  match querySelector (doc s) None closeFullTweetSelector with
  | None => closeFullTweetOverlay react this fuel s = Fulfilled (false, (this, s))
  | Some overlay =>
      (forall clicked this' s',
         closeFullTweetOverlay react this fuel s = Fulfilled (clicked, (this', s')) ->
         clicked = true /\ this' = this /\ links s' = links s
         /\ baseURI (doc s') = _baseURI this
         /\ exists n,
              (n < fuel)%nat
              /\ trace s'
                 = trace s ++ [MouseOver overlay; Click overlay]
                     ++ repeat (Elapse 1000) (S n))
      /\ (has_click
            (doc (perform react (MouseOver overlay)
                    (update_doc (classList_add overlay (JS.str "wr-debug-click")) s)))
            overlay = false ->
          closeFullTweetOverlay react this fuel s
          = Thrown TypeError
              (perform react (MouseOver overlay)
                 (update_doc (classList_add overlay (JS.str "wr-debug-click")) s)))
      /\ (has_click
            (doc (perform react (MouseOver overlay)
                    (update_doc (classList_add overlay (JS.str "wr-debug-click")) s)))
            overlay = true ->
          forall m,
            (forall i, (i < m)%nat ->
               baseURI
                 (doc (elapsed react (S i)
                         (perform react (Click overlay)
                            (perform react (MouseOver overlay)
                               (update_doc
                                  (classList_add overlay (JS.str "wr-debug-click"))
                                  s)))))
               <> _baseURI this) ->
            baseURI
              (doc (elapsed react (S m)
                      (perform react (Click overlay)
                         (perform react (MouseOver overlay)
                            (update_doc
                               (classList_add overlay (JS.str "wr-debug-click"))
                               s)))))
            = _baseURI this ->
            if (m <? fuel)%nat
            then closeFullTweetOverlay react this fuel s
                 = Fulfilled
                     (true,
                      (this,
                       update_doc
                         (classList_remove overlay (JS.str "wr-debug-click"))
                         (elapsed react (S m)
                            (perform react (Click overlay)
                               (perform react (MouseOver overlay)
                                  (update_doc
                                     (classList_add overlay
                                        (JS.str "wr-debug-click"))
                                     s))))))
            else closeFullTweetOverlay react this fuel s = NotYet)
  end.
Proof.
  pose proof (closeFullTweetOverlay_by_firings react this fuel s) as Hf.
  destruct (querySelector (doc s) None closeFullTweetSelector) as [overlay|] eqn:Hq;
    [|exact Hf].
  cbv zeta in Hf. destruct Hf as [Hthrow Hclick]. split; [|split].
  - intros clicked this' s' H.
    apply (closeFullTweetOverlay_inversion _ _ _ overlay _ _ _ Hq H).
  - exact Hthrow.
  - intros Hc m Hbefore Hat. destruct (Hclick Hc) as [Hback Hnever].
    destruct (m <? fuel)%nat eqn:Hm.
    + apply Nat.ltb_lt in Hm. apply (Hback m Hm Hbefore Hat).
    + apply Nat.ltb_ge in Hm. apply Hnever. intros i Hi. apply Hbefore. lia.
Qed.

End OpenAndClose.

(** X6. [openFullTweet]: when its promise resolves, it resolves with [true];
    the container was moused over and clicked once, and then nothing but
    one-second timers ran, at least one; the location ends with the
    container's permalink path (with [undefined] when the container has
    none); the tweet holds the element [permalink-overlay], which is not
    [null]; and the registry of links is as it was. *)
Theorem open_full_tweet_resolves_on_the_permalink
    (react : list Browser.Action -> Browser.Action -> Timeline.Document ->
             Timeline.Document)
    (this this' : Timeline.Tweet) (fuel : nat) (s s' : Timeline.Session)
    (clicked : bool) :
  Timeline.openFullTweet react this fuel s
  = Timeline.Fulfilled (clicked, (this', s')) ->
  clicked = true
  /\ exists o n,
       (n < fuel)%nat
       /\ this' = Timeline.set_fullTweetOverlay this (Some o)
       /\ Timeline.permalink_overlay (Timeline.doc s') = Some o
       /\ JS.endsWith (Timeline.baseURI (Timeline.doc s'))
            (JS.toString
               (Timeline.permalinkPath (Timeline.doc s) (Timeline.container this)))
          = true
       /\ Timeline.trace s'
          = Timeline.trace s
              ++ [Browser.MouseOver (Timeline.container this);
                  Browser.Click (Timeline.container this)]
              ++ repeat (Browser.Elapse 1000) (S n)
       /\ Timeline.links s' = Timeline.links s.
Proof. apply openFullTweet_inversion. Qed.

(** On the demo page the overlay opens. *)
Lemma open_full_tweet_resolves_on_the_permalink_witness :
  match Timeline.openFullTweet Demo.react (Demo.tweet_object false) 3
          (Demo.start Demo.plain 1000) with
  | Timeline.Fulfilled (clicked, (this', s')) =>
      clicked = true
      /\ exists o n,
           (n < 3)%nat
           /\ this' = Timeline.set_fullTweetOverlay (Demo.tweet_object false) (Some o)
           /\ Timeline.permalink_overlay (Timeline.doc s') = Some o
           /\ JS.endsWith (Timeline.baseURI (Timeline.doc s'))
                (JS.toString
                   (Timeline.permalinkPath (Timeline.doc (Demo.start Demo.plain 1000))
                      (Timeline.container (Demo.tweet_object false))))
              = true
           /\ Timeline.trace s'
              = Timeline.trace (Demo.start Demo.plain 1000)
                  ++ [Browser.MouseOver (Timeline.container (Demo.tweet_object false));
                      Browser.Click (Timeline.container (Demo.tweet_object false))]
                  ++ repeat (Browser.Elapse 1000) (S n)
           /\ Timeline.links s' = Timeline.links (Demo.start Demo.plain 1000)
  | _ => False
  end.
Proof.
  destruct (Timeline.openFullTweet Demo.react (Demo.tweet_object false) 3
              (Demo.start Demo.plain 1000)) as [[clicked [this' s']]|e s'|] eqn:H.
  - exact (open_full_tweet_resolves_on_the_permalink _ _ _ _ _ _ _ H).
  - vm_compute in H. discriminate H.
  - vm_compute in H. discriminate H.
Defined.

(** On the demo page, with the overlay open, the dismiss control closes it
    at the first firing; without a dismiss control nothing is done. *)
Lemma close_full_tweet_resolves_on_the_timeline_witness :
  match Timeline.closeFullTweetOverlay Demo.react (Demo.tweet_object false) 3
          (Timeline.with_doc (Demo.start Demo.plain 1000)
             (Demo.set_baseURI (Demo.page Demo.plain 1000) Demo.permalink)) with
  | Timeline.Fulfilled (clicked, (this', s')) =>
      clicked = true
      /\ this' = Demo.tweet_object false
      /\ Timeline.baseURI (Timeline.doc s') = Demo.home
      /\ Timeline.trace s'
         = [Browser.MouseOver Demo.dismiss_span; Browser.Click Demo.dismiss_span;
            Browser.Elapse 1000]
  | _ => False
  end.
Proof.
  pose proof (close_full_tweet_resolves_on_the_timeline Demo.react
                (Demo.tweet_object false) 3
                (Timeline.with_doc (Demo.start Demo.plain 1000)
                   (Demo.set_baseURI (Demo.page Demo.plain 1000) Demo.permalink)))
    as H.
  cbn [Timeline.querySelector Timeline.doc Timeline.with_doc Demo.set_baseURI
       Demo.page Demo.select] in H.
  destruct H as (_ & _ & H).
  specialize (H eq_refl 0%nat ltac:(intros i Hi; lia) eq_refl).
  cbn [Nat.ltb Nat.leb] in H. rewrite H.
  repeat split.
Defined.

(** X8. Opening a tweet has no time limit. If at no firing of the
    one-second timer that follows the click on the container the page shows
    both a location that ends with the permalink path and an element
    [permalink-overlay] (without the element the predicate throws inside the
    timer, which leaves the timer running), then [openFullTweet] never
    resolves, however many firings are allowed; so the visit of the tweet
    never gets anywhere, and the handler call that follows a video tweet
    never settles. A page that does nothing at all is of this kind. *)
Theorem tweet_visit_waits_for_the_overlay
    (react : list Browser.Action -> Browser.Action -> Timeline.Document ->
             Timeline.Document)
    (rest_ok : jsstring -> jsstring -> bool) (timelineURI : jsstring)
    (k : Timeline.Session -> Timeline.Outcome) (aTweet : Timeline.Tweet)
    (tweets : list Browser.Elem) (s : Timeline.Session) :
  Timeline.has_click
    (Timeline.doc
       (Timeline.perform react (Browser.MouseOver (Timeline.container aTweet)) s))
    (Timeline.container aTweet) = true ->
  (forall n,
     Timeline.opened
       (Timeline.permalinkPath (Timeline.doc s) (Timeline.container aTweet))
       (Timeline.doc
          (Timeline.elapsed react (S n)
             (Timeline.perform react (Browser.Click (Timeline.container aTweet))
                (Timeline.perform react
                   (Browser.MouseOver (Timeline.container aTweet)) s))))
     = false) ->
  forall fuel,
    Timeline.openFullTweet react aTweet fuel s = Timeline.NotYet
    /\ Timeline.view react rest_ok k aTweet tweets fuel s = Timeline.Pending
    /\ Timeline.WRIteratorHandler react rest_ok timelineURI fuel
         (Timeline.AtVideoYield aTweet tweets) s = Timeline.Unsettled.
Proof.
  intros Hc Hpage fuel.
  assert (Ho : Timeline.openFullTweet react aTweet fuel s = Timeline.NotYet).
  { destruct (openFullTweet_by_firings react aTweet fuel s) as [_ H].
    destruct (H Hc) as [_ Hnever]. apply Hnever. intros i _. apply Hpage. }
  assert (Hv : Timeline.view react rest_ok k aTweet tweets fuel s = Timeline.Pending).
  { unfold Timeline.view, Timeline.viewRepliesOrThread, Timeline.viewRegularTweet.
    rewrite Ho. destruct (Timeline.hasRepliedOrInThread aTweet); reflexivity. }
  split; [exact Ho|]. split; [exact Hv|].
  unfold Timeline.WRIteratorHandler. cbn [Timeline.next].
  unfold Timeline.view, Timeline.viewRepliesOrThread, Timeline.viewRegularTweet.
  rewrite Ho. destruct (Timeline.hasRepliedOrInThread aTweet); reflexivity.
Qed.

(** The demo page with no script at all: the location stays where it is. *)
Lemma tweet_visit_waits_for_the_overlay_witness :
  Timeline.view (fun _ _ d => d) Url.plain_rest_ok
    Timeline.Return (Demo.tweet_object false) [] 50 (Demo.start Demo.plain 1000)
  = Timeline.Pending.
Proof.
  apply (tweet_visit_waits_for_the_overlay
           (fun _ _ d => d) Url.plain_rest_ok Demo.home
           Timeline.Return (Demo.tweet_object false) [] (Demo.start Demo.plain 1000)).
  - reflexivity.
  - intros n.
    assert (Hd : forall m s0,
               Timeline.doc (Timeline.elapsed (fun _ _ d => d) m s0)
               = Timeline.doc s0)
      by (induction m as [|m IH]; intros s0; [reflexivity|apply IH]).
    rewrite Hd. vm_compute. reflexivity.
Defined.

(** ** The marker of visited elements *)

Section Marker.
Import Browser Timeline.

Lemma split_on_whitespace_contains (s token t : jsstring) :
  t ∈ split_on_whitespace token s -> contains (token ++ s) t = true.
Proof.
  revert token. induction s as [|c r IH]; intros token H.
  - cbn in H. destruct token as [|c' token']; [inversion H|].
    apply list_elem_of_singleton in H as ->. apply contains_prefix.
  - cbn [split_on_whitespace] in H. destruct (is_ascii_whitespace c).
    + assert (Hr : t ∈ split_on_whitespace [] r ->
                   contains (token ++ c :: r) t = true).
      { intros Hin. apply contains_app_r. cbn [contains].
        pose proof (IH [] Hin) as Hc. cbn [app] in Hc. rewrite Hc.
        apply orb_true_r. }
      destruct token as [|c' token']; [apply Hr, H|].
      apply elem_of_cons in H as [->|H]; [apply contains_prefix|apply Hr, H].
    + apply IH in H. rewrite <- app_assoc in H. exact H.
Qed.

(** A token of the class attribute occurs in the attribute. *)
Lemma token_contains (attr t : jsstring) :
  t ∈ ordered_set_parser attr -> contains attr t = true.
Proof.
  intros H. apply (split_on_whitespace_contains attr [] t).
  apply (elem_of_sublist _ _ _ H), keep_first_sublist.
Qed.

Lemma marked_unvisited (d : Document) (e : Elem) :
  Tokens.marked d e -> unvisited_content d e = false.
Proof.
  intros H. unfold unvisited_content. rewrite (token_contains _ _ H).
  apply andb_false_r.
Qed.

Lemma marked_outside (d : Document) (e : Elem) :
  Tokens.marked d e -> (e ∉ tweetXpath d) /\ (e ∉ overlayTweetXpath d).
Proof.
  intros H. pose proof (marked_unvisited d e H) as Hu.
  unfold tweetXpath, overlayTweetXpath.
  split; intros Hin; apply list_elem_of_In, filter_In in Hin as [_ Hin];
    congruence.
Qed.

Lemma className_set (d : Document) (e x : Elem) (c : jsstring) :
  className (set_className d e c) x = if Nat.eqb x e then c else className d x.
Proof. reflexivity. Qed.

Lemma marked_after_add (d : Document) (e e' : Elem) (t : jsstring) :
  Tokens.valid_token t = true -> Tokens.marked d e ->
  Tokens.marked (classList_add e' t d) e.
Proof.
  intros Hv H. unfold Tokens.marked, classList_add. rewrite className_set.
  destruct (Nat.eqb e e') eqn:He; [|exact H].
  apply Nat.eqb_eq in He as ->. rewrite (parse_classList_add _ _ Hv).
  case_bool_decide; [exact H|]. apply elem_of_app. left. exact H.
Qed.

Lemma marked_after_remove (d : Document) (e e' : Elem) (t : jsstring) :
  t <> wrvistited -> Tokens.marked d e ->
  Tokens.marked (classList_remove e' t d) e.
Proof.
  intros Hv H. unfold Tokens.marked, classList_remove. rewrite className_set.
  destruct (Nat.eqb e e') eqn:He; [|exact H].
  apply Nat.eqb_eq in He as ->. rewrite parse_classList_remove.
  apply list_elem_of_In, filter_In. split; [apply list_elem_of_In, H|].
  unfold JS.str_eqb. rewrite bool_decide_eq_false_2; [reflexivity|congruence].
Qed.

Lemma marked_by_marking (d : Document) (e : Elem) :
  Tokens.marked (markElemAsVisited (Some e) d) e.
Proof.
  unfold Tokens.marked, markElemAsVisited, classList_add. rewrite className_set.
  rewrite Nat.eqb_refl, parse_classList_add by reflexivity.
  case_bool_decide as H; [exact H|]. apply elem_of_app. right. left.
Qed.

Lemma classList_add_twice (attr t : jsstring) :
  Tokens.valid_token t = true ->
  Browser.classList_add (Browser.classList_add attr t) t
  = Browser.classList_add attr t.
Proof.
  intros Hv. unfold Browser.classList_add at 1.
  rewrite bool_decide_eq_true_2.
  - rewrite (parse_classList_add _ _ Hv). reflexivity.
  - rewrite (parse_classList_add _ _ Hv).
    case_bool_decide as H; [exact H|]. apply elem_of_app. right. left.
Qed.

End Marker.

(** X9. The marker is a token of the class attribute, and stays one. After
    [markElemAsVisited] the element carries the marker, and marking it again
    changes no class attribute. An element that carries the marker is in
    neither enumeration of tweets; and it still carries the marker after any
    class is added to any element and after any class other than the marker
    is removed from any element, so the debug classes the runner sets and
    clears never bring a visited tweet back. *)
Theorem marker_survives_class_changes (d : Timeline.Document) (e : Browser.Elem) :
  Tokens.marked (Timeline.markElemAsVisited (Some e) d) e
  /\ (forall x,
        Timeline.className
          (Timeline.markElemAsVisited (Some e)
             (Timeline.markElemAsVisited (Some e) d)) x
        = Timeline.className (Timeline.markElemAsVisited (Some e) d) x)
  /\ (Tokens.marked d e ->
      (e ∉ Timeline.tweetXpath d) /\ (e ∉ Timeline.overlayTweetXpath d))
  /\ (forall e' t,
        Tokens.marked d e -> Tokens.valid_token t = true ->
        Tokens.marked (Timeline.classList_add e' t d) e)
  /\ (forall e' t,
        Tokens.marked d e -> t <> Timeline.wrvistited ->
        Tokens.marked (Timeline.classList_remove e' t d) e).
Proof.
  split; [apply marked_by_marking|]. split; [|split; [apply marked_outside|]].
  - intros x. unfold Timeline.markElemAsVisited, Timeline.classList_add.
    rewrite !className_set. destruct (Nat.eqb x e) eqn:Hx; [|reflexivity].
    rewrite Nat.eqb_refl. apply classList_add_twice. reflexivity.
  - split; intros e' t H Ht; [apply marked_after_add|apply marked_after_remove];
      assumption.
Qed.

(** X10. A visited tweet stays visited through the whole run, as long as
    the page itself does not take the marker away: if the element carries
    the marker before a call of [next()], it carries it in whatever session
    the call leaves, and is in neither enumeration of tweets there. *)
Theorem visited_tweet_stays_visited
    (react : list Browser.Action -> Browser.Action -> Timeline.Document ->
             Timeline.Document)
    (rest_ok : jsstring -> jsstring -> bool) (timelineURI : jsstring)
    (fuel : nat) (g : Timeline.Suspended) (s : Timeline.Session)
    (e : Browser.Elem) :
  (forall before a d, Tokens.marked d e -> Tokens.marked (react before a d) e) ->
  Tokens.marked (Timeline.doc s) e ->
  Observed.after_timeline
    (fun s' =>
       Tokens.marked (Timeline.doc s') e
       /\ (e ∉ Timeline.tweetXpath (Timeline.doc s'))
       /\ (e ∉ Timeline.overlayTweetXpath (Timeline.doc s')))
    (Timeline.next react rest_ok timelineURI fuel g s).
Proof.
  intros Hpage H.
  assert (Hk : Observed.after_timeline
                 (fun s' => Tokens.marked (Timeline.doc s') e)
                 (Timeline.next react rest_ok timelineURI fuel g s)).
  { apply (next_keeps react rest_ok (fun s' => Tokens.marked (Timeline.doc s') e));
      [| | | |exact H].
    - intros a s0 H0. apply Hpage, H0.
    - intros e' t s0 Ht H0. apply marked_after_add; assumption.
    - intros e' t s0 Ht H0. apply marked_after_remove; assumption.
    - intros toAdd s0 H0. exact H0. }
  destruct (Timeline.next react rest_ok timelineURI fuel g s); cbn in Hk |- *;
    try exact I; (split; [exact Hk|apply marked_outside, Hk]).
Qed.

(** On the demo page the tweet is marked by the first call and stays so
    through the second. *)
Lemma visited_tweet_stays_visited_witness :
  match Timeline.next Demo.react Url.plain_rest_ok Demo.home 5 Timeline.AtStart
          (Demo.start Demo.plain 2000) with
  | Timeline.Yield _ g s =>
      Tokens.marked (Timeline.doc s) Demo.content_div
      /\ Observed.after_timeline
           (fun s' =>
              Tokens.marked (Timeline.doc s') Demo.content_div
              /\ (Demo.content_div ∉ Timeline.tweetXpath (Timeline.doc s'))
              /\ (Demo.content_div ∉ Timeline.overlayTweetXpath (Timeline.doc s')))
           (Timeline.next Demo.react Url.plain_rest_ok Demo.home 5 g s)
  | _ => False
  end.
Proof.
  assert (Hpage : forall before a d,
             Tokens.marked d Demo.content_div ->
             Tokens.marked (Demo.react before a d) Demo.content_div).
  { intros before a d H. destruct a; cbn [Demo.react]; try exact H.
    destruct (Nat.eqb e Demo.container_div); [exact H|].
    destruct (Nat.eqb e Demo.dismiss_span); exact H. }
  destruct (Timeline.next Demo.react Url.plain_rest_ok Demo.home 5 Timeline.AtStart
              (Demo.start Demo.plain 2000)) as [v g s|s|e s|] eqn:Hn;
    try (vm_compute in Hn; discriminate Hn).
  assert (Hm : Tokens.marked (Timeline.doc s) Demo.content_div).
  { vm_compute in Hn. injection Hn as _ _ <-.
    unfold Tokens.marked. apply (bool_decide_unpack _). vm_compute. exact I. }
  split; [exact Hm|].
  apply (visited_tweet_stays_visited Demo.react Url.plain_rest_ok Demo.home 5 g s
           Demo.content_div Hpage Hm).
Defined.

(** ** Rejections of the timeline runner *)

Section Rejections.
Import Browser Timeline.
Variable react : list Action -> Action -> Document -> Document.
Variable rest_ok : jsstring -> jsstring -> bool.
Variable baseURI : jsstring.

(** The page keeps its elements HTML elements and its links HTML links. *)
Hypothesis react_html :
  forall before a d, Observed.html_page d -> Observed.html_page (react before a d).

Ltac html_kept :=
  first
    [ assumption
    | intros ? ? ?; cbn; apply react_html; assumption
    | intros; assumption ].

Lemma click_html elem s :
  Observed.html_page (doc s) ->
  exists clicked s',
    click react elem s = inr (clicked, s') /\ Observed.html_page (doc s').
Proof.
  intros H. destruct elem as [e|]; cbn [click]; [|eauto].
  assert (H1 : Observed.html_page (doc (perform react (MouseOver e) s)))
    by (apply react_html, H).
  destruct H1 as [Hc Hl]. rewrite Hc. eexists _, _. split; [reflexivity|].
  apply react_html. split; assumption.
Qed.

Lemma collectOutlinksFrom_html e s :
  Observed.html_page (doc s) ->
  exists s',
    collectOutlinksFrom rest_ok (Some e) s = inr s' /\ doc s' = doc s.
Proof.
  intros [_ Hl]. destruct (Hl e) as [l Hl']. cbn [collectOutlinksFrom].
  rewrite Hl', addOutLinks_of_nodes_html. eauto.
Qed.

Lemma openFullTweet_html this fuel s :
  Observed.html_page (doc s) ->
  match openFullTweet react this fuel s with
  | Fulfilled (_, (this', s')) =>
      fullTweetOverlay this' <> None /\ Observed.html_page (doc s')
  | Thrown _ _ => False
  | NotYet => True
  end.
Proof.
  intros H.
  assert (Hk : Observed.after_awaited (fun s' => Observed.html_page (doc s'))
                 (openFullTweet react this fuel s))
    by (apply openFullTweet_keeps; html_kept).
  destruct (openFullTweet react this fuel s) as [[b [t s']]|e s'|] eqn:Ho.
  - split; [|exact Hk].
    apply openFullTweet_inversion in Ho as (_ & o & n & _ & -> & _). discriminate.
  - unfold openFullTweet, clickAndWaitFor in Ho. cbn [fst snd] in Ho.
    destruct (click_html (Some (container this)) s H) as (c & s1 & Hcl & _).
    rewrite Hcl in Ho.
    destruct c; [destruct (waitForPredicate _ _ _ _)|]; discriminate.
  - exact I.
Qed.

Lemma closeFullTweetOverlay_html this fuel s :
  Observed.html_page (doc s) ->
  match closeFullTweetOverlay react this fuel s with
  | Fulfilled (_, (_, s')) => Observed.html_page (doc s')
  | Thrown _ _ => False
  | NotYet => True
  end.
Proof.
  intros H.
  assert (Hk : Observed.after_awaited (fun s' => Observed.html_page (doc s'))
                 (closeFullTweetOverlay react this fuel s))
    by (apply closeFullTweetOverlay_keeps; html_kept).
  destruct (closeFullTweetOverlay react this fuel s) as [[b [t s']]|e s'|] eqn:Hc;
    [exact Hk| |exact I].
  unfold closeFullTweetOverlay in Hc.
  destruct (querySelector (doc s) None closeFullTweetSelector) as [o|];
    [|discriminate].
  unfold clickAndWaitFor in Hc. cbn [fst snd debug] in Hc.
  destruct (click_html (Some o)
              (update_doc (classList_add o (JS.str "wr-debug-click")) s) H)
    as (c & s1 & Hcl & _).
  rewrite Hcl in Hc.
  destruct c; [destruct (waitForPredicate _ _ _ _)|]; discriminate.
Qed.

Lemma yield_reply_rejects this aTweet snapShot tweets s :
  fullTweetOverlay this <> None ->
  Observed.rejects_at_construction baseURI
    (yield_reply react this aTweet snapShot tweets s).
Proof. intros H. exact H. Qed.

Lemma visitThreadReplyTweets_resume_rejects k this snapShot tweets s :
  fullTweetOverlay this <> None -> Observed.html_page (doc s) ->
  (forall s, Observed.html_page (doc s) ->
     Observed.rejects_at_construction baseURI (k s)) ->
  Observed.rejects_at_construction baseURI
    (visitThreadReplyTweets_resume react k this snapShot tweets s).
Proof.
  intros Ho Hs Hk. unfold visitThreadReplyTweets_resume.
  destruct snapShot as [|a snapShot]; [|apply yield_reply_rejects, Ho].
  unfold snapshot_again.
  destruct (overlayTweetXpath (doc s)) as [|a l]; [|apply yield_reply_rejects, Ho].
  destruct (fullTweetOverlay this) as [o|] eqn:Hov; [|congruence].
  cbn [selectElemFromAndClick].
  destruct (click_html (querySelector (doc s) (Some o) showMoreThreadsSelector) s Hs)
    as (clicked & s1 & -> & H1).
  assert (H2 : Observed.html_page (doc (if clicked then delay react 3000 s1 else s1)))
    by (destruct clicked; [apply react_html|]; exact H1).
  destruct (overlayTweetXpath _) as [|a l]; [apply Hk, H2|].
  apply yield_reply_rejects. congruence.
Qed.

Lemma visitThreadReplyTweets_rejects k this tweets s :
  fullTweetOverlay this <> None -> Observed.html_page (doc s) ->
  (forall s, Observed.html_page (doc s) ->
     Observed.rejects_at_construction baseURI (k s)) ->
  Observed.rejects_at_construction baseURI
    (visitThreadReplyTweets react rest_ok k this tweets s).
Proof.
  intros Ho Hs Hk. unfold visitThreadReplyTweets.
  destruct (fullTweetOverlay this) as [o|] eqn:Hov; [|congruence].
  destruct (collectOutlinksFrom_html o s Hs) as (s1 & -> & Hd).
  assert (H1 : Observed.html_page (doc s1)) by (rewrite Hd; exact Hs).
  destruct (overlayTweetXpath _) as [|a l]; [apply Hk, H1|].
  apply yield_reply_rejects. congruence.
Qed.

Lemma close_then_rejects k this fuel s :
  Observed.html_page (doc s) ->
  (forall s, Observed.html_page (doc s) ->
     Observed.rejects_at_construction baseURI (k s)) ->
  Observed.rejects_at_construction baseURI (close_then react k this fuel s).
Proof.
  intros Hs Hk. unfold close_then.
  pose proof (closeFullTweetOverlay_html this fuel s Hs) as Hc.
  destruct (closeFullTweetOverlay react this fuel s) as [[b [t s']]|e s'|];
    [apply Hk, Hc|contradiction|exact I].
Qed.

Lemma view_rejects k aTweet tweets fuel s :
  Observed.html_page (doc s) ->
  (forall s, Observed.html_page (doc s) ->
     Observed.rejects_at_construction baseURI (k s)) ->
  Observed.rejects_at_construction baseURI
    (view react rest_ok k aTweet tweets fuel s).
Proof.
  intros Hs Hk. unfold view, viewRepliesOrThread, viewRegularTweet.
  pose proof (openFullTweet_html aTweet fuel s Hs) as Ho.
  destruct (hasRepliedOrInThread aTweet);
    destruct (openFullTweet react aTweet fuel s) as [[b [t s']]|e s'|];
    try exact I; try contradiction.
  destruct Ho as [Ho Hs'].
  apply visitThreadReplyTweets_rejects; [exact Ho|exact Hs'|].
  intros s0 H0. apply close_then_rejects; [exact H0|exact Hk].
Qed.

Lemma timelineIterator_rejects fuel tweets s :
  Observed.html_page (doc s) ->
  Observed.rejects_at_construction baseURI
    (timelineIterator react rest_ok baseURI fuel tweets s).
Proof.
  revert tweets s. induction fuel as [|fuel IH]; intros tweets s Hs; [exact I|].
  destruct tweets as [|t tweets].
  - cbn [timelineIterator].
    assert (He : Observed.html_page (doc (snd (enumerate_again react s)))).
    { unfold enumerate_again. destruct (tweetXpath (doc s)); cbn [snd];
        [apply react_html|]; exact Hs. }
    destruct (enumerate_again react s) as [tweets' s'].
    destruct (loop_condition tweets' s'); [apply IH, He|exact I].
  - rewrite timelineIterator_unit.
    pose proof (prepared_keeps react (fun s' => Observed.html_page (doc s'))
                  ltac:(html_kept) ltac:(html_kept) t baseURI s Hs) as H0.
    destruct (new_Tweet t baseURI (doc s)) as [d [e|aTweet]] eqn:Hn.
    + assert (e = TypeError) as ->.
      { unfold new_Tweet in Hn.
        repeat match type of Hn with
               | context [match ?o with Some _ => _ | None => _ end] => destruct o
               end; congruence. }
      split; [reflexivity|]. exists t, (doc s). exact Hn.
    + cbn [fst] in H0.
      destruct (new_Tweet_inversion _ _ _ _ _ Hn) as (_ & Ht & _).
      rewrite Ht.
      destruct (collectOutlinksFrom_html t _ H0) as (s1 & -> & Hd).
      assert (H1 : Observed.html_page (doc s1)) by (rewrite Hd; exact H0).
      destruct (negb (is_null _)); [exact I|].
      apply view_rejects; [exact H1|]. intros s0 Hs0. apply IH, Hs0.
Qed.

(** X11. On a page whose elements all have a [click] method and whose links
    are all HTML anchors and areas, and which stays so, a call of the
    timeline's [next()] throws only where a [Tweet] is constructed: the
    exception is the [TypeError] of a constructor that found no container,
    footer, reply action or reply button for its element, and the document
    is as that constructor left it. Nothing else throws on such a page:
    not the collecting of links, not a click, and not the walk through the
    replies, because a generator suspended among the replies holds the
    overlay it opened; and every generator the call yields is again of this
    kind, on a page that is still of this kind. *)
Theorem timeline_rejects_only_at_construction fuel g s :
  Observed.html_page (doc s) ->
  Observed.overlay_held g ->
  Observed.rejects_at_construction baseURI (next react rest_ok baseURI fuel g s)
  /\ Observed.after_timeline (fun s' => Observed.html_page (doc s'))
       (next react rest_ok baseURI fuel g s).
Proof.
  intros Hs Hg. split.
  - destruct g; cbn [next].
    + apply timelineIterator_rejects, Hs.
    + apply view_rejects; [exact Hs|]. intros s0 H0.
      apply timelineIterator_rejects, H0.
    + apply close_then_rejects; [exact Hs|]. intros s0 H0.
      apply timelineIterator_rejects, H0.
    + apply visitThreadReplyTweets_resume_rejects; [exact Hg|exact Hs|].
      intros s0 H0. apply close_then_rejects; [exact H0|]. intros s1 H1.
      apply timelineIterator_rejects, H1.
    + exact I.
  - apply (next_keeps react rest_ok (fun s' => Observed.html_page (doc s')));
      html_kept.
Qed.

End Rejections.

(** A generator suspended among the replies of an open tweet, the replies
    used up, and one more item in the stream, which has a container but no
    footer: the call closes the overlay, comes to the item and rejects. *)
Lemma timeline_rejects_only_at_construction_witness :
  Observed.rejects_at_construction Demo.home
    (Timeline.next Demo.react Url.plain_rest_ok Demo.home 5
       (Timeline.AtReplyYield
          (Timeline.set_fullTweetOverlay (Demo.tweet_object true)
             (Some Demo.overlay_div))
          [] [Demo.late_content_div])
       (Timeline.with_doc (Demo.start Demo.plain 2000)
          (Demo.set_parent (Demo.page Demo.plain 2000) Demo.late_content_div
             Demo.container_div)))
  /\ match Timeline.next Demo.react Url.plain_rest_ok Demo.home 5
             (Timeline.AtReplyYield
                (Timeline.set_fullTweetOverlay (Demo.tweet_object true)
                   (Some Demo.overlay_div))
                [] [Demo.late_content_div])
             (Timeline.with_doc (Demo.start Demo.plain 2000)
                (Demo.set_parent (Demo.page Demo.plain 2000) Demo.late_content_div
                   Demo.container_div)) with
     | Timeline.Throw e s' =>
         e = Browser.TypeError
         /\ Timeline.trace s'
            = [Browser.MouseOver Demo.dismiss_span; Browser.Click Demo.dismiss_span;
               Browser.Elapse 1000]
     | _ => False
     end.
Proof.
  split; [|vm_compute; repeat split; reflexivity].
  apply (timeline_rejects_only_at_construction Demo.react Url.plain_rest_ok
           Demo.home).
  - intros before a d [Hc Hl]. destruct a; cbn [Demo.react]; try (split; assumption).
    destruct (Nat.eqb e Demo.container_div); [split; assumption|].
    destruct (Nat.eqb e Demo.dismiss_span); split; assumption.
  - split; [reflexivity|]. intros e. cbn.
    destruct (Nat.eqb e Demo.content_div);
      [exists [ {| Browser.href := JS.str "https://x.com/a" |} ]|exists []];
      reflexivity.
  - discriminate.
Defined.

(** ** The reads of the container at the end of a batch *)

Section GridReads.
Import Browser Grid.

(** A pass that selects nothing leaves the set of seen keys as it was. *)
Lemma empty_pass_keeps_seen (d : Document) (elems : list Elem)
    (seenPins seenPins' : gset Key) :
  reactInstancesFromElements d elems seenPins = inr ([], seenPins') ->
  seenPins' = seenPins.
Proof.
  revert seenPins. induction elems as [|e elems IH]; intros seen H;
    cbn [reactInstancesFromElements] in H.
  - injection H as <-. reflexivity.
  - destruct (reactInstanceFromDOMElem d (Some e)) as [exn|instance];
      [discriminate|].
    unfold keySelector in H. cbv zeta in H.
    destruct (negb (bool_decide (key instance ∈ seen))).
    + destruct (reactInstancesFromElements d elems _) as [exn|[pins seen1]];
        discriminate.
    + destruct (reactInstancesFromElements d elems seen) as [exn|[pins seen1]] eqn:Hr;
        [discriminate|].
      injection H as -> <-. apply (IH _ Hr).
Qed.

End GridReads.

(** X12. What a call does when the batch it was consuming is used up: it
    reads the container's children once more, and this one read decides.
    When the read throws, the call throws; when it selects no pin, the
    generator returns, at once and without waiting for the page to load
    more (the second and third read of [iteratePins] follow the first with
    no action and no timer in between, and find what it found); otherwise the
    call yields the first pin selected and keeps the rest as the new batch,
    in the loop it was in. *)
Theorem grid_call_at_the_end_of_a_batch
    (react : list Browser.Action -> Browser.Action -> Grid.Document ->
             Grid.Document)
    (rest_ok : jsstring -> jsstring -> bool) (phase : Grid.Drain)
    (pinContainerR : Grid.Fiber) (seenPins : gset Grid.Key) (s : Grid.Session) :
  Grid.next react rest_ok (Grid.AtPinYield phase pinContainerR seenPins []) s
  = match Grid.getRenderedPins (Grid.doc s) pinContainerR seenPins with
    | inl e => Grid.Throw e s
    | inr ([], _) => Grid.Return s
    | inr (pin :: renderedPins, seenPins') =>
        Grid.yield_pin react rest_ok phase pinContainerR seenPins' pin renderedPins s
    end.
Proof.
  cbn [Grid.next Grid.consumePins].
  destruct phase; unfold Grid.first_drain_again, Grid.second_drain_again.
  - destruct (Grid.getRenderedPins (Grid.doc s) pinContainerR seenPins)
      as [e|[[|pin pins] seen1]] eqn:H; try reflexivity.
    apply empty_pass_keeps_seen in H as Hs. subst seen1. rewrite !H. reflexivity.
  - destruct (Grid.getRenderedPins (Grid.doc s) pinContainerR seenPins)
      as [e|[[|pin pins] seen1]]; reflexivity.
Qed.

(** ** Collecting again *)

Lemma collect_all_absorbed (rest_ok : jsstring -> jsstring -> bool)
    (cs : list jsstring) (registry : list jsstring) :
  (forall c y, c ∈ cs -> Reference.accepted rest_ok c y -> y ∈ registry) ->
  foldr (Reference.collect_one rest_ok) registry cs = registry.
Proof.
  induction cs as [|c cs IH]; intros H; [reflexivity|].
  cbn [foldr]. rewrite IH by (intros c' y Hc; apply H; right; exact Hc).
  unfold Reference.collect_one.
  destruct (JS.truthy_str (JS.trim c)) eqn:Ht; [|reflexivity].
  case_bool_decide as Hin; [reflexivity|].
  destruct (Reference.has_ignore_prefix (JS.trim c)) eqn:Hp; [reflexivity|].
  destruct (Reference.parses_as_http_or_https rest_ok (JS.trim c)) eqn:Hh;
    [|reflexivity].
  exfalso. apply Hin, (H c); [left|].
  repeat split; try assumption. apply truthy_str_true, Ht.
Qed.

Lemma collect_all_again (rest_ok : jsstring -> jsstring -> bool)
    (cs again : list jsstring) (registry : list jsstring) :
  (forall c, c ∈ again -> c ∈ cs) ->
  foldr (Reference.collect_one rest_ok)
    (foldr (Reference.collect_one rest_ok) registry cs) again
  = foldr (Reference.collect_one rest_ok) registry cs.
Proof.
  intros Hsub. apply collect_all_absorbed. intros c y Hc Ha.
  apply collect_all_elem. right. exists c. split; [apply Hsub, Hc|exact Ha].
Qed.

(** X14. Collecting the same links again changes nothing. After a batch of
    anchors has gone through [addOutLinks], a second batch made of anchors
    of the first, in any order and any number of times, leaves the registry
    exactly as it is, order included; this holds for the timeline's
    [addOutLinks] and for the collector's. *)
Theorem collecting_again_changes_nothing
    (rest_ok : jsstring -> jsstring -> bool)
    (toAdd again : list Browser.Anchor)
    (st : Timeline.Links) (this : Grid.OutLinkCollector) :
  (forall a, a ∈ again -> a ∈ toAdd) ->
  tables_intact this ->
  Timeline.outlinks
    (Timeline.addOutLinks rest_ok again (Timeline.addOutLinks rest_ok toAdd st))
  = Timeline.outlinks (Timeline.addOutLinks rest_ok toAdd st)
  /\ Grid.outlinks
       (Grid.addOutLinks rest_ok again (Grid.addOutLinks rest_ok toAdd this))
     = Grid.outlinks (Grid.addOutLinks rest_ok toAdd this).
Proof.
  intros Hsub Ht.
  assert (Hc : forall c, c ∈ map Browser.href again -> c ∈ map Browser.href toAdd).
  { intros c Hc. apply list_elem_of_fmap in Hc as (a & -> & Ha).
    apply list_elem_of_fmap. exists a. split; [reflexivity|apply Hsub, Ha]. }
  split.
  - rewrite !timeline_addOutLinks_spec. apply collect_all_again, Hc.
  - destruct (grid_addOutLinks_spec rest_ok toAdd this Ht) as [Ht' Ho].
    destruct (grid_addOutLinks_spec rest_ok again _ Ht') as [_ Ho'].
    rewrite Ho', Ho. apply collect_all_again, Hc.
Qed.

(** The anchors of the scenario, collected and then collected in reverse. *)
Lemma collecting_again_changes_nothing_witness :
  Timeline.outlinks
    (Timeline.addOutLinks Url.plain_rest_ok (rev Scenario.anchors)
       (Timeline.addOutLinks Url.plain_rest_ok Scenario.anchors
          Timeline.initial_links))
  = Timeline.outlinks
      (Timeline.addOutLinks Url.plain_rest_ok Scenario.anchors Timeline.initial_links)
  /\ Grid.outlinks
       (Grid.addOutLinks Url.plain_rest_ok (rev Scenario.anchors)
          (Grid.addOutLinks Url.plain_rest_ok Scenario.anchors
             Grid.new_OutLinkCollector))
     = Grid.outlinks
         (Grid.addOutLinks Url.plain_rest_ok Scenario.anchors
            Grid.new_OutLinkCollector).
Proof.
  apply collecting_again_changes_nothing.
  - intros a Ha. apply elem_of_reverse in Ha. exact Ha.
  - split; reflexivity.
Defined.

(** ** The XPath query function *)

Section Polyfill.
Import Browser XPath.

Lemma push_items_spec (snapShot : XPathResult) (rounds i : nat)
    (elements : list (option Elem)) :
  push_items snapShot rounds i elements
  = elements ++ map (snapshotItem snapShot) (seq i rounds).
Proof.
  revert i elements. induction rounds as [|rounds IH]; intros i elements.
  - cbn. rewrite app_nil_r. reflexivity.
  - cbn [push_items seq map]. rewrite IH, <- app_assoc, Nat.add_1_r. reflexivity.
Qed.

Lemma lookup_seq_all (l : list Elem) :
  map (fun i => l !! i) (seq 0 (length l)) = map Some l.
Proof.
  induction l as [|x l IH]; [reflexivity|].
  cbn [length seq map]. f_equal. rewrite <- seq_shift, map_map. exact IH.
Qed.

End Polyfill.

(** X13. [maybePolyfillXPG] hands back what it is given only when that is a
    function whose source text contains [[Command Line API]]; for anything
    else, a function without this text included, it returns its own query
    function. That function evaluates the query from the start element, or
    from the document when there is none, and returns the items of the
    snapshot, each once and in snapshot order: for a snapshot of the nodes
    [l] it returns [l], the empty array for an empty snapshot, and never a
    [null]. *)
Theorem polyfilled_query_returns_the_snapshot
    (evaluate : jsstring -> XPath.Node -> XPath.XPathResult) :
  (forall text call,
     XPath.maybePolyfillXPG evaluate (XPath.AFunction text call)
     = if Browser.contains text XPath.command_line_api
       then call
       else XPath.polyfill evaluate)
  /\ XPath.maybePolyfillXPG evaluate XPath.NotAFunction = XPath.polyfill evaluate
  /\ (forall xpathQuery startElem,
        XPath.polyfill evaluate xpathQuery startElem
        = map (XPath.snapshotItem
                 (XPath.xpathSnapShot evaluate xpathQuery startElem))
            (seq 0 (XPath.snapshotLength
                      (XPath.xpathSnapShot evaluate xpathQuery startElem))))
  /\ (forall xpathQuery startElem l,
        XPath.xpathSnapShot evaluate xpathQuery startElem = XPath.snapshot_of l ->
        XPath.polyfill evaluate xpathQuery startElem = map Some l)
  /\ (forall xpathQuery,
        XPath.polyfill evaluate xpathQuery None
        = XPath.polyfill evaluate xpathQuery (Some XPath.TheDocument)).
Proof.
  assert (H : forall xpathQuery startElem,
             XPath.polyfill evaluate xpathQuery startElem
             = map (XPath.snapshotItem
                      (XPath.xpathSnapShot evaluate xpathQuery startElem))
                 (seq 0 (XPath.snapshotLength
                           (XPath.xpathSnapShot evaluate xpathQuery startElem)))).
  { intros q startElem. unfold XPath.polyfill, XPath.xpathSnapShot. cbv zeta.
    rewrite push_items_spec, Nat.sub_0_r. reflexivity. }
  split; [|split; [reflexivity|split; [exact H|split]]].
  - intros text call. unfold XPath.maybePolyfillXPG.
    destruct (Browser.contains text XPath.command_line_api); reflexivity.
  - intros q startElem l Hl. rewrite H, Hl. apply lookup_seq_all.
  - reflexivity.
Qed.
